(** * umux: session engine

    A shallow embedding of the core of umux (history buffer, key codec,
    session, wait resolver, session registry and ready poller, pattern
    watch, event emitter) and the properties established about it.

    Conventions of the embedding:
    - a JavaScript string is a [string] of 8-bit characters (the Latin-1
      range of UTF-16 code units);
    - an object mutated in place becomes a record threaded through the
      functions that mutate it;
    - a thrown exception becomes the [Throw] case of [JS.result]; the state
      reached before the throw is returned next to it;
    - wall-clock readings ([new Date()]) are passed in as arguments. *)

From Stdlib Require Import String Ascii List ZArith Lia Bool Arith PeanoNat.
From Stdlib Require Import DecimalString.
Import ListNotations.
Open Scope string_scope.
Open Scope list_scope.
Open Scope nat_scope.

(* ================================================================== *)
(** ** JavaScript primitives used by the sources *)
(* ================================================================== *)

Module JS.

Definition LF : ascii := "010"%char.
Definition ESC : ascii := "027"%char.
Definition BEL : ascii := "007"%char.

(** ["\n"] as a one-character string. *)
Definition NL : string := String LF EmptyString.

(** [s.split('\n')]: always at least one part. *)
Fixpoint split_nl (s : string) : list string :=
  match s with
  | EmptyString => [EmptyString]
  | String c r =>
      if Ascii.eqb c LF then EmptyString :: split_nl r
      else match split_nl r with
           | p :: ps => String c p :: ps
           | [] => [String c EmptyString]
           end
  end.

(** [arr.join(sep)]. *)
Definition join (sep : string) (l : list string) : string := String.concat sep l.

(** Truthiness of a string: the empty string is falsy. *)
Definition truthy (s : string) : bool :=
  match s with EmptyString => false | _ => true end.

(** [arr.slice(start, end)] with JavaScript's treatment of negative and
    out-of-range indices; [end = None] is an omitted argument. *)
Definition clamp_index (len : nat) (i : Z) : nat :=
  if (i <? 0)%Z then Z.to_nat (Z.max (Z.of_nat len + i) 0)
  else Nat.min (Z.to_nat i) len.

Definition slice {A : Type} (start : Z) (end_ : option Z) (l : list A) : list A :=
  let len := List.length l in
  let from := clamp_index len start in
  let to := match end_ with Some e => clamp_index len e | None => len end in
  firstn (to - from) (skipn from l).

(** [s.slice(-n)] for [n > 0]: the last [n] characters. *)
Definition str_last (n : nat) (s : string) : string :=
  let len := String.length s in
  substring (len - n) n s.

(** [hay.includes(needle)]. *)
Definition includes (hay needle : string) : bool :=
  match index 0 needle hay with
  | Some _ => true
  | None => match needle with EmptyString => true | _ => false end
  end.

(** A regular expression object, as far as the sources use one: its
    [global] and [sticky] flags, its property [lastIndex] as it is when the
    object is handed over, and its matcher.  [exec_at s i] is the leftmost
    match of the pattern in [s] that starts at an index [>= i], as (index,
    matched text); there is none when [i] is beyond the end of [s]. *)
Record RegExp : Type := mkRegExp {
  global : bool;
  sticky : bool;
  lastIndex : nat;
  exec_at : string -> nat -> option (nat * string)
}.

(** The regular expression of a pattern without metacharacters: it matches
    the first occurrence of the text. *)
Definition literal (g : bool) (pat : string) : RegExp :=
  {| global := g; sticky := false; lastIndex := 0;
     exec_at := fun s i =>
       match index i pat s with
       | Some k => Some (k, pat)
       | None => None
       end |}.

(** A matcher whose matches lie in the text at or after the cursor and are
    not empty. *)
Definition advancing (re : RegExp) : Prop :=
  forall s i k t,
    exec_at re s i = Some (k, t) ->
    i <= k /\ 0 < String.length t /\ k + String.length t <= String.length s.

(** The global expression of the empty pattern, [/(?:)/g]: it matches the
    empty text at the cursor, as long as the cursor is inside the text. *)
Definition emptyPattern : RegExp :=
  {| global := true; sticky := false; lastIndex := 0;
     exec_at := fun s i => if i <=? String.length s then Some (i, "") else None |}.

(** [regex.exec(s)] on a regular expression that is neither global nor
    sticky: it searches from the start whatever [lastIndex] holds. *)
Definition exec (re : RegExp) (s : string) : option (nat * string) :=
  exec_at re s 0.

(** [regex.exec(s)] in general, [cursor] being the value of [lastIndex]
    before the call: the result and the value of [lastIndex] after it.  An
    expression that is neither global nor sticky searches from the start
    and leaves [lastIndex] alone.  Otherwise the search starts at the
    cursor; a sticky expression matches there or fails (the leftmost match
    at or after the cursor starts at the cursor exactly when there is a
    match at the cursor); a match moves [lastIndex] to its end and a failure
    sets it to 0. *)
Definition builtinExec (re : RegExp) (s : string) (cursor : nat)
    : option (nat * string) * nat :=
  if global re || sticky re then
    match exec_at re s cursor with
    | Some (k, t) =>
        if sticky re && negb (k =? cursor) then (None, 0)
        else (Some (k, t), k + String.length t)
    | None => (None, 0)
    end
  else (exec_at re s 0, cursor).

(** [\s] on Latin-1 characters. *)
Definition is_space (c : ascii) : bool :=
  let n := nat_of_ascii c in
  ((9 <=? n) && (n <=? 13)) || (n =? 32) || (n =? 160).

(** [s.split(/\s+/)]; [skipping] holds inside a run of white space. *)
Fixpoint split_ws_from (skipping : bool) (s : string) : list string :=
  match s with
  | EmptyString => [EmptyString]
  | String c r =>
      if is_space c then
        if skipping then split_ws_from true r
        else EmptyString :: split_ws_from true r
      else match split_ws_from false r with
           | p :: ps => String c p :: ps
           | [] => [String c EmptyString]
           end
  end.

Definition split_ws (s : string) : list string := split_ws_from false s.

Fixpoint trimStart (s : string) : string :=
  match s with
  | EmptyString => EmptyString
  | String c r => if is_space c then trimStart r else s
  end.

Fixpoint trimEnd (s : string) : string :=
  match s with
  | EmptyString => EmptyString
  | String c r =>
      match trimEnd r with
      | EmptyString => if is_space c then EmptyString else String c EmptyString
      | r' => String c r'
      end
  end.

(** [s.trim()]. *)
Definition trim (s : string) : string := trimEnd (trimStart s).

(** [toLowerCase] on one Latin-1 character. *)
Definition lower (c : ascii) : ascii :=
  let n := nat_of_ascii c in
  if ((65 <=? n) && (n <=? 90))
     || ((192 <=? n) && (n <=? 222) && negb (n =? 215))
  then ascii_of_nat (n + 32) else c.

(** [s.toLowerCase()]. *)
Fixpoint toLowerCase (s : string) : string :=
  match s with
  | EmptyString => EmptyString
  | String c r => String (lower c) (toLowerCase r)
  end.

(** [arr.includes(x)] on strings. *)
Definition member (x : string) (l : list string) : bool :=
  existsb (String.eqb x) l.

(** Outcome of a call that may throw. *)
Inductive result (E A : Type) : Type :=
| Return (a : A)
| Throw (e : E).
Arguments Return {E A} a.
Arguments Throw {E A} e.

(** [String(n)] for a natural number. *)
Definition string_of_nat (n : nat) : string :=
  NilEmpty.string_of_uint (Nat.to_uint n).

End JS.

(* ================================================================== *)
(** ** history.ts: class History *)
(* ================================================================== *)

Module History.

Record t : Type := mk {
  lines : list string;
  currentLine : string;
  limit : nat;
  trackLastOutputAt : bool;
  lastOutputAt : option Z
}.

(** [new History(limit, trackLastOutputAt)]. *)
Definition new (limit : nat) (track : bool) : t :=
  {| lines := []; currentLine := ""; limit := limit;
     trackLastOutputAt := track; lastOutputAt := None |}.

(** The default capacity, 10000 lines. *)
Definition default_limit : nat := 100 * 100.

(** One turn of the loop of [append]: push, then shift when over the limit. *)
Definition push_line (limit : nat) (ls : list string) (line : string) : list string :=
  let ls' := (ls ++ [line])%list in
  if limit <? List.length ls' then tl ls' else ls'.

(** [append(data)], [now] being the reading of the clock. *)
Definition append (now : Z) (data : string) (h : t) : t :=
  let stamp := if trackLastOutputAt h then Some now else lastOutputAt h in
  let parts := JS.split_nl (currentLine h ++ data)%string in
  let cur := last parts "" in
  let complete := removelast parts in
  {| lines := fold_left (push_line (limit h)) complete (lines h);
     currentLine := cur;
     limit := limit h;
     trackLastOutputAt := trackLastOutputAt h;
     lastOutputAt := stamp |}.

(** [lines] followed by the partial line when it is not empty. *)
Definition all (h : t) : list string :=
  if JS.truthy (currentLine h) then (lines h ++ [currentLine h])%list else lines h.

Definition getAll (h : t) : string := JS.join JS.NL (all h).

Definition tail (n : Z) (h : t) : string :=
  JS.join JS.NL (JS.slice (- n) None (all h)).

Definition head (n : Z) (h : t) : string :=
  JS.join JS.NL (JS.slice 0 (Some n) (lines h)).

Definition slice (start : Z) (end_ : option Z) (h : t) : string :=
  JS.join JS.NL (JS.slice start end_ (lines h)).

Definition lineCount (h : t) : nat :=
  List.length (lines h) + (if JS.truthy (currentLine h) then 1 else 0).

Definition clear (h : t) : t :=
  {| lines := []; currentLine := ""; limit := limit h;
     trackLastOutputAt := trackLastOutputAt h; lastOutputAt := lastOutputAt h |}.

Record SearchMatch : Type := mkMatch {
  line : nat;
  column : nat;
  text : string;
  before : string;
  after : string
}.

(** The [while] loop of [search] on line [i], [cursor] being the
    expression's [lastIndex] when the loop is entered: the matches pushed
    and [lastIndex] when the loop is left.  A global expression that matches
    the empty text never leaves the loop; [fuel] bounds the number of turns
    and [None] means it ran out. *)
Fixpoint scan_line (fuel : nat) (re : JS.RegExp) (ls : list string)
    (i : nat) (ln : string) (cursor : nat) : option (list SearchMatch * nat) :=
  match fuel with
  | O => None
  | S fuel' =>
      match JS.builtinExec re ln cursor with
      | (None, cursor') => Some ([], cursor')
      | (Some (idx, txt), cursor') =>
          let m := {| line := i; column := idx; text := txt;
                      before := if 0 <? i then nth (i - 1) ls "" else "";
                      after := if i <? List.length ls - 1 then nth (i + 1) ls "" else "" |} in
          if JS.global re
          then option_map (fun r => (m :: fst r, snd r))
                 (scan_line fuel' re ls i ln cursor')
          else Some ([m], cursor')
      end
  end.

(** The [for] loop of [search] from line [i] on: [lastIndex] is reset
    before each line for a global expression only. *)
Fixpoint search_from (fuel : nat) (re : JS.RegExp) (ls : list string)
    (i : nat) (rest : list string) (cursor : nat) : option (list SearchMatch) :=
  match rest with
  | [] => Some []
  | ln :: rest' =>
      match scan_line fuel re ls i ln (if JS.global re then 0 else cursor) with
      | None => None
      | Some (ms, cursor') =>
          match search_from fuel re ls (S i) rest' cursor' with
          | None => None
          | Some ms' => Some (ms ++ ms')%list
          end
      end
  end.

(** [search(pattern)] for a [RegExp] argument; the value [lastIndex] is
    left with is not returned. *)
Definition search (fuel : nat) (re : JS.RegExp) (h : t) : option (list SearchMatch) :=
  search_from fuel re (lines h) 0 (lines h) (JS.lastIndex re).

(** [search(pattern)] for a string argument: [new RegExp(pattern, 'g')]
    where the pattern has no metacharacter. *)
Definition search_string (fuel : nat) (pat : string) (h : t) : option (list SearchMatch) :=
  search fuel (JS.literal true pat) h.

(** A run of [append] calls, oldest first. *)
Definition append_all (ds : list (Z * string)) (h : t) : t :=
  fold_left (fun h d => append (fst d) (snd d) h) ds h.

(** The text appended by a run of [append] calls. *)
Definition written (ds : list (Z * string)) : string :=
  fold_right String.append "" (map snd ds).

(** The complete lines of a text and the partial line that follows them. *)
Definition completeLines (s : string) : list string := removelast (JS.split_nl s).
Definition partialLine (s : string) : string := last (JS.split_nl s) "".

(** The last [n] elements of a list. *)
Definition lastn {A : Type} (n : nat) (l : list A) : list A :=
  skipn (List.length l - n) l.

(** Whether the expression matches line [i], searching from its start. *)
Definition matchesLine (re : JS.RegExp) (ls : list string) (i : nat) : bool :=
  match JS.exec_at re (nth i ls "") 0 with Some _ => true | None => false end.

End History.

(* ================================================================== *)
(** ** keys.ts: key symbols and their encoding *)
(* ================================================================== *)

(** The [Key] object: one symbol per named key. *)
Module Key.

Inductive t : Type :=
| Enter | Tab | Escape | Backspace | Delete | Space
| Up | Down | Left | Right
| Home | End_ | PageUp | PageDown | Insert
| F1 | F2 | F3 | F4 | F5 | F6 | F7 | F8 | F9 | F10 | F11 | F12
| Ctrl | Alt | Shift | Meta.

Definition eqb (a b : t) : bool :=
  match a, b with
  | Enter, Enter | Tab, Tab | Escape, Escape | Backspace, Backspace
  | Delete, Delete | Space, Space | Up, Up | Down, Down | Left, Left
  | Right, Right | Home, Home | End_, End_ | PageUp, PageUp
  | PageDown, PageDown | Insert, Insert
  | F1, F1 | F2, F2 | F3, F3 | F4, F4 | F5, F5 | F6, F6 | F7, F7 | F8, F8
  | F9, F9 | F10, F10 | F11, F11 | F12, F12
  | Ctrl, Ctrl | Alt, Alt | Shift, Shift | Meta, Meta => true
  | _, _ => false
  end.

(** [symbol.description]. *)
Definition description (k : t) : string :=
  match k with
  | Enter => "Enter" | Tab => "Tab" | Escape => "Escape"
  | Backspace => "Backspace" | Delete => "Delete" | Space => "Space"
  | Up => "Up" | Down => "Down" | Left => "Left" | Right => "Right"
  | Home => "Home" | End_ => "End" | PageUp => "PageUp"
  | PageDown => "PageDown" | Insert => "Insert"
  | F1 => "F1" | F2 => "F2" | F3 => "F3" | F4 => "F4" | F5 => "F5"
  | F6 => "F6" | F7 => "F7" | F8 => "F8" | F9 => "F9" | F10 => "F10"
  | F11 => "F11" | F12 => "F12"
  | Ctrl => "Ctrl" | Alt => "Alt" | Shift => "Shift" | Meta => "Meta"
  end.

End Key.

Module Keys.

Definition SpecialKey : Type := Key.t.

(** [SpecialKey | string], the type of the [key] field. *)
Inductive KeyName : Type :=
| Sym (k : SpecialKey)
| Str (s : string).

(** [interface ModifiedKey]; an omitted modifier reads as [false]. *)
Record ModifiedKey : Type := mkModified {
  key : KeyName;
  ctrl : bool;
  alt : bool;
  shift : bool;
  meta : bool
}.

(** [type KeyInput = string | SpecialKey | ModifiedKey]. *)
Inductive KeyInput : Type :=
| Text (s : string)
| Special (k : SpecialKey)
| Modified (m : ModifiedKey).

(** The helpers [ctrl(key)], [alt(key)], [shift(key)] and [meta(key)]. *)
Definition ctrlKey (k : KeyName) : ModifiedKey :=
  {| key := k; ctrl := true; alt := false; shift := false; meta := false |}.
Definition altKey (k : KeyName) : ModifiedKey :=
  {| key := k; ctrl := false; alt := true; shift := false; meta := false |}.
Definition shiftKey (k : KeyName) : ModifiedKey :=
  {| key := k; ctrl := false; alt := false; shift := true; meta := false |}.
Definition metaKey (k : KeyName) : ModifiedKey :=
  {| key := k; ctrl := false; alt := false; shift := false; meta := true |}.

(** A string that starts with ESC. *)
Definition esc (rest : string) : string := String JS.ESC rest.

Definition KEY_MAP (k : SpecialKey) : option string :=
  match k with
  | Key.Enter => Some (String "013"%char "")
  | Key.Tab => Some (String "009"%char "")
  | Key.Escape => Some (esc "")
  | Key.Backspace => Some (String "127"%char "")
  | Key.Delete => Some (esc "[3~")
  | Key.Space => Some " "
  | Key.Up => Some (esc "[A")
  | Key.Down => Some (esc "[B")
  | Key.Right => Some (esc "[C")
  | Key.Left => Some (esc "[D")
  | Key.Home => Some (esc "[H")
  | Key.End_ => Some (esc "[F")
  | Key.PageUp => Some (esc "[5~")
  | Key.PageDown => Some (esc "[6~")
  | Key.Insert => Some (esc "[2~")
  | Key.F1 => Some (esc "OP")
  | Key.F2 => Some (esc "OQ")
  | Key.F3 => Some (esc "OR")
  | Key.F4 => Some (esc "OS")
  | Key.F5 => Some (esc "[15~")
  | Key.F6 => Some (esc "[17~")
  | Key.F7 => Some (esc "[18~")
  | Key.F8 => Some (esc "[19~")
  | Key.F9 => Some (esc "[20~")
  | Key.F10 => Some (esc "[21~")
  | Key.F11 => Some (esc "[23~")
  | Key.F12 => Some (esc "[24~")
  | Key.Ctrl | Key.Alt | Key.Shift | Key.Meta => None
  end.

Definition ARROW_BASE (k : SpecialKey) : option string :=
  match k with
  | Key.Up => Some "A"
  | Key.Down => Some "B"
  | Key.Right => Some "C"
  | Key.Left => Some "D"
  | Key.Home => Some "H"
  | Key.End_ => Some "F"
  | _ => None
  end.

(** [1 + (shift ? 1 : 0) + (alt ? 2 : 0) + (ctrl ? 4 : 0) + (meta ? 8 : 0)]. *)
Definition modifier (m : ModifiedKey) : nat :=
  1 + (if shift m then 1 else 0) + (if alt m then 2 else 0)
    + (if ctrl m then 4 else 0) + (if meta m then 8 else 0).

Definition anyModifier (m : ModifiedKey) : bool :=
  ctrl m || alt m || shift m || meta m.

Inductive KeyError : Type :=
| UnknownKey (k : SpecialKey)
| CannotEncode (m : ModifiedKey).

(** The branch "Single character with Ctrl" of [encodeKey]: [Some] when it
    returns. *)
Definition ctrlLetter (m : ModifiedKey) : option string :=
  match key m with
  | Str (String c EmptyString) =>
      if ctrl m && negb (alt m) && negb (meta m) then
        let code := nat_of_ascii (JS.lower c) in
        if (97 <=? code) && (code <=? 122)
        then Some (String (ascii_of_nat (code - 96)) "")
        else None
      else None
  | _ => None
  end.

(** The branch "Special key with modifiers" of [encodeKey]: [Some] when it
    returns. *)
Definition specialWithModifiers (k : SpecialKey) (m : ModifiedKey) : option string :=
  if Key.eqb k Key.Tab && anyModifier m then
    Some (if shift m && negb (ctrl m) && negb (alt m) && negb (meta m)
          then esc "[Z"
          else esc ("[1;" ++ JS.string_of_nat (modifier m) ++ "Z")%string)
  else
    let arrow :=
      match ARROW_BASE k with
      | Some arrowCode =>
          if anyModifier m
          then Some (esc ("[1;" ++ JS.string_of_nat (modifier m) ++ arrowCode)%string)
          else None
      | None => None
      end in
    match arrow with
    | Some r => Some r
    | None =>
        match KEY_MAP k with
        | Some encoded =>
            if alt m && negb (ctrl m) && negb (meta m)
            then Some (esc encoded)
            else Some encoded
        | None => None
        end
    end.

(** [encodeKey(input)].  The last [throw] of the source is reached only by a
    value outside [KeyInput]. *)
Definition encodeKey (input : KeyInput) : JS.result KeyError string :=
  match input with
  | Text s => JS.Return s
  | Special k =>
      match KEY_MAP k with
      | Some encoded => JS.Return encoded
      | None => JS.Throw (UnknownKey k)
      end
  | Modified m =>
      match ctrlLetter m with
      | Some r => JS.Return r
      | None =>
          match key m with
          | Sym k =>
              match specialWithModifiers k m with
              | Some r => JS.Return r
              | None => JS.Throw (CannotEncode m)
              end
          | Str s =>
              if alt m && negb (ctrl m) && negb (meta m)
              then JS.Return (esc s)
              else JS.Return s
          end
      end
  end.

(** [encodeKeys(inputs)]: [inputs.map(encodeKey).join('')]; the first key
    that does not encode throws. *)
Fixpoint encodeKeys (inputs : list KeyInput) : JS.result KeyError string :=
  match inputs with
  | [] => JS.Return ""
  | k :: rest =>
      match encodeKey k with
      | JS.Throw e => JS.Throw e
      | JS.Return a =>
          match encodeKeys rest with
          | JS.Throw e => JS.Throw e
          | JS.Return b => JS.Return (a ++ b)%string
          end
      end
  end.

(** The letters a to z. *)
Definition lowercaseLetters : list ascii :=
  list_ascii_of_string "abcdefghijklmnopqrstuvwxyz".

(** The named keys whose encoding carries the modifiers as a parameter:
    the arrows, Home, End and Tab. *)
Definition takesModifiers (k : SpecialKey) : bool :=
  match ARROW_BASE k with
  | Some _ => true
  | None => Key.eqb k Key.Tab
  end.

(** The characters that [toLowerCase] sends to a to z. *)
Definition isLetter (c : ascii) : bool :=
  let code := nat_of_ascii (JS.lower c) in
  (97 <=? code) && (code <=? 122).

End Keys.

(* ================================================================== *)
(** ** session.ts: class SessionImpl *)
(* ================================================================== *)

Module Session.

(** The variables of [process.env] that the sources read. *)
Record Env : Type := mkEnv {
  SHELL : option string;
  UMUX_LOG_DIR : option string;
  UMUX_LOG_INPUT : option string;
  UMUX_LOG_TERMINAL_QUERIES : option string;
  UMUX_TERMINAL_ENGINE : option string
}.

(** The terminal engines a factory can build. *)
Inductive EngineKind : Type := Ghostty | GhosttyWasm | Xterm.

(** A terminal engine as the session sees it: the grid it was built or
    resized with, as the session passed it (an engine may hold another:
    xterm takes no fewer than 2 columns and 1 row), the chunks written to
    it, and whether [write] runs its callback before it returns. *)
Record TerminalEngine : Type := mkEngine {
  kind : EngineKind;
  ecols : nat;
  erows : nat;
  fed : list string;
  syncFlush : bool;
  disposed : bool
}.

(** [type TerminalEngineFactory]. *)
Record TerminalEngineFactory : Type := mkFactory {
  builds : EngineKind;
  flushesInWrite : bool
}.

Definition createXtermTerminalEngine : TerminalEngineFactory :=
  {| builds := Xterm; flushesInWrite := true |}.
Definition createGhosttyTerminalEngine : TerminalEngineFactory :=
  {| builds := Ghostty; flushesInWrite := true |}.
Definition createGhosttyWasmTerminalEngine : TerminalEngineFactory :=
  {| builds := GhosttyWasm; flushesInWrite := true |}.

Definition build (f : TerminalEngineFactory) (cols rows : nat) : TerminalEngine :=
  {| kind := builds f; ecols := cols; erows := rows; fed := [];
     syncFlush := flushesInWrite f; disposed := false |}.

(** [interface SpawnOptions]. *)
Record SpawnOptions : Type := mkSpawnOptions {
  o_cwd : option string;
  o_env : list (string * string);
  o_name : option string;
  o_cols : option nat;
  o_rows : option nat;
  o_terminalEngine : option TerminalEngineFactory
}.

Definition noOptions : SpawnOptions :=
  {| o_cwd := None; o_env := []; o_name := None; o_cols := None;
     o_rows := None; o_terminalEngine := None |}.

(** The PTY process: the arguments of [pty.spawn], the grid as the session
    last passed it (node-pty reads 0 as its own default), what was written
    to its input and the signals sent to it. *)
Record Pty : Type := mkPty {
  file : string;
  args : list string;
  termName : string;
  pcwd : string;
  penv : list (string * string);
  pcols : nat;
  prows : nat;
  written : list string;
  signals : list string
}.

Inductive EventKind : Type := output | exit | screen.

(** The payload of an event, without its time stamp. *)
Inductive Event : Type :=
| OutputEvent (data : string)
| ExitEvent (exitCode : Z)
| ScreenEvent.

Definition kindOf (e : Event) : EventKind :=
  match e with
  | OutputEvent _ => output
  | ExitEvent _ => exit
  | ScreenEvent => screen
  end.

(** A subscribed closure, by identity. *)
Definition Handler : Type := nat.

(** One call of a handler by [emitEvent], with what the handler can read
    from the session's getters at that moment. *)
Record Delivery : Type := mkDelivery {
  to : Handler;
  event : Event;
  seenAlive : bool;
  seenExitCode : option Z
}.

(** One record of the JSONL log. *)
Inductive LogRecord : Type :=
| LogSpawn (ts : Z) (sessionId name cwd : string)
| LogOutput (ts : Z) (data : string)
| LogInputText (ts : Z) (data : string)
| LogInputKey (ts : Z) (key : string)
| LogInputKeys (ts : Z) (keys : list string)
| LogQueryResponse (ts : Z) (note data : string)
| LogExit (ts : Z) (exitCode : Z).

Record SessionImpl : Type := mkSession {
  id : string;
  name : string;
  pid : nat;
  cwd : string;
  createdAt : Z;
  isAlive : bool;
  exitCode : option Z;
  ptyProcess : Pty;
  terminalEngine : TerminalEngine;
  history : History.t;
  inputHistory : History.t;
  logInput : bool;
  jsonlLogStream : option (list LogRecord);
  outputHandlers : list Handler;
  exitHandlers : list Handler;
  screenHandlers : list Handler;
  cols : nat;
  rows : nat;
  queryScanTail : string;
  delivered : list Delivery;
  emitted : list Event
}.

(** Functional updates of the fields that change. *)
Definition set_life (a : bool) (c : option Z) (s : SessionImpl) : SessionImpl :=
  mkSession (id s) (name s) (pid s) (cwd s) (createdAt s) a c (ptyProcess s)
    (terminalEngine s) (history s) (inputHistory s) (logInput s)
    (jsonlLogStream s) (outputHandlers s) (exitHandlers s) (screenHandlers s)
    (cols s) (rows s) (queryScanTail s) (delivered s) (emitted s).

Definition set_pty (p : Pty) (s : SessionImpl) : SessionImpl :=
  mkSession (id s) (name s) (pid s) (cwd s) (createdAt s) (isAlive s)
    (exitCode s) p (terminalEngine s) (history s) (inputHistory s)
    (logInput s) (jsonlLogStream s) (outputHandlers s) (exitHandlers s)
    (screenHandlers s) (cols s) (rows s) (queryScanTail s) (delivered s) (emitted s).

Definition set_engine (e : TerminalEngine) (s : SessionImpl) : SessionImpl :=
  mkSession (id s) (name s) (pid s) (cwd s) (createdAt s) (isAlive s)
    (exitCode s) (ptyProcess s) e (history s) (inputHistory s) (logInput s)
    (jsonlLogStream s) (outputHandlers s) (exitHandlers s) (screenHandlers s)
    (cols s) (rows s) (queryScanTail s) (delivered s) (emitted s).

Definition set_history (h : History.t) (s : SessionImpl) : SessionImpl :=
  mkSession (id s) (name s) (pid s) (cwd s) (createdAt s) (isAlive s)
    (exitCode s) (ptyProcess s) (terminalEngine s) h (inputHistory s)
    (logInput s) (jsonlLogStream s) (outputHandlers s) (exitHandlers s)
    (screenHandlers s) (cols s) (rows s) (queryScanTail s) (delivered s) (emitted s).

Definition set_inputHistory (h : History.t) (s : SessionImpl) : SessionImpl :=
  mkSession (id s) (name s) (pid s) (cwd s) (createdAt s) (isAlive s)
    (exitCode s) (ptyProcess s) (terminalEngine s) (history s) h
    (logInput s) (jsonlLogStream s) (outputHandlers s) (exitHandlers s)
    (screenHandlers s) (cols s) (rows s) (queryScanTail s) (delivered s) (emitted s).

Definition set_log (l : option (list LogRecord)) (s : SessionImpl) : SessionImpl :=
  mkSession (id s) (name s) (pid s) (cwd s) (createdAt s) (isAlive s)
    (exitCode s) (ptyProcess s) (terminalEngine s) (history s)
    (inputHistory s) (logInput s) l (outputHandlers s) (exitHandlers s)
    (screenHandlers s) (cols s) (rows s) (queryScanTail s) (delivered s) (emitted s).

Definition set_handlers (o e c : list Handler) (s : SessionImpl) : SessionImpl :=
  mkSession (id s) (name s) (pid s) (cwd s) (createdAt s) (isAlive s)
    (exitCode s) (ptyProcess s) (terminalEngine s) (history s)
    (inputHistory s) (logInput s) (jsonlLogStream s) o e c
    (cols s) (rows s) (queryScanTail s) (delivered s) (emitted s).

Definition set_grid (c r : nat) (s : SessionImpl) : SessionImpl :=
  mkSession (id s) (name s) (pid s) (cwd s) (createdAt s) (isAlive s)
    (exitCode s) (ptyProcess s) (terminalEngine s) (history s)
    (inputHistory s) (logInput s) (jsonlLogStream s) (outputHandlers s)
    (exitHandlers s) (screenHandlers s) c r (queryScanTail s) (delivered s) (emitted s).

Definition set_queryScanTail (t : string) (s : SessionImpl) : SessionImpl :=
  mkSession (id s) (name s) (pid s) (cwd s) (createdAt s) (isAlive s)
    (exitCode s) (ptyProcess s) (terminalEngine s) (history s)
    (inputHistory s) (logInput s) (jsonlLogStream s) (outputHandlers s)
    (exitHandlers s) (screenHandlers s) (cols s) (rows s) t (delivered s) (emitted s).

Definition set_emission (d : list Delivery) (e : list Event) (s : SessionImpl)
    : SessionImpl :=
  mkSession (id s) (name s) (pid s) (cwd s) (createdAt s) (isAlive s)
    (exitCode s) (ptyProcess s) (terminalEngine s) (history s)
    (inputHistory s) (logInput s) (jsonlLogStream s) (outputHandlers s)
    (exitHandlers s) (screenHandlers s) (cols s) (rows s) (queryScanTail s) d e.

Inductive SessionError : Type :=
| NotAlive (sessionId : string)
| KeyError (e : Keys.KeyError)
| PtyResize (cols rows : nat)
| EngineResize (cols rows : nat).

(** How a call of [resize] went: [ptyProcess.resize] threw; it returned and
    [terminalEngine.resize] threw; or both returned. *)
Inductive ResizeOutcome : Type := PtyThrew | EngineThrew | Resized.

Section WithEnv.

Variable env : Env.

(** [shouldLogInput()]: on unless the variable opts out. *)
Definition shouldLogInput : bool :=
  match UMUX_LOG_INPUT env with
  | None => true
  | Some raw =>
      negb (JS.member (JS.toLowerCase (JS.trim raw)) ["0"; "false"; "no"; "off"])
  end.

Definition formatKeyInputForLog (key : Keys.KeyInput) : string :=
  match key with
  | Keys.Text s => s
  | Keys.Special k => ("<" ++ Key.description k ++ ">")%string
  | Keys.Modified m =>
      let base :=
        match Keys.key m with
        | Keys.Sym k => Key.description k
        | Keys.Str c => c
        end in
      let mods :=
        (if Keys.ctrl m then ["Ctrl"] else []) ++
        (if Keys.alt m then ["Alt"] else []) ++
        (if Keys.shift m then ["Shift"] else []) ++
        (if Keys.meta m then ["Meta"] else []) in
      let prefix :=
        match mods with
        | [] => ""
        | _ => (JS.join "+" mods ++ "+")%string
        end in
      ("<" ++ prefix ++ base ++ ">")%string
  end.

Definition writeJsonlLog (r : LogRecord) (s : SessionImpl) : SessionImpl :=
  match jsonlLogStream s with
  | None => s
  | Some l => set_log (Some (l ++ [r])) s
  end.

Definition closeJsonlLogStream (s : SessionImpl) : SessionImpl :=
  match jsonlLogStream s with
  | None => s
  | Some _ => set_log None s
  end.

(** [new SessionImpl(command, options, historyLimit, logDir,
    terminalEngineFactory)].  [newId] is the identifier drawn, [processCwd]
    the directory of the process, [now] the clock and [childPid] the
    process that [pty.spawn] started. *)
Definition new (newId processCwd : string) (now : Z) (childPid : nat)
    (command : string) (options : SpawnOptions) (historyLimit : nat)
    (logDir : string) (terminalEngineFactory : option TerminalEngineFactory)
    : SessionImpl :=
  let name := match o_name options with Some n => n | None => newId end in
  let cwd := match o_cwd options with Some d => d | None => processCwd end in
  let normalizedLogDir := JS.trim logDir in
  let stream :=
    if JS.truthy normalizedLogDir
    then Some [LogSpawn now newId name cwd]
    else None in
  let program :=
    if JS.truthy command then command
    else match SHELL env with
         | Some sh => if JS.truthy sh then sh else "/bin/sh"
         | None => "/bin/sh"
         end in
  let parts := JS.split_ws program in
  let shell := hd "" parts in
  let args := tl parts in
  let cols := match o_cols options with Some c => c | None => 80 end in
  let rows := match o_rows options with Some r => r | None => 43 end in
  let factory :=
    match o_terminalEngine options with
    | Some f => f
    | None =>
        match terminalEngineFactory with
        | Some f => f
        | None => createXtermTerminalEngine
        end
    end in
  {| id := newId; name := name; pid := childPid; cwd := cwd; createdAt := now;
     isAlive := true; exitCode := None;
     ptyProcess :=
       {| file := shell; args := args; termName := "xterm-256color";
          pcwd := cwd; penv := o_env options; pcols := cols; prows := rows;
          written := []; signals := [] |};
     terminalEngine := build factory cols rows;
     history := History.new historyLimit true;
     inputHistory := History.new historyLimit false;
     logInput := shouldLogInput;
     jsonlLogStream := stream;
     outputHandlers := []; exitHandlers := []; screenHandlers := [];
     cols := cols; rows := rows; queryScanTail := ""; delivered := [];
     emitted := [] |}.

Definition handlersOf (k : EventKind) (s : SessionImpl) : list Handler :=
  match k with
  | output => outputHandlers s
  | exit => exitHandlers s
  | screen => screenHandlers s
  end.

(** [Set.add]: insertion order, no duplicate. *)
Definition set_add (h : Handler) (l : list Handler) : list Handler :=
  if existsb (Nat.eqb h) l then l else l ++ [h].

Definition set_delete (h : Handler) (l : list Handler) : list Handler :=
  filter (fun x => negb (Nat.eqb h x)) l.

Definition on (k : EventKind) (h : Handler) (s : SessionImpl) : SessionImpl :=
  match k with
  | output => set_handlers (set_add h (outputHandlers s)) (exitHandlers s) (screenHandlers s) s
  | exit => set_handlers (outputHandlers s) (set_add h (exitHandlers s)) (screenHandlers s) s
  | screen => set_handlers (outputHandlers s) (exitHandlers s) (set_add h (screenHandlers s)) s
  end.

Definition off (k : EventKind) (h : Handler) (s : SessionImpl) : SessionImpl :=
  match k with
  | output => set_handlers (set_delete h (outputHandlers s)) (exitHandlers s) (screenHandlers s) s
  | exit => set_handlers (outputHandlers s) (set_delete h (exitHandlers s)) (screenHandlers s) s
  | screen => set_handlers (outputHandlers s) (exitHandlers s) (set_delete h (screenHandlers s)) s
  end.

(** [emitEvent(event, data)]: every subscribed handler is called in turn;
    [emitted] keeps the events emitted, subscribers or not.
    No method a handler can call changes [_isAlive] or [_exitCode], so all
    of them read the values held when the event is emitted.  Handlers are
    taken not to subscribe or unsubscribe while the event is being
    emitted. *)
Definition emitEvent (e : Event) (s : SessionImpl) : SessionImpl :=
  set_emission
    (delivered s ++
     map (fun h => {| to := h; event := e; seenAlive := isAlive s;
                      seenExitCode := exitCode s |})
         (handlersOf (kindOf e) s))
    (emitted s ++ [e])
    s.

Definition writeRaw (data : string) (s : SessionImpl) : SessionImpl :=
  let p := ptyProcess s in
  set_pty (mkPty (file p) (args p) (termName p) (pcwd p) (penv p) (pcols p)
             (prows p) (written p ++ [data]) (signals p)) s.

Definition logTerminalQueries : bool :=
  JS.member
    (JS.toLowerCase
       (JS.trim (match UMUX_LOG_TERMINAL_QUERIES env with Some v => v | None => "" end)))
    ["1"; "true"; "yes"; "on"].

(** The closure [reply] of [respondToTerminalQueries]. *)
Definition reply (now : Z) (payload note : string) (s : SessionImpl) : SessionImpl :=
  let s1 := if logTerminalQueries
            then writeJsonlLog (LogQueryResponse now note payload) s
            else s in
  writeRaw payload s1.

(** One [if (scan.includes(..) || ..) reply(..)] of
    [respondToTerminalQueries]. *)
Definition answer (now : Z) (scan : string) (requests : list string)
    (payload note : string) (s : SessionImpl) : SessionImpl :=
  if existsb (JS.includes scan) requests then reply now payload note s else s.

Definition CSI (rest : string) : string := String JS.ESC (String "["%char rest).
Definition OSC (rest : string) : string := String JS.ESC (String "]"%char rest).
Definition ST : string := String JS.ESC "\".
Definition BEL : string := String JS.BEL "".

Definition respondToTerminalQueries (now : Z) (data : string) (s : SessionImpl)
    : SessionImpl :=
  let scan := (queryScanTail s ++ data)%string in
  let s := set_queryScanTail (JS.str_last 64 scan) s in
  let s := answer now scan [CSI "6n"] (CSI "1;1R") "CPR" s in
  let s := answer now scan [CSI "5n"] (CSI "0n") "DSR" s in
  let s := answer now scan [CSI "c"; CSI "0c"] (CSI "?1;2c") "DA1" s in
  let s := answer now scan [CSI ">c"; CSI ">0c"] (CSI ">0;0;0c") "DA2" s in
  let s := answer now scan [String JS.ESC "Z"] (CSI "?1;2c") "DECID" s in
  let s := answer now scan [CSI "?u"] (CSI "?0u") "KITTY_KBD_QUERY" s in
  let s := answer now scan [CSI "18t"]
             (CSI ("8;" ++ JS.string_of_nat (Nat.max 1 (rows s)) ++ ";"
                   ++ JS.string_of_nat (Nat.max 1 (cols s)) ++ "t")%string)
             "XTERM_SIZE_CHARS" s in
  let s := answer now scan [CSI "14t"] (CSI "4;0;0t") "XTERM_SIZE_PX" s in
  let s := answer now scan [OSC ("10;?" ++ ST)%string; OSC ("10;?" ++ BEL)%string]
             (OSC ("10;rgb:ffff/ffff/ffff" ++ ST)%string) "OSC_FG_QUERY" s in
  let s := answer now scan [OSC ("11;?" ++ ST)%string; OSC ("11;?" ++ BEL)%string]
             (OSC ("11;rgb:0000/0000/0000" ++ ST)%string) "OSC_BG_QUERY" s in
  let s := answer now scan [OSC ("12;?" ++ ST)%string; OSC ("12;?" ++ BEL)%string]
             (OSC ("12;rgb:ffff/ffff/ffff" ++ ST)%string) "OSC_CURSOR_QUERY" s in
  s.

(** [terminalEngine.write(data, callback)]: the callback emits [screen],
    at once when the engine flushes inside [write]. *)
Definition engineWrite (data : string) (s : SessionImpl) : SessionImpl :=
  let e := terminalEngine s in
  let s := set_engine (mkEngine (kind e) (ecols e) (erows e) (fed e ++ [data])
                         (syncFlush e) (disposed e)) s in
  if syncFlush e then emitEvent ScreenEvent s else s.

(** The callback given to [ptyProcess.onData]. *)
Definition onData (now : Z) (data : string) (s : SessionImpl) : SessionImpl :=
  let s := respondToTerminalQueries now data s in
  let s := writeJsonlLog (LogOutput now data) s in
  let s := set_history (History.append now data (history s)) s in
  let s := engineWrite data s in
  emitEvent (OutputEvent data) s.

(** The callback of a [write] that the engine finished later. *)
Definition onEngineFlushed (s : SessionImpl) : SessionImpl :=
  emitEvent ScreenEvent s.

(** The callback given to [ptyProcess.onExit]. *)
Definition onExit (now : Z) (code : Z) (s : SessionImpl) : SessionImpl :=
  let s := set_life false (Some code) s in
  let s := writeJsonlLog (LogExit now code) s in
  let s := closeJsonlLogStream s in
  emitEvent (ExitEvent code) s.

Definition send (now : Z) (data : string) (s : SessionImpl)
    : SessionImpl * JS.result SessionError unit :=
  if negb (isAlive s) then (s, JS.Throw (NotAlive (id s)))
  else
    let s :=
      if logInput s then
        let s := set_inputHistory (History.append now data (inputHistory s)) s in
        writeJsonlLog (LogInputText now data) s
      else s in
    (writeRaw data s, JS.Return tt).

Definition sendKey (now : Z) (key : Keys.KeyInput) (s : SessionImpl)
    : SessionImpl * JS.result SessionError unit :=
  if negb (isAlive s) then (s, JS.Throw (NotAlive (id s)))
  else
    let s :=
      if logInput s then
        let s := set_inputHistory
                   (History.append now (formatKeyInputForLog key) (inputHistory s)) s in
        writeJsonlLog (LogInputKey now (formatKeyInputForLog key)) s
      else s in
    match Keys.encodeKey key with
    | JS.Throw e => (s, JS.Throw (KeyError e))
    | JS.Return bytes => (writeRaw bytes s, JS.Return tt)
    end.

Definition sendKeys (now : Z) (keys : list Keys.KeyInput) (s : SessionImpl)
    : SessionImpl * JS.result SessionError unit :=
  if negb (isAlive s) then (s, JS.Throw (NotAlive (id s)))
  else
    let s :=
      if logInput s then
        let s := fold_left
                   (fun s key =>
                      set_inputHistory
                        (History.append now (formatKeyInputForLog key) (inputHistory s)) s)
                   keys s in
        writeJsonlLog (LogInputKeys now (map formatKeyInputForLog keys)) s
      else s in
    match Keys.encodeKeys keys with
    | JS.Throw e => (s, JS.Throw (KeyError e))
    | JS.Return bytes => (writeRaw bytes s, JS.Return tt)
    end.

Definition kill (signal : string) (s : SessionImpl) : SessionImpl :=
  if isAlive s then
    let p := ptyProcess s in
    set_pty (mkPty (file p) (args p) (termName p) (pcwd p) (penv p) (pcols p)
               (prows p) (written p) (signals p ++ [signal])) s
  else s.

(** [resize(cols, rows)]: the PTY is resized, then the engine, then the
    fields are set.  Either call may throw, which leaves the rest undone
    (node-pty refuses sizes that are not positive and a child that has
    exited); [outcome] tells how the calls went. *)
Definition resize (c r : nat) (outcome : ResizeOutcome) (s : SessionImpl)
    : SessionImpl * JS.result SessionError unit :=
  match outcome with
  | PtyThrew => (s, JS.Throw (PtyResize c r))
  | EngineThrew =>
      let p := ptyProcess s in
      let s := set_pty (mkPty (file p) (args p) (termName p) (pcwd p) (penv p) c r
                          (written p) (signals p)) s in
      let e := terminalEngine s in
      let s := set_engine (mkEngine (kind e) c r (fed e) (syncFlush e) (disposed e)) s in
      (s, JS.Throw (EngineResize c r))
  | Resized =>
      let p := ptyProcess s in
      let s := set_pty (mkPty (file p) (args p) (termName p) (pcwd p) (penv p) c r
                          (written p) (signals p)) s in
      let e := terminalEngine s in
      let s := set_engine (mkEngine (kind e) c r (fed e) (syncFlush e) (disposed e)) s in
      (set_grid c r s, JS.Return tt)
  end.

Definition dispose (s : SessionImpl) : SessionImpl :=
  let s := if isAlive s then kill "SIGTERM" s else s in
  let e := terminalEngine s in
  let s := set_engine (mkEngine (kind e) (ecols e) (erows e) (fed e) (syncFlush e) true) s in
  let s := closeJsonlLogStream s in
  set_handlers [] [] [] s.

(** What can happen to a session: the callbacks of the PTY and of the
    engine, and the calls of its methods. *)
Inductive Input : Type :=
| PtyData (now : Z) (data : string)
| PtyExit (now : Z) (code : Z)
| EngineFlushed
| Send (now : Z) (data : string)
| SendKey (now : Z) (key : Keys.KeyInput)
| SendKeys (now : Z) (keys : list Keys.KeyInput)
| Kill (signal : string)
| Resize (c r : nat) (outcome : ResizeOutcome)
| On (k : EventKind) (h : Handler)
| Off (k : EventKind) (h : Handler)
| Dispose.

Definition step (s : SessionImpl) (i : Input) : SessionImpl :=
  match i with
  | PtyData now data => onData now data s
  | PtyExit now code => onExit now code s
  | EngineFlushed => onEngineFlushed s
  | Send now data => fst (send now data s)
  | SendKey now key => fst (sendKey now key s)
  | SendKeys now keys => fst (sendKeys now keys s)
  | Kill signal => kill signal s
  | Resize c r outcome => fst (resize c r outcome s)
  | On k h => on k h s
  | Off k h => off k h s
  | Dispose => dispose s
  end.

Definition run (tr : list Input) (s : SessionImpl) : SessionImpl :=
  fold_left step tr s.

End WithEnv.

(** The chunks the child wrote, in order. *)
Definition childOutput (tr : list Input) : list (Z * string) :=
  flat_map (fun i => match i with PtyData now data => [(now, data)] | _ => [] end) tr.

(** The number of times the PTY reported the exit of the child. *)
Definition exitCallbacks (tr : list Input) : nat :=
  List.length (filter (fun i => match i with PtyExit _ _ => true | _ => false end) tr).

Definition isExitEvent (e : Event) : bool :=
  match e with ExitEvent _ => true | _ => false end.

Definition isExitDelivery (d : Delivery) : bool := isExitEvent (event d).

(** The [exit] events emitted so far. *)
Definition exitsEmitted (s : SessionImpl) : list Event :=
  filter isExitEvent (emitted s).

(** The [exit] events emitted, seen from handler [h]. *)
Definition exitsSeenBy (h : Handler) (s : SessionImpl) : list Delivery :=
  filter (fun d => isExitDelivery d && Nat.eqb (to d) h) (delivered s).

(** A session whose PTY, log stream and scan tail are replaced. *)
Definition withIO (p : Pty) (l : option (list LogRecord)) (t : string)
    (s : SessionImpl) : SessionImpl :=
  mkSession (id s) (name s) (pid s) (cwd s) (createdAt s) (isAlive s)
    (exitCode s) p (terminalEngine s) (history s) (inputHistory s)
    (logInput s) l (outputHandlers s) (exitHandlers s) (screenHandlers s)
    (cols s) (rows s) t (delivered s) (emitted s).

(** The tests of [respondToTerminalQueries] in their order: the requests
    looked for and the payload replied. *)
Definition queryTable (rows cols : nat) : list (list string * string) :=
  [ ([CSI "6n"], CSI "1;1R");
    ([CSI "5n"], CSI "0n");
    ([CSI "c"; CSI "0c"], CSI "?1;2c");
    ([CSI ">c"; CSI ">0c"], CSI ">0;0;0c");
    ([String JS.ESC "Z"], CSI "?1;2c");
    ([CSI "?u"], CSI "?0u");
    ([CSI "18t"],
     CSI ("8;" ++ JS.string_of_nat (Nat.max 1 rows) ++ ";"
          ++ JS.string_of_nat (Nat.max 1 cols) ++ "t")%string);
    ([CSI "14t"], CSI "4;0;0t");
    ([OSC ("10;?" ++ ST)%string; OSC ("10;?" ++ BEL)%string],
     OSC ("10;rgb:ffff/ffff/ffff" ++ ST)%string);
    ([OSC ("11;?" ++ ST)%string; OSC ("11;?" ++ BEL)%string],
     OSC ("11;rgb:0000/0000/0000" ++ ST)%string);
    ([OSC ("12;?" ++ ST)%string; OSC ("12;?" ++ BEL)%string],
     OSC ("12;rgb:ffff/ffff/ffff" ++ ST)%string) ].

(** The payloads that one call of [respondToTerminalQueries] writes for
    the text [scan], in order. *)
Definition replies (scan : string) (rows cols : nat) : list string :=
  flat_map (fun q => if existsb (JS.includes scan) (fst q) then [snd q] else [])
           (queryTable rows cols).

(** The table of recognized terminal queries of the specification, as
    (request, reply) pairs; a colour query ends with ST or with BEL. *)
Definition recognizedQueries (rows cols : nat) : list (string * string) :=
  [ (CSI "6n", CSI "1;1R");
    (CSI "5n", CSI "0n");
    (CSI "c", CSI "?1;2c");
    (CSI "0c", CSI "?1;2c");
    (CSI ">c", CSI ">0;0;0c");
    (CSI ">0c", CSI ">0;0;0c");
    (String JS.ESC "Z", CSI "?1;2c");
    (CSI "?u", CSI "?0u");
    (CSI "18t",
     CSI ("8;" ++ JS.string_of_nat (Nat.max 1 rows) ++ ";"
          ++ JS.string_of_nat (Nat.max 1 cols) ++ "t")%string);
    (CSI "14t", CSI "4;0;0t");
    (OSC ("10;?" ++ ST)%string, OSC ("10;rgb:ffff/ffff/ffff" ++ ST)%string);
    (OSC ("10;?" ++ BEL)%string, OSC ("10;rgb:ffff/ffff/ffff" ++ ST)%string);
    (OSC ("11;?" ++ ST)%string, OSC ("11;rgb:0000/0000/0000" ++ ST)%string);
    (OSC ("11;?" ++ BEL)%string, OSC ("11;rgb:0000/0000/0000" ++ ST)%string);
    (OSC ("12;?" ++ ST)%string, OSC ("12;rgb:ffff/ffff/ffff" ++ ST)%string);
    (OSC ("12;?" ++ BEL)%string, OSC ("12;rgb:ffff/ffff/ffff" ++ ST)%string) ].

(** A process environment with none of the variables set. *)
Definition noEnv : Env :=
  {| SHELL := None; UMUX_LOG_DIR := None; UMUX_LOG_INPUT := None;
     UMUX_LOG_TERMINAL_QUERIES := None; UMUX_TERMINAL_ENGINE := None |}.

(** What a handler of [exit] is entitled to see when it is called. *)
Definition exitSeenDead (d : Delivery) : Prop :=
  isExitDelivery d = true ->
  seenAlive d = false
  /\ exists code, event d = ExitEvent code /\ seenExitCode d = Some code.

(** A session spawned with no option, no log directory and a history of
    100 lines, used to evaluate the code on examples. *)
Definition sample : SessionImpl :=
  new noEnv "sess-00000000" "/" 0 1 "" noOptions 100 "" None.






(** Whether an input subscribes a handler. *)
Definition subscribes (i : Input) : bool :=
  match i with On _ _ => true | _ => false end.

(** The time of the last chunk of the child, if any. *)
Definition lastChunkTime (tr : list Input) : option Z :=
  match rev (childOutput tr) with
  | [] => None
  | d :: _ => Some (fst d)
  end.

(** [sendKey] for each key in turn, errors ignored. *)
Definition sendEach (now : Z) (keys : list Keys.KeyInput) (s : SessionImpl)
    : SessionImpl :=
  fold_left (fun s key => fst (sendKey now key s)) keys s.

(** A PTY with another record of what was written to its input. *)
Definition withWritten (w : list string) (p : Pty) : Pty :=
  mkPty (file p) (args p) (termName p) (pcwd p) (penv p) (pcols p) (prows p)
    w (signals p).

(** Two PTYs that differ at most in what was written to their input. *)
Definition sameButWritten (p p' : Pty) : Prop :=
  p' = withWritten (written p') p.

(** A history that keeps no time of its last write. *)
Definition untimed (h : History.t) : Prop :=
  History.trackLastOutputAt h = false /\ History.lastOutputAt h = None.

End Session.

(* ================================================================== *)
(** ** umux.ts: class Umux, configuration and spawn *)
(* ================================================================== *)

Module Umux.

(** [interface UmuxConfig]: every knob may be omitted. *)
Record UmuxConfig : Type := mkUmuxConfig {
  c_logDir : option string;
  c_historyLimit : option nat;
  c_defaultShell : option string;
  c_terminalEngine : option Session.TerminalEngineFactory
}.

(** [Required<UmuxConfig>], the field [config] of the class. *)
Record Config : Type := mkConfig {
  logDir : string;
  historyLimit : nat;
  defaultShell : string;
  terminalEngine : Session.TerminalEngineFactory
}.

(** The handlers [spawn] subscribes to forward a session's events. *)
Definition forwardOutput : Session.Handler := 0.
Definition forwardExit : Session.Handler := 1.

Record t : Type := mk {
  config : Config;
  sessions : list (string * Session.SessionImpl)
}.

Section WithEnv.

Variable env : Session.Env.

Definition orElse {A : Type} (o : option A) (d : A) : A :=
  match o with Some a => a | None => d end.

(** [new Umux(config)]. *)
Definition new (cfg : UmuxConfig) : t :=
  let envEngine := JS.trim (orElse (Session.UMUX_TERMINAL_ENGINE env) "") in
  let defaultEngine :=
    if String.eqb envEngine "xterm" then Session.createXtermTerminalEngine
    else if String.eqb envEngine "ghostty-strict" then Session.createGhosttyWasmTerminalEngine
    else Session.createGhosttyTerminalEngine in
  {| config :=
       {| logDir := orElse (c_logDir cfg) (orElse (Session.UMUX_LOG_DIR env) "");
          historyLimit := orElse (c_historyLimit cfg) History.default_limit;
          defaultShell := orElse (c_defaultShell cfg) (orElse (Session.SHELL env) "/bin/sh");
          terminalEngine := orElse (c_terminalEngine cfg) defaultEngine |};
     sessions := [] |}.

(** [Map.set]: a new key goes last, a known key keeps its place. *)
Fixpoint map_set (k : string) (v : Session.SessionImpl)
    (m : list (string * Session.SessionImpl)) : list (string * Session.SessionImpl) :=
  match m with
  | [] => [(k, v)]
  | (k', v') :: rest =>
      if String.eqb k k' then (k, v) :: rest else (k', v') :: map_set k v rest
  end.

(** [spawn(command, options)]; the event [session:create] of the registry
    is not modelled. *)
Definition spawn (newId processCwd : string) (now : Z) (childPid : nat)
    (command : string) (options : Session.SpawnOptions) (u : t)
    : t * Session.SessionImpl :=
  let terminalEngineFactory :=
    orElse (Session.o_terminalEngine options) (terminalEngine (config u)) in
  let session :=
    Session.new env newId processCwd now childPid command options
      (historyLimit (config u)) (logDir (config u)) (Some terminalEngineFactory) in
  let session := Session.on Session.output forwardOutput session in
  let session := Session.on Session.exit forwardExit session in
  ({| config := config u; sessions := map_set (Session.id session) session (sessions u) |},
   session).

End WithEnv.

(** [new Umux()]: no knob given. *)
Definition noConfig : UmuxConfig :=
  {| c_logDir := None; c_historyLimit := None; c_defaultShell := None;
     c_terminalEngine := None |}.

End Umux.

(* ================================================================== *)
(** ** umux.ts: Umux.waitFor *)
(* ================================================================== *)

Module Wait.

(** [interface WaitCondition].  A pattern given as a string stands for
    [new RegExp(pattern)]; the empty string is falsy and reads as [None].
    Expressions are neither global nor sticky, so [exec] searches from the
    start.  A number
    that is omitted or zero is falsy: [positive] tells. *)
Record WaitCondition : Type := mkCondition {
  pattern : option JS.RegExp;
  screenPattern : option JS.RegExp;
  idle : option nat;
  exit : bool;
  ready : bool;
  timeout : option nat;
  not : option JS.RegExp
}.

Definition positive (o : option nat) : option nat :=
  match o with
  | Some (S n) => Some (S n)
  | _ => None
  end.

Inductive Reason : Type :=
| pattern_ | screen_ | idle_ | exit_ | ready_ | timeout_ | rejected_.

(** [interface WaitResult] without [waitedMs], which reads the clock. *)
Record WaitResult : Type := mkResult {
  reason : Reason;
  match_ : option (nat * string);
  exitCode : option Z;
  output : string
}.

(** What [waitFor] reads from the session when it asks. *)
Record View : Type := mkView {
  historyAll : string;
  captured : string;
  alive : bool;
  sessionExitCode : option Z;
  foreground : bool
}.

(** The variables of the promise executor, the membership of its three
    handlers in the session's handler sets, and the calls of [resolve]. *)
Record State : Type := mkState {
  outputBuffer : string;
  screenBuffer : string;
  scanTail : string;
  idleTimer : option nat;
  timeoutTimer : option nat;
  readyPollTimer : bool;
  resolved : bool;
  onOutputSubscribed : bool;
  onExitSubscribed : bool;
  onScreenSubscribed : bool;
  resolutions : list WaitResult
}.

Definition scanTailLimit : nat := 8 * 1024.

Definition initial : State :=
  {| outputBuffer := ""; screenBuffer := ""; scanTail := "";
     idleTimer := None; timeoutTimer := None; readyPollTimer := false;
     resolved := false;
     onOutputSubscribed := false; onExitSubscribed := false;
     onScreenSubscribed := false; resolutions := [] |}.

Definition cleanup (w : State) : State :=
  mkState (outputBuffer w) (screenBuffer w) (scanTail w) None None false
    (resolved w) false false false (resolutions w).

Definition finish (r : WaitResult) (w : State) : State :=
  if resolved w then w
  else
    let w := mkState (outputBuffer w) (screenBuffer w) (scanTail w) (idleTimer w)
               (timeoutTimer w) (readyPollTimer w) true (onOutputSubscribed w)
               (onExitSubscribed w) (onScreenSubscribed w) (resolutions w) in
    let w := cleanup w in
    mkState (outputBuffer w) (screenBuffer w) (scanTail w) (idleTimer w)
      (timeoutTimer w) (readyPollTimer w) (resolved w) (onOutputSubscribed w)
      (onExitSubscribed w) (onScreenSubscribed w) (resolutions w ++ [r]).

Definition set_buffers (out scr tail : string) (w : State) : State :=
  mkState out scr tail (idleTimer w) (timeoutTimer w) (readyPollTimer w)
    (resolved w) (onOutputSubscribed w) (onExitSubscribed w)
    (onScreenSubscribed w) (resolutions w).

Definition set_timers (i t : option nat) (p : bool) (w : State) : State :=
  mkState (outputBuffer w) (screenBuffer w) (scanTail w) i t p
    (resolved w) (onOutputSubscribed w) (onExitSubscribed w)
    (onScreenSubscribed w) (resolutions w).

Definition subscribe (w : State) : State :=
  mkState (outputBuffer w) (screenBuffer w) (scanTail w) (idleTimer w)
    (timeoutTimer w) (readyPollTimer w) (resolved w) true true true
    (resolutions w).

Section WithCondition.

Variable condition : WaitCondition.

Definition resetIdleTimer (w : State) : State :=
  set_timers (positive (idle condition)) (timeoutTimer w) (readyPollTimer w) w.

Definition onOutput (data : string) (w : State) : State :=
  let w := set_buffers (outputBuffer w ++ data)%string (screenBuffer w) (scanTail w) w in
  let scan := JS.str_last scanTailLimit (scanTail w ++ data)%string in
  let w := set_buffers (outputBuffer w) (screenBuffer w) scan w in
  let rejected :=
    match not condition with
    | Some notRegex => JS.exec notRegex scan
    | None => None
    end in
  match rejected with
  | Some notMatch =>
      finish {| reason := rejected_; match_ := Some notMatch; exitCode := None;
                output := outputBuffer w |} w
  | None =>
      let matched :=
        match pattern condition with
        | Some regex => JS.exec regex scan
        | None => None
        end in
      match matched with
      | Some m =>
          finish {| reason := pattern_; match_ := Some m; exitCode := None;
                    output := outputBuffer w |} w
      | None => resetIdleTimer w
      end
  end.

Definition onExit (code : Z) (w : State) : State :=
  if exit condition then
    finish {| reason := exit_; match_ := None; exitCode := Some code;
              output := outputBuffer w |} w
  else if ready condition then
    finish {| reason := ready_; match_ := None; exitCode := None;
              output := outputBuffer w |} w
  else w.

Definition onScreen (content : string) (w : State) : State :=
  match screenPattern condition with
  | None => w
  | Some regex =>
      let w := set_buffers (outputBuffer w) content (scanTail w) w in
      match JS.exec regex content with
      | Some m =>
          finish {| reason := screen_; match_ := Some m; exitCode := None;
                    output := content |} w
      | None => w
      end
  end.

(** The end of the executor: "Check if already exited". *)
Definition checkExited (v : View) (w : State) : State :=
  if negb (alive v) && exit condition then
    finish {| reason := exit_; match_ := None;
              exitCode := Some (match sessionExitCode v with Some c => c | None => 0%Z end);
              output := historyAll v |} w
  else w.

(** "Set up ready polling", then the rest. *)
Definition checkReady (v : View) (w : State) : State :=
  if ready condition then
    if negb (foreground v) then
      finish {| reason := ready_; match_ := None; exitCode := None;
                output := outputBuffer w |} w
    else checkExited v (set_timers (idleTimer w) (timeoutTimer w) true w)
  else checkExited v w.

(** "Check existing screen for screen match", then the rest. *)
Definition checkScreen (v : View) (w : State) : State :=
  match screenPattern condition with
  | Some regex =>
      let w := set_buffers (outputBuffer w) (captured v) (scanTail w) w in
      match JS.exec regex (captured v) with
      | Some m =>
          finish {| reason := screen_; match_ := Some m; exitCode := None;
                    output := captured v |} w
      | None => checkReady v w
      end
  | None => checkReady v w
  end.

(** "Check "not" pattern in existing history", then the rest. *)
Definition checkNot (v : View) (w : State) : State :=
  match not condition with
  | Some notRegex =>
      let existingOutput := historyAll v in
      let w := set_buffers existingOutput (screenBuffer w) (scanTail w) w in
      match JS.exec notRegex existingOutput with
      | Some notMatch =>
          finish {| reason := rejected_; match_ := Some notMatch; exitCode := None;
                    output := existingOutput |} w
      | None => checkScreen v w
      end
  | None => checkScreen v w
  end.

(** "Check existing history for pattern match", then the rest. *)
Definition checkPattern (v : View) (w : State) : State :=
  match pattern condition with
  | Some regex =>
      let existingOutput := historyAll v in
      let w := set_buffers existingOutput (screenBuffer w) (scanTail w) w in
      match JS.exec regex existingOutput with
      | Some m =>
          finish {| reason := pattern_; match_ := Some m; exitCode := None;
                    output := existingOutput |} w
      | None => checkNot v w
      end
  | None => checkNot v w
  end.

(** The promise executor of [waitFor], run against the session as [v]
    shows it. *)
Definition waitFor (v : View) : State :=
  let w := initial in
  let w := set_timers (idleTimer w) (positive (timeout condition)) (readyPollTimer w) w in
  let w := subscribe w in
  let w := resetIdleTimer w in
  checkPattern v w.

(** What the scheduler can run next for this wait: an event of the
    session, or one of the timers.  [Screen] carries what [capture] returns
    when the handler asks, [ReadyPoll] what [isAlive] and the foreground
    probe return at the tick. *)
Inductive Event : Type :=
| Output (data : string)
| Exit (code : Z)
| Screen (content : string)
| IdleElapsed
| TimeoutElapsed
| ReadyPoll (isAlive hasForeground : bool).

(** A handler runs when it is subscribed, a timer callback when the timer
    is armed; a one-shot timer is disarmed by firing. *)
Definition step (w : State) (e : Event) : State :=
  match e with
  | Output data => if onOutputSubscribed w then onOutput data w else w
  | Exit code => if onExitSubscribed w then onExit code w else w
  | Screen content => if onScreenSubscribed w then onScreen content w else w
  | IdleElapsed =>
      match idleTimer w with
      | Some _ =>
          let w := set_timers None (timeoutTimer w) (readyPollTimer w) w in
          finish {| reason := idle_; match_ := None; exitCode := None;
                    output := outputBuffer w |} w
      | None => w
      end
  | TimeoutElapsed =>
      match timeoutTimer w with
      | Some _ =>
          let w := set_timers (idleTimer w) None (readyPollTimer w) w in
          finish {| reason := timeout_; match_ := None; exitCode := None;
                    output := outputBuffer w |} w
      | None => w
      end
  | ReadyPoll isAlive hasForeground =>
      if readyPollTimer w then
        if negb isAlive then
          finish {| reason := ready_; match_ := None; exitCode := None;
                    output := outputBuffer w |} w
        else if negb hasForeground then
          finish {| reason := ready_; match_ := None; exitCode := None;
                    output := outputBuffer w |} w
        else w
      else w
  end.

Definition run (evs : list Event) (w : State) : State := fold_left step evs w.

End WithCondition.

(** The session as [waitFor] reads it: [screen] is what [capture] returns
    and [probe] what the foreground probe finds for a live session. *)
Definition view (s : Session.SessionImpl) (screen : string) (probe : bool) : View :=
  {| historyAll := History.getAll (Session.history s);
     captured := screen;
     alive := Session.isAlive s;
     sessionExitCode := Session.exitCode s;
     foreground := Session.isAlive s && probe |}.

(** No timer armed and no handler subscribed. *)
Definition detached (w : State) : Prop :=
  idleTimer w = None /\ timeoutTimer w = None /\ readyPollTimer w = false
  /\ onOutputSubscribed w = false /\ onExitSubscribed w = false
  /\ onScreenSubscribed w = false.

(** Not resolved yet, with the timeout timer as the condition asks. *)
Definition pending (c : WaitCondition) (w : State) : Prop :=
  resolved w = false /\ resolutions w = []
  /\ timeoutTimer w = positive (timeout c).

(** Resolved: [resolve] was called once and everything is detached. *)
Definition settled (w : State) : Prop :=
  resolved w = true /\ List.length (resolutions w) = 1 /\ detached w.

(** A condition that sets a timeout and nothing else. *)
Definition onlyTimeout (ms : nat) : WaitCondition :=
  {| pattern := None; screenPattern := None; idle := None; exit := false;
     ready := false; timeout := Some ms; not := None |}.

(** The condition of the rejection scenario: wait for "success", fail on
    "error". *)
Definition successNotError : WaitCondition :=
  {| pattern := Some (JS.literal false "success"); screenPattern := None;
     idle := None; exit := false; ready := false; timeout := Some 5000;
     not := Some (JS.literal false "error") |}.

(** The chunk an event carries, if any, and the chunks of a run of events
    side by side. *)
Definition chunkOf (e : Event) : string :=
  match e with Output data => data | _ => "" end.

Definition chunks (evs : list Event) : string :=
  fold_right (fun e rest => (chunkOf e ++ rest)%string) "" evs.

(** What the output buffer holds when the executor returns unresolved: the
    history read by the pre-checks of [pattern] and [not], if there is
    one. *)
Definition bufferAtStart (c : WaitCondition) (v : View) : string :=
  match pattern c, not c with
  | None, None => ""
  | _, _ => historyAll v
  end.

End Wait.

(* ================================================================== *)
(** ** A JavaScript [Map] with string keys *)
(* ================================================================== *)

Module JSMap.

Section Ops.

Context {V : Type}.

(** [Map.get]. *)
Fixpoint map_get (k : string) (m : list (string * V)) : option V :=
  match m with
  | [] => None
  | (k', v) :: rest => if String.eqb k k' then Some v else map_get k rest
  end.

(** [Map.set]: a new key goes last, a known key keeps its place. *)
Fixpoint map_set (k : string) (v : V) (m : list (string * V)) : list (string * V) :=
  match m with
  | [] => [(k, v)]
  | (k', v') :: rest =>
      if String.eqb k k' then (k, v) :: rest else (k', v') :: map_set k v rest
  end.

(** [Map.delete]. *)
Definition map_delete (k : string) (m : list (string * V)) : list (string * V) :=
  filter (fun e => negb (String.eqb k (fst e))) m.

(** [Map.values], in insertion order. *)
Definition values (m : list (string * V)) : list V := map snd m.

(** The number of entries under a key. *)
Definition entries (k : string) (m : list (string * V)) : nat :=
  List.length (filter (fun e => String.eqb k (fst e)) m).

End Ops.

End JSMap.

(* ================================================================== *)
(** ** umux.ts: the session registry and the ready poller of Umux *)
(* ================================================================== *)

Module Registry.

(** The events the object emits itself.  [output] and [exit] are forwarded
    from the sessions, where they are recorded as deliveries to
    [Umux.forwardOutput] and [Umux.forwardExit]. *)
Inductive UmuxEvent : Type :=
| session_create (sessionId : string)
| session_destroy (sessionId : string)
| ready (sessionId : string).

(** The object: configuration and sessions as in [Umux.t], with the map
    [readyState] and the interval timer of the poller.  [emitted] keeps the
    events emitted and [probes] every reading of [session.foregroundProcess]
    by the poller, as session id and [Boolean] of the value read. *)
Record t : Type := mk {
  umux : Umux.t;
  readyState : list (string * bool);
  readyPollTimer : bool;
  emitted : list UmuxEvent;
  probes : list (string * bool)
}.

Inductive UmuxError : Type :=
| SessionNotFound (sessionId : string)
| InSession (e : Session.SessionError).

Definition set_sessions (ss : list (string * Session.SessionImpl)) (u : t) : t :=
  mk (Umux.mk (Umux.config (umux u)) ss) (readyState u) (readyPollTimer u)
     (emitted u) (probes u).

Definition set_readyState (rs : list (string * bool)) (u : t) : t :=
  mk (umux u) rs (readyPollTimer u) (emitted u) (probes u).

Definition emit (e : UmuxEvent) (u : t) : t :=
  mk (umux u) (readyState u) (readyPollTimer u) (emitted u ++ [e]) (probes u).

Definition probed (sessionId : string) (busy : bool) (u : t) : t :=
  mk (umux u) (readyState u) (readyPollTimer u) (emitted u)
     (probes u ++ [(sessionId, busy)]).

(** [startReadyPolling()]. *)
Definition startReadyPolling (u : t) : t :=
  if readyPollTimer u then u
  else mk (umux u) (readyState u) true (emitted u) (probes u).

(** [getSession(id)]. *)
Definition getSession (sessionId : string) (u : t) : option Session.SessionImpl :=
  JSMap.map_get sessionId (Umux.sessions (umux u)).

(** [listSessions()]. *)
Definition listSessions (u : t) : list Session.SessionImpl :=
  JSMap.values (Umux.sessions (umux u)).

(** A method of a session of the map has run: the map holds the object as
    the method left it. *)
Definition store (sessionId : string) (session : Session.SessionImpl) (u : t) : t :=
  set_sessions (JSMap.map_set sessionId session (Umux.sessions (umux u))) u.

Definition lift {A : Type} (r : JS.result Session.SessionError A)
    : JS.result UmuxError A :=
  match r with
  | JS.Return a => JS.Return a
  | JS.Throw e => JS.Throw (InSession e)
  end.

(** [destroySession(id)]; the disposed session object, which callers may
    still hold, is returned next to the registry. *)
Definition destroySession (sessionId : string) (u : t)
    : t * option Session.SessionImpl :=
  match JSMap.map_get sessionId (Umux.sessions (umux u)) with
  | Some session =>
      let session := Session.dispose session in
      let u := set_sessions (JSMap.map_delete sessionId (Umux.sessions (umux u))) u in
      let u := set_readyState (JSMap.map_delete sessionId (readyState u)) u in
      (emit (session_destroy sessionId) u, Some session)
  | None => (u, None)
  end.

(** [send(sessionId, data)]. *)
Definition send (now : Z) (sessionId data : string) (u : t)
    : t * JS.result UmuxError unit :=
  match getSession sessionId u with
  | None => (u, JS.Throw (SessionNotFound sessionId))
  | Some session =>
      let (session, r) := Session.send now data session in
      (store sessionId session u, lift r)
  end.

(** [sendKey(sessionId, key)]. *)
Definition sendKey (now : Z) (sessionId : string) (key : Keys.KeyInput) (u : t)
    : t * JS.result UmuxError unit :=
  match getSession sessionId u with
  | None => (u, JS.Throw (SessionNotFound sessionId))
  | Some session =>
      let (session, r) := Session.sendKey now key session in
      (store sessionId session u, lift r)
  end.

(** [sendKeys(sessionId, keys)]. *)
Definition sendKeys (now : Z) (sessionId : string) (keys : list Keys.KeyInput)
    (u : t) : t * JS.result UmuxError unit :=
  match getSession sessionId u with
  | None => (u, JS.Throw (SessionNotFound sessionId))
  | Some session =>
      let (session, r) := Session.sendKeys now keys session in
      (store sessionId session u, lift r)
  end.

(** [kill(sessionId, signal)]; an omitted signal is [SIGTERM] in the
    session. *)
Definition kill (sessionId : string) (signal : option string) (u : t)
    : t * JS.result UmuxError unit :=
  match getSession sessionId u with
  | None => (u, JS.Throw (SessionNotFound sessionId))
  | Some session =>
      let signal := match signal with Some sg => sg | None => "SIGTERM" end in
      (store sessionId (Session.kill signal session) u, JS.Return tt)
  end.

(** The body of the loop of the interval callback for one session;
    [probe] is [Boolean(session.foregroundProcess)]. *)
Definition pollSession (probe : Session.SessionImpl -> bool) (u : t)
    (session : Session.SessionImpl) : t :=
  if negb (Session.isAlive session) then
    set_readyState (JSMap.map_delete (Session.id session) (readyState u)) u
  else
    let isBusy := probe session in
    let u := probed (Session.id session) isBusy u in
    match JSMap.map_get (Session.id session) (readyState u) with
    | None =>
        set_readyState (JSMap.map_set (Session.id session) isBusy (readyState u)) u
    | Some wasBusy =>
        let u := if wasBusy && negb isBusy then emit (ready (Session.id session)) u
                 else u in
        set_readyState (JSMap.map_set (Session.id session) isBusy (readyState u)) u
    end.

(** The interval callback; it runs only while the timer is set. *)
Definition poll (probe : Session.SessionImpl -> bool) (u : t) : t :=
  if readyPollTimer u then fold_left (pollSession probe) (listSessions u) u
  else u.

(** [destroy()]; the disposed session objects are returned next to the
    registry, and the listeners of the object are not modelled. *)
Definition destroy (u : t) : t * list Session.SessionImpl :=
  let disposed := map Session.dispose (listSessions u) in
  let u := set_sessions [] u in
  let u := set_readyState [] u in
  (mk (umux u) (readyState u) false (emitted u) (probes u), disposed).

Section WithEnv.

Variable env : Session.Env.

(** [new Umux(config)]. *)
Definition new (cfg : Umux.UmuxConfig) : t :=
  startReadyPolling
    {| umux := Umux.new env cfg; readyState := []; readyPollTimer := false;
       emitted := []; probes := [] |}.

(** [spawn(command, options)]. *)
Definition spawn (newId processCwd : string) (now : Z) (childPid : nat)
    (command : string) (options : Session.SpawnOptions) (u : t)
    : t * Session.SessionImpl :=
  let (um, session) :=
    Umux.spawn env newId processCwd now childPid command options (umux u) in
  (emit (session_create (Session.id session))
     (mk um (readyState u) (readyPollTimer u) (emitted u) (probes u)),
   session).

(** What happens to the object: calls of its methods, the interval timer
    firing, and whatever happens to one of its sessions. *)
Inductive Op : Type :=
| Spawn (newId processCwd : string) (now : Z) (childPid : nat)
    (command : string) (options : Session.SpawnOptions)
| OnSession (sessionId : string) (i : Session.Input)
| DestroySession (sessionId : string)
| Poll (probe : Session.SessionImpl -> bool)
| Destroy.

Definition step (u : t) (o : Op) : t :=
  match o with
  | Spawn newId processCwd now childPid command options =>
      fst (spawn newId processCwd now childPid command options u)
  | OnSession sessionId i =>
      match getSession sessionId u with
      | Some session => store sessionId (Session.step env session i) u
      | None => u
      end
  | DestroySession sessionId => fst (destroySession sessionId u)
  | Poll probe => poll probe u
  | Destroy => fst (destroy u)
  end.

Definition run (ops : list Op) (u : t) : t := fold_left step ops u.

End WithEnv.

(** How often [ready] was emitted for a session. *)
Definition isReady (sessionId : string) (e : UmuxEvent) : bool :=
  match e with
  | ready k => String.eqb sessionId k
  | _ => false
  end.

Definition readyCount (sessionId : string) (u : t) : nat :=
  List.length (filter (isReady sessionId) (emitted u)).

(** How often the poller found a session busy. *)
Definition busyCount (sessionId : string) (u : t) : nat :=
  List.length (filter (fun p => String.eqb sessionId (fst p) && snd p) (probes u)).

(** What the poller remembers of a session: 1 when it was busy when last
    seen. *)
Definition rememberedBusy (sessionId : string) (u : t) : nat :=
  match JSMap.map_get sessionId (readyState u) with
  | Some true => 1
  | _ => 0
  end.

(** The invariant of the poller: a [ready] still to come is paid for by a
    busy reading. *)
Definition edge (sessionId : string) (u : t) : Prop :=
  readyCount sessionId u + rememberedBusy sessionId u <= busyCount sessionId u.

End Registry.

(* ================================================================== *)
(** ** umux.ts: Umux.watch *)
(* ================================================================== *)

Module Watch.

(** [interface PatternWatcher].  A pattern given as a string stands for
    [new RegExp(pattern)]; expressions are neither global nor sticky, so
    [exec] searches
    each chunk from its start. *)
Record PatternWatcher : Type := mkWatcher {
  name : string;
  pattern : JS.RegExp;
  once : bool
}.

(** [interface WatchOptions]. *)
Record WatchOptions : Type := mkOptions {
  o_patterns : option (list PatternWatcher);
  o_idleThreshold : option nat
}.

(** The events [watch] makes the object emit. *)
Inductive UmuxEvent : Type :=
| pattern_ (name : string) (m : nat * string)
| idle_ (idleMs : nat).

(** The variables of the closure, whether its handler is subscribed to the
    session's output, and the events emitted. *)
Record State : Type := mkState {
  patterns : list (string * PatternWatcher);
  idleTimer : option nat;
  stopped : bool;
  onOutputSubscribed : bool;
  emitted : list UmuxEvent
}.

Definition set_patterns (ps : list (string * PatternWatcher)) (st : State) : State :=
  mkState ps (idleTimer st) (stopped st) (onOutputSubscribed st) (emitted st).

Definition emit (e : UmuxEvent) (st : State) : State :=
  mkState (patterns st) (idleTimer st) (stopped st) (onOutputSubscribed st)
    (emitted st ++ [e]).

Section WithOptions.

Variable options : WatchOptions.

(** [resetIdleTimer()]: a cleared timer reads as [None]; a threshold that is
    omitted or zero is falsy. *)
Definition resetIdleTimer (st : State) : State :=
  let timer :=
    match Wait.positive (o_idleThreshold options) with
    | Some ms => if negb (stopped st) then Some ms else None
    | None => None
    end in
  mkState (patterns st) timer (stopped st) (onOutputSubscribed st) (emitted st).

(** The body of the loop of [onOutput] for one entry of the map. *)
Definition checkWatcher (data : string) (st : State)
    (entry : string * PatternWatcher) : State :=
  let (name, watcher) := entry in
  match JS.exec (pattern watcher) data with
  | Some m =>
      let st := emit (pattern_ name m) st in
      if once watcher then set_patterns (JSMap.map_delete name (patterns st)) st
      else st
  | None => st
  end.

(** [onOutput(e)]: the loop visits the entries the map held when it began,
    since an entry only deletes itself. *)
Definition onOutput (data : string) (st : State) : State :=
  let st := fold_left (checkWatcher data) (patterns st) st in
  resetIdleTimer st.

(** [watch(sessionId, options)] on a session that exists. *)
Definition watch : State :=
  let initial :=
    fold_left (fun m p => JSMap.map_set (name p) p m)
      (match o_patterns options with Some ps => ps | None => [] end) [] in
  resetIdleTimer (mkState initial None false true []).

(** The methods of the handle. *)
Definition stop (st : State) : State :=
  mkState (patterns st) None true false (emitted st).

Definition addPattern (watcher : PatternWatcher) (st : State) : State :=
  set_patterns (JSMap.map_set (name watcher) watcher (patterns st)) st.

Definition removePattern (name : string) (st : State) : State :=
  set_patterns (JSMap.map_delete name (patterns st)) st.

(** What happens to a watch: the session emits output, the idle timer
    fires, or a method of the handle is called. *)
Inductive Op : Type :=
| Output (data : string)
| IdleElapsed
| AddPattern (watcher : PatternWatcher)
| RemovePattern (name : string)
| Stop.

Definition step (st : State) (o : Op) : State :=
  match o with
  | Output data => if onOutputSubscribed st then onOutput data st else st
  | IdleElapsed =>
      match idleTimer st with
      | Some ms =>
          emit (idle_ ms)
            (mkState (patterns st) None (stopped st) (onOutputSubscribed st)
               (emitted st))
      | None => st
      end
  | AddPattern watcher => addPattern watcher st
  | RemovePattern name => removePattern name st
  | Stop => stop st
  end.

Definition run (ops : list Op) (st : State) : State := fold_left step ops st.

End WithOptions.

Definition isPattern (n : string) (e : UmuxEvent) : bool :=
  match e with
  | pattern_ k _ => String.eqb n k
  | idle_ _ => false
  end.

Definition isIdle (e : UmuxEvent) : bool :=
  match e with
  | idle_ _ => true
  | pattern_ _ _ => false
  end.

(** How often a pattern was reported, and how often idleness. *)
Definition patternCount (n : string) (st : State) : nat :=
  List.length (filter (isPattern n) (emitted st)).

Definition idleCount (st : State) : nat :=
  List.length (filter isIdle (emitted st)).

(** Every watcher of the name fires once only. *)
Definition onceOnly (n : string) (ws : list PatternWatcher) : bool :=
  forallb (fun w => implb (String.eqb n (name w)) (once w)) ws.

(** How often a watcher of the name was handed over. *)
Definition named (n : string) (ws : list PatternWatcher) : nat :=
  List.length (filter (fun w => String.eqb n (name w)) ws).

(** An entry of the map under the name fires once only. *)
Definition onceEntry (n : string) (e : string * PatternWatcher) : Prop :=
  String.eqb n (fst e) = true -> once (snd e) = true.

(** The invariant of a name whose watchers fire once only: with [budget]
    registrations so far, an entry still in the map has not reported. *)
Definition spent (n : string) (budget : nat) (st : State) : Prop :=
  patternCount n st + JSMap.entries n (patterns st) <= budget
  /\ JSMap.entries n (patterns st) <= 1
  /\ Forall (onceEntry n) (patterns st).

(** The invariant of the idle timer after [k] chunks. *)
Definition quiet (k : nat) (st : State) : Prop :=
  idleCount st + (match idleTimer st with Some _ => 1 | None => 0 end) <= 1 + k.

(** The watchers a trace adds, and the chunks it holds. *)
Definition added (ops : list Op) : list PatternWatcher :=
  flat_map (fun o => match o with AddPattern w => [w] | _ => [] end) ops.

Definition outputs (ops : list Op) : nat :=
  List.length (filter (fun o => match o with Output _ => true | _ => false end) ops).

Definition given (options : WatchOptions) : list PatternWatcher :=
  match o_patterns options with Some ps => ps | None => [] end.

End Watch.

(* ================================================================== *)
(** ** events.ts: EventEmitter *)
(* ================================================================== *)

Module EventEmitter.

(** A handler, by identity: [Plain h] is a function of the caller, taken not
    to call back into the emitter; [Wrapper n event h] is the closure the
    [n]-th call of [once] made around [h]. *)
Inductive Fn : Type :=
| Plain (h : nat)
| Wrapper (n : nat) (event : string) (h : nat).

Definition Fn_eqb (a b : Fn) : bool :=
  match a, b with
  | Plain h, Plain h' => Nat.eqb h h'
  | Wrapper n e h, Wrapper n' e' h' => Nat.eqb n n' && String.eqb e e' && Nat.eqb h h'
  | _, _ => false
  end.

(** [Set.add] and [Set.delete], in insertion order. *)
Definition set_add (f : Fn) (l : list Fn) : list Fn :=
  if existsb (Fn_eqb f) l then l else l ++ [f].

Definition set_delete (f : Fn) (l : list Fn) : list Fn :=
  filter (fun x => negb (Fn_eqb f x)) l.

Section WithData.

Variable Data : Type.

(** The emitter: the map [handlers], the number of closures [once] has
    made, and the calls of the caller's functions with their argument. *)
Record t : Type := mk {
  handlers : list (string * list Fn);
  wrappers : nat;
  calls : list (nat * Data)
}.

Definition set_handlers (hs : list (string * list Fn)) (e : t) : t :=
  mk hs (wrappers e) (calls e).

(** [on(event, handler)]. *)
Definition on (event : string) (handler : Fn) (e : t) : t :=
  let (set, e) :=
    match JSMap.map_get event (handlers e) with
    | Some set => (set, e)
    | None => ([], set_handlers (JSMap.map_set event [] (handlers e)) e)
    end in
  set_handlers (JSMap.map_set event (set_add handler set) (handlers e)) e.

(** [off(event, handler)]. *)
Definition off (event : string) (handler : Fn) (e : t) : t :=
  match JSMap.map_get event (handlers e) with
  | Some set =>
      set_handlers (JSMap.map_set event (set_delete handler set) (handlers e)) e
  | None => e
  end.

(** [once(event, handler)]. *)
Definition once (event : string) (handler : nat) (e : t) : t :=
  let wrapper := Wrapper (wrappers e) event handler in
  on event wrapper (mk (handlers e) (S (wrappers e)) (calls e)).

(** A handler is called: a wrapper unsubscribes itself and calls its
    function; what a function throws is caught by [emit]. *)
Definition call (handler : Fn) (data : Data) (e : t) : t :=
  match handler with
  | Plain h => mk (handlers e) (wrappers e) (calls e ++ [(h, data)])
  | Wrapper _ event h =>
      let e := off event handler e in
      mk (handlers e) (wrappers e) (calls e ++ [(h, data)])
  end.

(** The handlers subscribed to an event. *)
Definition listeners (event : string) (e : t) : list Fn :=
  match JSMap.map_get event (handlers e) with
  | Some set => set
  | None => []
  end.

(** [emit(event, data)]: the loop runs over the live set, so a handler
    deleted before its turn is not called. *)
Definition emit (event : string) (data : Data) (e : t) : t :=
  match JSMap.map_get event (handlers e) with
  | Some set =>
      fold_left
        (fun e handler =>
           if existsb (Fn_eqb handler) (listeners event e) then call handler data e
           else e)
        set e
  | None => e
  end.

(** [removeAllListeners(event)]; the empty name is falsy. *)
Definition removeAllListeners (event : option string) (e : t) : t :=
  match event with
  | Some (String c ev) =>
      set_handlers (JSMap.map_delete (String c ev) (handlers e)) e
  | _ => set_handlers [] e
  end.

(** Emitting one payload after another. *)
Definition emitAll (event : string) (ds : list Data) (e : t) : t :=
  fold_left (fun e d => emit event d e) ds e.

(** How often a function of the caller was called. *)
Definition callCount (h : nat) (e : t) : nat :=
  List.length (filter (fun c => Nat.eqb h (fst c)) (calls e)).

(** One turn of the loop of [emit]. *)
Definition visit (event : string) (data : Data) (e : t) (handler : Fn) : t :=
  if existsb (Fn_eqb handler) (listeners event e) then call handler data e
  else e.

End WithData.

Arguments mk {Data}.
Arguments handlers {Data}.
Arguments wrappers {Data}.
Arguments calls {Data}.
Arguments set_handlers {Data}.
Arguments on {Data}.
Arguments off {Data}.
Arguments once {Data}.
Arguments call {Data}.
Arguments listeners {Data}.
Arguments emit {Data}.
Arguments removeAllListeners {Data}.
Arguments emitAll {Data}.
Arguments callCount {Data}.
Arguments visit {Data}.

(** Whether a handler is, or wraps, a function of the caller. *)
Definition about (h : nat) (f : Fn) : bool :=
  match f with
  | Plain h' => Nat.eqb h h'
  | Wrapper _ _ h' => Nat.eqb h h'
  end.

(** Whether a handler wraps a function of the caller. *)
Definition wraps (h : nat) (f : Fn) : bool :=
  match f with
  | Plain _ => false
  | Wrapper _ _ h' => Nat.eqb h h'
  end.

End EventEmitter.

(* ================================================================== *)
(** ** Properties of the history buffer *)
(* ================================================================== *)

Section SplitFacts.

Lemma split_nl_nonempty (s : string) : JS.split_nl s <> [].
Proof.
  induction s as [|c r IH]; simpl; [discriminate|].
  destruct (Ascii.eqb c JS.LF); [discriminate|].
  destruct (JS.split_nl r); discriminate.
Qed.

(** Splitting a concatenation: the complete lines of the first part, then
    the split of its partial line followed by the second part. *)
Lemma split_nl_app (a b : string) :
  JS.split_nl (a ++ b)%string =
  removelast (JS.split_nl a) ++ JS.split_nl (last (JS.split_nl a) "" ++ b)%string.
Proof.
  induction a as [|c r IH]; [reflexivity|].
  cbn [String.append JS.split_nl].
  destruct (Ascii.eqb c JS.LF) eqn:Ec.
  - pose proof (split_nl_nonempty r) as Hne.
    destruct (JS.split_nl r) as [|p ps] eqn:Er; [contradiction|].
    rewrite IH. reflexivity.
  - pose proof (split_nl_nonempty r) as Hne.
    destruct (JS.split_nl r) as [|p ps] eqn:Er; [contradiction|].
    rewrite IH. destruct ps as [|q qs].
    + cbn [removelast last app String.append JS.split_nl]. rewrite Ec.
      reflexivity.
    + cbn [removelast last app]. reflexivity.
Qed.

End SplitFacts.

Section HistoryFacts.

Lemma string_app_assoc (a b c : string) :
  ((a ++ b) ++ c)%string = (a ++ (b ++ c))%string.
Proof. induction a as [|x a IH]; simpl; [reflexivity | now rewrite IH]. Qed.

Lemma string_app_nil_r (a : string) : (a ++ "")%string = a.
Proof. induction a as [|x a IH]; simpl; [reflexivity | now rewrite IH]. Qed.

Lemma last_app_nonempty {A : Type} (l l' : list A) (d : A) :
  l' <> [] -> last (l ++ l') d = last l' d.
Proof.
  intros Hne. induction l as [|x l IH]; [reflexivity|].
  simpl. destruct (l ++ l') eqn:E.
  - apply app_eq_nil in E. destruct E; contradiction.
  - exact IH.
Qed.

Lemma completeLines_app (a b : string) :
  History.completeLines (a ++ b)%string =
  History.completeLines a ++ History.completeLines (History.partialLine a ++ b)%string.
Proof.
  unfold History.completeLines, History.partialLine.
  rewrite split_nl_app. apply removelast_app, split_nl_nonempty.
Qed.

Lemma partialLine_app (a b : string) :
  History.partialLine (a ++ b)%string =
  History.partialLine (History.partialLine a ++ b)%string.
Proof.
  unfold History.partialLine.
  rewrite split_nl_app. apply last_app_nonempty, split_nl_nonempty.
Qed.

Lemma written_snoc (ds : list (Z * string)) (d : Z * string) :
  History.written (ds ++ [d]) = (History.written ds ++ snd d)%string.
Proof.
  unfold History.written. induction ds as [|x ds IH]; simpl.
  - apply string_app_nil_r.
  - rewrite IH. symmetry. apply string_app_assoc.
Qed.

(** A history that started empty holds the pushes of every complete line
    written so far, and the partial line of the whole text. *)
Lemma append_all_pushes (N : nat) (track : bool) (ds : list (Z * string)) :
  let h := History.append_all ds (History.new N track) in
  History.lines h =
    fold_left (History.push_line N) (History.completeLines (History.written ds)) []
  /\ History.currentLine h = History.partialLine (History.written ds)
  /\ History.limit h = N.
Proof.
  induction ds as [|d ds IH] using rev_ind.
  - cbn. auto.
  - cbn zeta in *. destruct IH as (Hl & Hc & Hn).
    unfold History.append_all in *. rewrite fold_left_app. cbn [fold_left].
    set (h := fold_left _ ds _) in *.
    unfold History.append; cbn [History.lines History.currentLine History.limit].
    rewrite Hl, Hc, Hn, written_snoc.
    rewrite completeLines_app, partialLine_app, fold_left_app.
    auto.
Qed.

Lemma lastn_length {A : Type} (n : nat) (l : list A) :
  List.length (History.lastn n l) = Nat.min n (List.length l).
Proof. unfold History.lastn. rewrite length_skipn. lia. Qed.

Lemma lastn_short {A : Type} (n : nat) (l : list A) :
  List.length l <= n -> History.lastn n l = l.
Proof.
  intros H. unfold History.lastn.
  replace (List.length l - n) with 0 by lia. reflexivity.
Qed.

Lemma skipn_succ_snoc {A : Type} (x : A) (l : list A) (k : nat) :
  k <= List.length l -> skipn (S k) (l ++ [x]) = tl (skipn k l ++ [x]).
Proof.
  revert k. induction l as [|y l IH]; intros k Hk.
  - cbn in Hk. replace k with 0 by lia. reflexivity.
  - destruct k as [|k]; [reflexivity|].
    cbn in Hk. change (skipn (S (S k)) ((y :: l) ++ [x])) with (skipn (S k) (l ++ [x])).
    rewrite IH by lia. reflexivity.
Qed.

Lemma lastn_snoc_full {A : Type} (n : nat) (l : list A) (x : A) :
  n <= List.length l ->
  History.lastn n (l ++ [x]) = tl (History.lastn n l ++ [x]).
Proof.
  intros H. unfold History.lastn. rewrite length_app. cbn [List.length].
  replace (List.length l + 1 - n) with (S (List.length l - n)) by lia.
  apply skipn_succ_snoc. lia.
Qed.

(** One push keeps the last [n] lines, as long as at most [n] are held. *)
Lemma push_line_lastn (n : nat) (seen : list string) (x : string) :
  History.push_line n (History.lastn n seen) x = History.lastn n (seen ++ [x]).
Proof.
  unfold History.push_line.
  rewrite length_app, lastn_length. cbn [List.length].
  destruct (Nat.ltb_spec n (Nat.min n (List.length seen) + 1)) as [Hlt|Hge].
  - symmetry. apply lastn_snoc_full. lia.
  - rewrite (lastn_short n seen) by lia.
    symmetry. apply lastn_short. rewrite length_app. cbn. lia.
Qed.

Lemma fold_push_lastn (n : nat) (new seen : list string) :
  fold_left (History.push_line n) new (History.lastn n seen) =
  History.lastn n (seen ++ new).
Proof.
  revert seen. induction new as [|x new IH]; intros seen.
  - now rewrite app_nil_r.
  - cbn [fold_left]. rewrite push_line_lastn, IH, <- app_assoc. reflexivity.
Qed.

(** Joining the parts of a split gives the text back. *)
Lemma join_split_nl (s : string) : JS.join JS.NL (JS.split_nl s) = s.
Proof.
  unfold JS.join. induction s as [|x r IH]; [reflexivity|].
  cbn [JS.split_nl]. pose proof (split_nl_nonempty r) as Hne.
  destruct (Ascii.eqb_spec x JS.LF) as [->|_].
  - destruct (JS.split_nl r) as [|p ps]; [contradiction|].
    change (String.concat JS.NL ("" :: p :: ps))
      with (String JS.LF (String.concat JS.NL (p :: ps))).
    now rewrite IH.
  - destruct (JS.split_nl r) as [|p ps]; [contradiction|].
    rewrite <- IH. destruct ps; reflexivity.
Qed.

(** The complete lines and the partial line of a text hold all of it. *)
Lemma lines_and_partial_roundtrip (s : string) :
  JS.join JS.NL (History.completeLines s ++ [History.partialLine s]) = s.
Proof.
  unfold History.completeLines, History.partialLine.
  rewrite <- app_removelast_last by apply split_nl_nonempty.
  apply join_split_nl.
Qed.

(** The state of a history that started empty, in closed form. *)
Lemma append_all_closed_form (N : nat) (track : bool) (ds : list (Z * string)) :
  let h := History.append_all ds (History.new N track) in
  History.lines h = History.lastn N (History.completeLines (History.written ds))
  /\ History.currentLine h = History.partialLine (History.written ds)
  /\ History.limit h = N.
Proof.
  destruct (append_all_pushes N track ds) as (Hl & Hc & Hn).
  cbn zeta. repeat split; try assumption.
  rewrite Hl. exact (fold_push_lastn N _ []).
Qed.

End HistoryFacts.

(** C6. A history of capacity [N] that started empty holds, after any run
    of appends, at most [N] complete lines, namely the last [N] complete
    lines of the text appended (the oldest are evicted first), and its
    partial line is the text after the last newline.  With capacity 3,
    appending "1\n2\n3\n4\n5\n" leaves [lineCount() = 3] and
    [getAll() = "3\n4\n5"]. *)
Theorem history_capacity_fifo :
  (forall (N : nat) (track : bool) (ds : list (Z * string)),
     let h := History.append_all ds (History.new N track) in
     List.length (History.lines h) <= N
     /\ History.lines h = History.lastn N (History.completeLines (History.written ds))
     /\ History.currentLine h = History.partialLine (History.written ds))
  /\ (forall (now : Z) (track : bool),
        let data := ("1" ++ JS.NL ++ "2" ++ JS.NL ++ "3" ++ JS.NL
                     ++ "4" ++ JS.NL ++ "5" ++ JS.NL)%string in
        let h := History.append now data (History.new 3 track) in
        History.lineCount h = 3
        /\ History.getAll h = ("3" ++ JS.NL ++ "4" ++ JS.NL ++ "5")%string).
Proof.
  split.
  - intros N track ds.
    destruct (append_all_closed_form N track ds) as (Hl & Hc & _).
    cbn zeta. repeat split; try assumption.
    rewrite Hl, lastn_length. lia.
  - intros now track. cbn zeta. split; reflexivity.
Qed.

Section SearchFacts.

Variable re : JS.RegExp.
Variable ls : list string.

Lemma builtinExec_sound (ln : string) (cursor idx : nat) (txt : string)
    (cursor' : nat) :
  JS.builtinExec re ln cursor = (Some (idx, txt), cursor') ->
  exists k, JS.exec_at re ln k = Some (idx, txt).
Proof.
  unfold JS.builtinExec. destruct (JS.global re || JS.sticky re).
  - destruct (JS.exec_at re ln cursor) as [[k t]|] eqn:E; [|discriminate].
    destruct (JS.sticky re && negb (k =? cursor)); [discriminate|].
    intros H. injection H as <- <- _. exists cursor. exact E.
  - intros H. injection H as H _. exists 0. exact H.
Qed.

Lemma scan_line_sound (fuel i : nat) (ln : string) :
  forall (cursor : nat) (ms : list History.SearchMatch) (cursor' : nat),
    History.scan_line fuel re ls i ln cursor = Some (ms, cursor') ->
    forall m, In m ms ->
      History.line m = i
      /\ exists k, JS.exec_at re ln k = Some (History.column m, History.text m).
Proof.
  induction fuel as [|fuel IH]; intros cursor ms cursor' Hs m Hin; [discriminate|].
  cbn [History.scan_line] in Hs.
  destruct (JS.builtinExec re ln cursor) as [[[idx txt]|] c1] eqn:Ex.
  - destruct (JS.global re) eqn:Eg.
    + destruct (History.scan_line fuel re ls i ln c1) as [[ms' c2]|] eqn:Er;
        [|discriminate].
      cbn in Hs. injection Hs as <- <-.
      destruct Hin as [<-|Hin].
      * split; [reflexivity|]. exact (builtinExec_sound _ _ _ _ _ Ex).
      * eapply IH; eassumption.
    + injection Hs as <- <-. destruct Hin as [<-|[]].
      split; [reflexivity|]. exact (builtinExec_sound _ _ _ _ _ Ex).
  - injection Hs as <- <-. destruct Hin.
Qed.

Lemma search_from_sound (fuel : nat) (rest : list string) :
  forall (i cursor : nat) (ms : list History.SearchMatch),
    History.search_from fuel re ls i rest cursor = Some ms ->
    forall m, In m ms ->
      i <= History.line m < i + List.length rest
      /\ exists k, JS.exec_at re (nth (History.line m - i) rest "") k
                   = Some (History.column m, History.text m).
Proof.
  induction rest as [|ln rest IH]; intros i cursor ms Hs m Hin.
  - injection Hs as <-. destruct Hin.
  - cbn [History.search_from] in Hs.
    destruct (History.scan_line fuel re ls i ln (if JS.global re then 0 else cursor))
      as [[here c1]|] eqn:Eh; [|discriminate].
    destruct (History.search_from fuel re ls (S i) rest c1) as [later|] eqn:El;
      [|discriminate].
    injection Hs as <-. apply in_app_or in Hin. destruct Hin as [Hin|Hin].
    + destruct (scan_line_sound _ _ _ _ _ _ Eh m Hin) as (-> & k & Hk).
      split; [cbn; lia|]. rewrite Nat.sub_diag. exists k. exact Hk.
    + destruct (IH _ _ _ El m Hin) as (Hr & k & Hk).
      split; [cbn; lia|].
      replace (History.line m - i) with (S (History.line m - S i)) by lia.
      exists k. exact Hk.
Qed.

End SearchFacts.

Lemma slice_last_one {A : Type} (l : list A) (x : A) :
  JS.slice (- (1)) None (l ++ [x]) = [x].
Proof.
  unfold JS.slice, JS.clamp_index.
  replace (- (1) <? 0)%Z with true by reflexivity.
  rewrite length_app. cbn [List.length].
  replace (Z.to_nat (Z.max (Z.of_nat (List.length l + 1) + - (1)) 0))
    with (List.length l) by lia.
  rewrite skipn_app, skipn_all, Nat.sub_diag.
  replace (List.length l + 1 - List.length l) with 1 by lia.
  reflexivity.
Qed.

(** With matches that are not empty the loop on a line ends: one turn more
    than the characters left is enough. *)
Lemma scan_line_terminates (re : JS.RegExp) (ls : list string) (i : nat)
    (ln : string) :
  JS.advancing re ->
  forall fuel cursor,
    String.length ln - cursor < fuel ->
    exists r, History.scan_line fuel re ls i ln cursor = Some r.
Proof.
  intros Hadv. induction fuel as [|fuel IH]; intros cursor Hfuel; [lia|].
  cbn [History.scan_line].
  destruct (JS.builtinExec re ln cursor) as [[[idx txt]|] c1] eqn:Ex;
    [|eexists; reflexivity].
  destruct (JS.global re) eqn:Eg; [|eexists; reflexivity].
  unfold JS.builtinExec in Ex. rewrite Eg in Ex. cbn [orb] in Ex.
  destruct (JS.exec_at re ln cursor) as [[k t]|] eqn:Ea; [|discriminate].
  destruct (JS.sticky re && negb (k =? cursor)); [discriminate|].
  injection Ex as <- <- <-.
  destruct (Hadv _ _ _ _ Ea) as (Hle & Hpos & Hin).
  destruct (IH (k + String.length t)) as (r & ->); [lia|].
  eexists. reflexivity.
Qed.

Lemma search_from_terminates (re : JS.RegExp) (all rest : list string)
    (fuel : nat) :
  JS.advancing re ->
  Forall (fun ln => String.length ln < fuel) rest ->
  forall i cursor, exists ms, History.search_from fuel re all i rest cursor = Some ms.
Proof.
  intros Hadv Hfit. induction Hfit as [|ln rest Hln _ IH]; intros i cursor.
  - eexists. reflexivity.
  - cbn [History.search_from].
    destruct (scan_line_terminates re all i ln Hadv fuel
                (if JS.global re then 0 else cursor)) as ([here c1] & ->); [lia|].
    destruct (IH (S i) c1) as (later & ->).
    eexists. reflexivity.
Qed.

(** Hence [search] returns when it is given more turns than the longest
    line has characters. *)
Lemma search_terminates (re : JS.RegExp) (h : History.t) (fuel : nat) :
  JS.advancing re ->
  Forall (fun ln => String.length ln < fuel) (History.lines h) ->
  exists ms, History.search fuel re h = Some ms.
Proof.
  intros Hadv Hfit. now apply search_from_terminates.
Qed.

(** An expression that is not global leaves the loop after one turn. *)
Lemma search_one_turn (re : JS.RegExp) (h : History.t) (fuel : nat) :
  JS.global re = false -> exists ms, History.search (S fuel) re h = Some ms.
Proof.
  intros Hg. unfold History.search.
  generalize (JS.lastIndex re) as cursor. generalize 0 as i.
  generalize (History.lines h) at 1 as all.
  induction (History.lines h) as [|ln rest IH]; intros all i cursor.
  - eexists. reflexivity.
  - cbn [History.search_from History.scan_line]. rewrite Hg.
    destruct (JS.builtinExec re ln cursor) as [[[idx txt]|] c1].
    + destruct (IH all (S i) c1) as [later ->]. eexists. reflexivity.
    + destruct (IH all (S i) c1) as [later ->]. eexists. reflexivity.
Qed.

(** C10. [search] scans the complete lines only.  Whatever the partial line
    holds, every match returned lies in a complete line (its line index is
    below the number of complete lines and its text is a match of the
    expression in that line), and the result is the same for any other
    partial line; yet a partial line that is not empty is counted by
    [lineCount()] and ends [getAll()] and [tail()]. *)
Theorem search_scans_complete_lines_only
    (fuel : nat) (re : JS.RegExp) (h : History.t)
    (ms : list History.SearchMatch) :
  History.search fuel re h = Some ms ->
  (forall m, In m ms ->
     History.line m < List.length (History.lines h)
     /\ exists k, JS.exec_at re (nth (History.line m) (History.lines h) "") k
                  = Some (History.column m, History.text m))
  /\ (forall partial : string,
        History.search fuel re
          (History.mk (History.lines h) partial (History.limit h)
             (History.trackLastOutputAt h) (History.lastOutputAt h)) = Some ms)
  /\ (JS.truthy (History.currentLine h) = true ->
      History.lineCount h = S (List.length (History.lines h))
      /\ History.getAll h = JS.join JS.NL (History.lines h ++ [History.currentLine h])
      /\ History.tail 1 h = History.currentLine h).
Proof.
  intros Hs. split; [|split].
  - intros m Hin.
    destruct (search_from_sound re _ fuel _ _ _ _ Hs m Hin) as (Hr & k & Hk).
    split; [lia|]. rewrite Nat.sub_0_r in Hk. exists k. exact Hk.
  - intros partial. exact Hs.
  - intros Hp. split; [|split].
    + unfold History.lineCount. rewrite Hp. lia.
    + unfold History.getAll, History.all. rewrite Hp. reflexivity.
    + unfold History.tail, History.all. rewrite Hp.
      rewrite slice_last_one. reflexivity.
Qed.

(** A history holding the complete line "foo" and the partial line "bar":
    searching for "bar" finds nothing, though the partial line is part of
    [getAll()], [tail()] and [lineCount()]. *)
Lemma search_scans_complete_lines_only_witness :
  let h := History.append 0 ("foo" ++ JS.NL ++ "bar")%string (History.new 3 true) in
  History.search 2 (JS.literal false "bar") h = Some []
  /\ History.lineCount h = 2
  /\ History.getAll h = ("foo" ++ JS.NL ++ "bar")%string
  /\ History.tail 1 h = "bar".
Proof.
  cbn zeta.
  pose proof (search_scans_complete_lines_only 2 (JS.literal false "bar")
                (History.append 0 ("foo" ++ JS.NL ++ "bar")%string (History.new 3 true))
                [] eq_refl) as (_ & Hany & Hpartial).
  destruct (Hpartial eq_refl) as (Hc & Hg & Ht).
  exact (conj (Hany "bar") (conj Hc (conj Hg Ht))).
Defined.

(* ================================================================== *)
(** ** Properties of the key codec *)
(* ================================================================== *)

(** A character key never reads [shift]: the encoding is the same with and
    without it. *)
Lemma encodeKey_string_ignores_shift (s : string) (c a sh m : bool) :
  Keys.encodeKey (Keys.Modified (Keys.mkModified (Keys.Str s) c a sh m)) =
  Keys.encodeKey (Keys.Modified (Keys.mkModified (Keys.Str s) c a false m)).
Proof. reflexivity. Qed.

(** C7. The reference equations of [encodeKey]: "x" encodes as itself,
    Ctrl+c and Ctrl+Shift+c as the byte 0x03, Shift+Tab as ESC [ Z and
    Ctrl+Up as ESC [ 1 ; 5 A.  Under Ctrl (without Alt and Meta) every
    letter a to z encodes as its code minus 0x60, with or without Shift. *)
Theorem encodeKey_reference_equations :
  Keys.encodeKey (Keys.Text "x") = JS.Return "x"
  /\ Keys.encodeKey (Keys.Modified (Keys.ctrlKey (Keys.Str "c")))
     = JS.Return (String "003"%char "")
  /\ Keys.encodeKey
       (Keys.Modified (Keys.mkModified (Keys.Str "c") true false true false))
     = JS.Return (String "003"%char "")
  /\ Keys.encodeKey (Keys.Modified (Keys.shiftKey (Keys.Sym Key.Tab)))
     = JS.Return (Keys.esc "[Z")
  /\ Keys.encodeKey (Keys.Modified (Keys.ctrlKey (Keys.Sym Key.Up)))
     = JS.Return (Keys.esc "[1;5A")
  /\ (forall sh : bool,
        map (fun l =>
               Keys.encodeKey
                 (Keys.Modified
                    (Keys.mkModified (Keys.Str (String l "")) true false sh false)))
            Keys.lowercaseLetters
        = map (fun l => JS.Return (String (ascii_of_nat (nat_of_ascii l - 96)) ""))
            Keys.lowercaseLetters).
Proof.
  do 5 (split; [reflexivity|]).
  intros sh. destruct sh; reflexivity.
Qed.

(* ================================================================== *)
(** ** Properties of the session *)
(* ================================================================== *)

Section SessionFacts.

Variable env : Session.Env.

Lemma answer_frame (now : Z) (scan : string) (reqs : list string)
    (payload note : string) (s : Session.SessionImpl) :
  exists p l,
    Session.answer env now scan reqs payload note s
      = Session.withIO p l (Session.queryScanTail s) s
    /\ Session.written p =
       Session.written (Session.ptyProcess s)
       ++ (if existsb (JS.includes scan) reqs then [payload] else []).
Proof.
  unfold Session.answer, Session.reply, Session.writeRaw, Session.writeJsonlLog.
  destruct (existsb (JS.includes scan) reqs).
  - destruct (Session.logTerminalQueries env);
      [destruct (Session.jsonlLogStream s)|]; eexists; eexists;
      (split; [reflexivity|]); reflexivity.
  - exists (Session.ptyProcess s), (Session.jsonlLogStream s).
    split; [destruct s; reflexivity|]. now rewrite app_nil_r.
Qed.

(** One [answer] of the chain, on a state already in the form
    [withIO _ _ _ s]. *)
Ltac answer_step env now s :=
  match goal with
  | |- context [Session.answer env now ?scan ?r ?pl ?n (Session.withIO ?p ?l ?t s)] =>
      let p' := fresh "p" in
      let l' := fresh "l" in
      let E := fresh "E" in
      let W := fresh "W" in
      destruct (answer_frame now scan r pl n (Session.withIO p l t s))
        as (p' & l' & E & W);
      rewrite E; clear E;
      change (Session.withIO p' l'
                (Session.queryScanTail (Session.withIO p l t s))
                (Session.withIO p l t s))
        with (Session.withIO p' l' t s);
      cbn [Session.ptyProcess Session.rows Session.cols Session.withIO] in W
  end.

(** [respondToTerminalQueries] touches the scan tail, the log and the input
    of the PTY, to which it adds the replies, and nothing else. *)
Lemma respond_frame (now : Z) (data : string) (s : Session.SessionImpl) :
  exists p l,
    Session.respondToTerminalQueries env now data s
      = Session.withIO p l
          (JS.str_last 64 (Session.queryScanTail s ++ data)%string) s
    /\ Session.written p =
       Session.written (Session.ptyProcess s)
       ++ Session.replies (Session.queryScanTail s ++ data)%string
            (Session.rows s) (Session.cols s).
Proof.
  unfold Session.respondToTerminalQueries. cbn zeta.
  change (Session.set_queryScanTail ?t s)
    with (Session.withIO (Session.ptyProcess s) (Session.jsonlLogStream s) t s).
  do 11 (answer_step env now s).
  eexists. eexists. split; [reflexivity|].
  repeat match goal with
         | W : Session.written _ = _ |- _ => rewrite W; clear W
         end.
  unfold Session.replies, Session.queryTable. cbn [flat_map fst snd].
  repeat rewrite <- app_assoc. rewrite app_nil_r. reflexivity.
Qed.

Lemma deliveries_not_exit (e : Session.Event) (a : bool) (c : option Z)
    (hs : list Session.Handler) :
  (forall code, e <> Session.ExitEvent code) ->
  Forall (fun d => Session.isExitDelivery d = false)
         (map (fun h => Session.mkDelivery h e a c) hs).
Proof.
  intros He. apply Forall_forall. intros d Hin.
  apply in_map_iff in Hin. destruct Hin as (h & <- & _).
  unfold Session.isExitDelivery. cbn.
  destruct e; try reflexivity. exfalso. eapply He. reflexivity.
Qed.

Lemma set_add_NoDup (h : Session.Handler) (l : list Session.Handler) :
  NoDup l -> NoDup (Session.set_add h l).
Proof.
  intros Hl. unfold Session.set_add.
  destruct (existsb (Nat.eqb h) l) eqn:E; [assumption|].
  apply NoDup_app; [assumption | repeat constructor; intros [] |].
  intros x Hx [<-|[]].
  assert (existsb (Nat.eqb h) l = true) as E'.
  { apply existsb_exists. exists h. split; [assumption | apply Nat.eqb_refl]. }
  congruence.
Qed.

Lemma set_delete_NoDup (h : Session.Handler) (l : list Session.Handler) :
  NoDup l -> NoDup (Session.set_delete h l).
Proof. apply NoDup_filter. Qed.

(** Logging the keys of [sendKeys] changes the input history only. *)
Lemma log_keys_frame (now : Z) (keys : list Keys.KeyInput) (s : Session.SessionImpl) :
  exists h,
    fold_left
      (fun s key =>
         Session.set_inputHistory
           (History.append now (Session.formatKeyInputForLog key)
              (Session.inputHistory s)) s)
      keys s
    = Session.set_inputHistory h s.
Proof.
  revert s. induction keys as [|k keys IH]; intros s.
  - exists (Session.inputHistory s). destruct s; reflexivity.
  - cbn [fold_left]. destruct (IH (Session.set_inputHistory
        (History.append now (Session.formatKeyInputForLog k)
           (Session.inputHistory s)) s)) as (h & ->).
    exists h. reflexivity.
Qed.

(** What one input does to the output history, to the handlers of [exit]
    and to the calls of handlers: only the data of the child reaches the
    history, and only the exit callback of the PTY calls the handlers of
    [exit], after the session is marked dead and its exit code set. *)
Lemma step_frame (s : Session.SessionImpl) (i : Session.Input) :
  Session.history (Session.step env s i)
    = match i with
      | Session.PtyData now data => History.append now data (Session.history s)
      | _ => Session.history s
      end
  /\ (NoDup (Session.exitHandlers s) ->
      NoDup (Session.exitHandlers (Session.step env s i)))
  /\ exists extra,
       Session.delivered (Session.step env s i) = Session.delivered s ++ extra
       /\ match i with
          | Session.PtyExit now code =>
              extra = map (fun h => Session.mkDelivery h (Session.ExitEvent code)
                                      false (Some code))
                          (Session.exitHandlers s)
          | _ => Forall (fun d => Session.isExitDelivery d = false) extra
          end.
Proof.
  destruct i as [now data|now code| |now data|now key|now keys|sig|c r o|k h|k h| ];
    cbn [Session.step].
  - (* PtyData *)
    unfold Session.onData. cbn zeta.
    destruct (respond_frame now data s) as (p & l & -> & _).
    unfold Session.writeJsonlLog, Session.engineWrite, Session.emitEvent.
    cbn [Session.jsonlLogStream Session.withIO].
    destruct l; cbn;
      destruct (Session.syncFlush (Session.terminalEngine s)); cbn;
      (split; [reflexivity|]); (split; [tauto|]);
      rewrite <- ?app_assoc; eexists; (split; [reflexivity|]);
      try (apply Forall_app; split);
      apply deliveries_not_exit; discriminate.
  - (* PtyExit *)
    unfold Session.onExit, Session.writeJsonlLog, Session.closeJsonlLogStream,
      Session.emitEvent. cbn zeta.
    destruct s as [? ? ? ? ? ? ? ? ? ? ? ? log ? ? ? ? ? ? ? ?]. cbn.
    destruct log; cbn;
      (split; [reflexivity|]); (split; [tauto|]);
      eexists; split; reflexivity.
  - (* EngineFlushed *)
    unfold Session.onEngineFlushed, Session.emitEvent. cbn.
    split; [reflexivity|]. split; [tauto|].
    eexists. split; [reflexivity|]. apply deliveries_not_exit. discriminate.
  - (* Send *)
    unfold Session.send, Session.writeJsonlLog, Session.writeRaw.
    destruct (Session.isAlive s); cbn;
      [destruct (Session.logInput s); cbn;
       [destruct (Session.jsonlLogStream s); cbn|]|];
      (split; [reflexivity|]); (split; [tauto|]);
      exists []; rewrite app_nil_r; split; constructor.
  - (* SendKey *)
    unfold Session.sendKey, Session.writeJsonlLog, Session.writeRaw.
    destruct (Session.isAlive s); cbn [negb];
      [destruct (Session.logInput s);
       [cbn [Session.jsonlLogStream Session.set_inputHistory];
        destruct (Session.jsonlLogStream s)|];
       destruct (Keys.encodeKey key)|]; cbn;
      (split; [reflexivity|]); (split; [tauto|]);
      exists []; rewrite app_nil_r; split; constructor.
  - (* SendKeys *)
    unfold Session.sendKeys, Session.writeJsonlLog, Session.writeRaw.
    destruct (Session.isAlive s); cbn [negb];
      [destruct (Session.logInput s);
       [destruct (log_keys_frame now keys s) as (h & ->);
        cbn [Session.jsonlLogStream Session.set_inputHistory];
        destruct (Session.jsonlLogStream s)|];
       destruct (Keys.encodeKeys keys)|]; cbn;
      (split; [reflexivity|]); (split; [tauto|]);
      exists []; rewrite app_nil_r; split; constructor.
  - (* Kill *)
    unfold Session.kill. destruct (Session.isAlive s); cbn;
      (split; [reflexivity|]); (split; [tauto|]);
      exists []; rewrite app_nil_r; split; constructor.
  - (* Resize *)
    unfold Session.resize. destruct o; cbn;
      (split; [reflexivity|]); (split; [tauto|]);
      exists []; rewrite app_nil_r; split; constructor.
  - (* On *)
    unfold Session.on. destruct k; cbn;
      (split; [reflexivity|]);
      (split; [try tauto; apply set_add_NoDup|]);
      exists []; rewrite app_nil_r; split; constructor.
  - (* Off *)
    unfold Session.off. destruct k; cbn;
      (split; [reflexivity|]);
      (split; [try tauto; apply set_delete_NoDup|]);
      exists []; rewrite app_nil_r; split; constructor.
  - (* Dispose *)
    unfold Session.dispose, Session.kill, Session.closeJsonlLogStream.
    destruct (Session.isAlive s); cbn;
      destruct (Session.jsonlLogStream s); cbn;
      (split; [reflexivity|]); (split; [intros _; constructor|]);
      exists []; rewrite app_nil_r; split; constructor.
Qed.

(** Only the exit callback of the PTY emits an [exit] event, and it emits
    one. *)
Lemma step_exits_emitted (s : Session.SessionImpl) (i : Session.Input) :
  Session.exitsEmitted (Session.step env s i)
  = Session.exitsEmitted s
    ++ match i with
       | Session.PtyExit _ code => [Session.ExitEvent code]
       | _ => []
       end.
Proof.
  unfold Session.exitsEmitted.
  destruct i as [now data|now code| |now data|now key|now keys|sig|c r o|k h|k h| ];
    cbn [Session.step].
  - unfold Session.onData. cbn zeta.
    destruct (respond_frame now data s) as (p & l & -> & _).
    unfold Session.writeJsonlLog, Session.engineWrite, Session.emitEvent.
    cbn [Session.jsonlLogStream Session.withIO].
    destruct l; cbn;
      destruct (Session.syncFlush (Session.terminalEngine s)); cbn;
      rewrite ?filter_app; cbn; rewrite ?app_nil_r; reflexivity.
  - unfold Session.onExit, Session.writeJsonlLog, Session.closeJsonlLogStream,
      Session.emitEvent. cbn zeta.
    destruct s as [? ? ? ? ? ? ? ? ? ? ? ? log ? ? ? ? ? ? ? ?]. cbn.
    destruct log; cbn; rewrite filter_app; reflexivity.
  - unfold Session.onEngineFlushed, Session.emitEvent. cbn.
    rewrite filter_app. reflexivity.
  - unfold Session.send, Session.writeJsonlLog, Session.writeRaw.
    destruct (Session.isAlive s); cbn;
      [destruct (Session.logInput s); cbn;
       [destruct (Session.jsonlLogStream s); cbn|]|];
      now rewrite app_nil_r.
  - unfold Session.sendKey, Session.writeJsonlLog, Session.writeRaw.
    destruct (Session.isAlive s); cbn [negb];
      [destruct (Session.logInput s);
       [cbn [Session.jsonlLogStream Session.set_inputHistory];
        destruct (Session.jsonlLogStream s)|];
       destruct (Keys.encodeKey key)|]; cbn;
      now rewrite app_nil_r.
  - unfold Session.sendKeys, Session.writeJsonlLog, Session.writeRaw.
    destruct (Session.isAlive s); cbn [negb];
      [destruct (Session.logInput s);
       [destruct (log_keys_frame now keys s) as (h & ->);
        cbn [Session.jsonlLogStream Session.set_inputHistory];
        destruct (Session.jsonlLogStream s)|];
       destruct (Keys.encodeKeys keys)|]; cbn;
      now rewrite app_nil_r.
  - unfold Session.kill. destruct (Session.isAlive s); cbn; now rewrite app_nil_r.
  - unfold Session.resize. destruct o; cbn; now rewrite app_nil_r.
  - unfold Session.on. destruct k; cbn; now rewrite app_nil_r.
  - unfold Session.off. destruct k; cbn; now rewrite app_nil_r.
  - unfold Session.dispose, Session.kill, Session.closeJsonlLogStream.
    destruct (Session.isAlive s); cbn;
      destruct (Session.jsonlLogStream s); cbn; now rewrite app_nil_r.
Qed.

(** A run emits as many [exit] events as the PTY reported exits. *)
Lemma run_exits_emitted (tr : list Session.Input) :
  forall s : Session.SessionImpl,
    List.length (Session.exitsEmitted (Session.run env tr s))
    = List.length (Session.exitsEmitted s) + Session.exitCallbacks tr.
Proof.
  induction tr as [|i tr IH]; intros s; [cbn; lia|].
  cbn [Session.run fold_left]. fold (Session.run env tr (Session.step env s i)).
  rewrite IH, step_exits_emitted, length_app.
  unfold Session.exitCallbacks. destruct i; cbn; lia.
Qed.

Lemma exit_deliveries_to_one (h : Session.Handler) (code : Z)
    (hs : list Session.Handler) :
  NoDup hs ->
  List.length
    (filter (fun d => Session.isExitDelivery d && Nat.eqb (Session.to d) h)
       (map (fun h => Session.mkDelivery h (Session.ExitEvent code) false (Some code)) hs))
  <= 1.
Proof.
  intros Hnd. induction Hnd as [|x hs Hx Hnd IH]; [cbn; lia|].
  cbn [map filter Session.isExitDelivery Session.event Session.to andb].
  destruct (Nat.eqb_spec x h) as [->|Hne]; [|exact IH].
  cbn [List.length].
  assert (filter (fun d => Session.isExitDelivery d && Nat.eqb (Session.to d) h)
            (map (fun h => Session.mkDelivery h (Session.ExitEvent code) false (Some code)) hs)
          = []) as ->; [|cbn; lia].
  clear IH Hnd. induction hs as [|y hs IH]; [reflexivity|].
  cbn [map filter Session.isExitDelivery Session.event Session.to andb].
  destruct (Nat.eqb_spec y h) as [->|_].
  - exfalso. apply Hx. now left.
  - apply IH. intros Hin. apply Hx. now right.
Qed.

Lemma no_exit_deliveries (h : Session.Handler) (extra : list Session.Delivery) :
  Forall (fun d => Session.isExitDelivery d = false) extra ->
  filter (fun d => Session.isExitDelivery d && Nat.eqb (Session.to d) h) extra = [].
Proof.
  induction 1 as [|d extra Hd _ IH]; [reflexivity|].
  cbn [filter]. rewrite Hd. exact IH.
Qed.

(** Over a run: the handlers of [exit] stay distinct, a handler sees at
    most one more [exit] per exit callback of the PTY, and every [exit] seen
    shows a dead session with its exit code. *)
Lemma run_exit_deliveries (tr : list Session.Input) :
  forall s : Session.SessionImpl,
    NoDup (Session.exitHandlers s) ->
    Forall Session.exitSeenDead (Session.delivered s) ->
    (forall h,
       List.length (Session.exitsSeenBy h (Session.run env tr s))
       <= List.length (Session.exitsSeenBy h s) + Session.exitCallbacks tr)
    /\ Forall Session.exitSeenDead (Session.delivered (Session.run env tr s)).
Proof.
  induction tr as [|i tr IH]; intros s Hnd Hgood.
  - cbn. split; [intros h; lia | assumption].
  - destruct (step_frame s i) as (_ & Hnd' & extra & Hd & Hextra).
    specialize (Hnd' Hnd).
    assert (Hgood' : Forall Session.exitSeenDead
                       (Session.delivered (Session.step env s i))).
    { rewrite Hd. apply Forall_app. split; [assumption|].
      destruct i; try (eapply Forall_impl; [|exact Hextra];
                       intros d Hf Hex; congruence).
      subst extra. apply Forall_forall. intros d Hin.
      apply in_map_iff in Hin. destruct Hin as (h & <- & _).
      intros _. cbn. split; [reflexivity|]. eexists. split; reflexivity. }
    destruct (IH _ Hnd' Hgood') as (Hcount & Hall).
    split; [|exact Hall].
    intros h. cbn [Session.run fold_left]. specialize (Hcount h).
    fold (Session.run env tr (Session.step env s i)).
    assert (Hone : List.length (Session.exitsSeenBy h (Session.step env s i))
                   + Session.exitCallbacks tr
                   <= List.length (Session.exitsSeenBy h s)
                      + Session.exitCallbacks (i :: tr)); [|lia].
    unfold Session.exitsSeenBy, Session.exitCallbacks.
    rewrite Hd, filter_app, length_app.
    destruct i; cbn [filter List.length];
      try (rewrite (no_exit_deliveries h extra Hextra); cbn; lia).
    subst extra. pose proof (exit_deliveries_to_one h code _ Hnd). lia.
Qed.

(** C8. Provided the PTY reports the exit of the child at most once, a
    session emits at most one [exit] event over any run, so each subscriber
    sees at most one, and whenever a subscriber is called with an [exit]
    event the session already reads [isAlive = false] and [exitCode] is the
    code of the event. *)
Theorem exit_event_once_and_after_death
    (newId processCwd : string) (now : Z) (childPid : nat) (command : string)
    (options : Session.SpawnOptions) (historyLimit : nat) (logDir : string)
    (factory : option Session.TerminalEngineFactory)
    (tr : list Session.Input) :
  Session.exitCallbacks tr <= 1 ->
  let s := Session.run env tr
             (Session.new env newId processCwd now childPid command options
                historyLimit logDir factory) in
  List.length (Session.exitsEmitted s) <= 1
  /\ (forall h, List.length (Session.exitsSeenBy h s) <= 1)
  /\ (forall d, In d (Session.delivered s) ->
        Session.isExitDelivery d = true ->
        Session.seenAlive d = false
        /\ exists code,
             Session.event d = Session.ExitEvent code
             /\ Session.seenExitCode d = Some code).
Proof.
  intros Honce.
  destruct (run_exit_deliveries tr
              (Session.new env newId processCwd now childPid command options
                 historyLimit logDir factory)) as (Hcount & Hall).
  - constructor.
  - constructor.
  - cbn zeta. split; [|split].
    + rewrite run_exits_emitted. cbn. lia.
    + intros h. specialize (Hcount h). cbn in Hcount. lia.
    + intros d Hin. rewrite Forall_forall in Hall. exact (Hall d Hin).
Qed.

(** Every reply that the specification lists for a request found in the
    scanned text is among the payloads written. *)
Lemma replies_recognized (scan q r : string) (rows cols : nat) :
  In (q, r) (Session.recognizedQueries rows cols) ->
  JS.includes scan q = true ->
  In r (Session.replies scan rows cols).
Proof.
  intros Hin Hinc. unfold Session.recognizedQueries in Hin. cbn [In] in Hin.
  unfold Session.replies, Session.queryTable. cbn [flat_map fst snd existsb].
  repeat (destruct Hin as [Hin|Hin];
          [pose proof (f_equal fst Hin) as Hq; pose proof (f_equal snd Hin) as Hr;
           cbn [fst snd] in Hq, Hr; subst q r; clear Hin;
           rewrite Hinc; cbn [orb];
           rewrite ?orb_true_r;
           repeat (apply in_or_app;
                   first [left; solve [left; reflexivity] | right])|]).
  destruct Hin.
Qed.

(** [onData] writes the replies, and nothing else, to the input of the
    PTY. *)
Lemma onData_written (now : Z) (data : string) (s : Session.SessionImpl) :
  Session.written (Session.ptyProcess (Session.onData env now data s))
  = Session.written (Session.ptyProcess s)
    ++ Session.replies (Session.queryScanTail s ++ data)%string
         (Session.rows s) (Session.cols s).
Proof.
  unfold Session.onData. cbn zeta.
  destruct (respond_frame now data s) as (p & l & -> & <-).
  unfold Session.writeJsonlLog, Session.engineWrite, Session.emitEvent.
  cbn [Session.jsonlLogStream Session.withIO].
  destruct l; cbn;
    destruct (Session.syncFlush (Session.terminalEngine s)); reflexivity.
Qed.

(** The output history after a run is the history before it with the
    chunks of the child appended in order. *)
Lemma run_history (tr : list Session.Input) :
  forall s : Session.SessionImpl,
    Session.history (Session.run env tr s)
    = History.append_all (Session.childOutput tr) (Session.history s).
Proof.
  induction tr as [|i tr IH]; intros s; [reflexivity|].
  cbn [Session.run fold_left]. fold (Session.run env tr (Session.step env s i)).
  rewrite IH. destruct (step_frame s i) as (-> & _).
  destruct i; reflexivity.
Qed.

(** C9. When a chunk of the child completes a recognized terminal query,
    the reply of the table is written to the input of the PTY, while the
    output history receives the chunk alone.  Over any run of a session the
    output history is the one obtained by appending the chunks of the child
    in order: the last [historyLimit] complete lines of what the child wrote
    and the partial line after them, whatever was replied or sent; as long
    as nothing is evicted, the lines and the partial line joined by newlines
    are the text the child wrote. *)
Theorem query_replies_bypass_history
    (now : Z) (data q r : string) (s : Session.SessionImpl) :
  In (q, r) (Session.recognizedQueries (Session.rows s) (Session.cols s)) ->
  JS.includes (Session.queryScanTail s ++ data)%string q = true ->
  (In r (Session.written (Session.ptyProcess (Session.onData env now data s)))
   /\ Session.history (Session.onData env now data s)
      = History.append now data (Session.history s))
  /\ (forall (tr : list Session.Input) (s0 : Session.SessionImpl),
        Session.history (Session.run env tr s0)
        = History.append_all (Session.childOutput tr) (Session.history s0))
  /\ (forall (tr : list Session.Input) (newId processCwd : string) (t0 : Z)
             (childPid : nat) (command : string)
             (options : Session.SpawnOptions) (historyLimit : nat)
             (logDir : string) (factory : option Session.TerminalEngineFactory),
        let h := Session.history
                   (Session.run env tr
                      (Session.new env newId processCwd t0 childPid command
                         options historyLimit logDir factory)) in
        History.lines h
          = History.lastn historyLimit
              (History.completeLines (History.written (Session.childOutput tr)))
        /\ History.currentLine h
           = History.partialLine (History.written (Session.childOutput tr))
        /\ (List.length
              (History.completeLines (History.written (Session.childOutput tr)))
            <= historyLimit ->
            JS.join JS.NL (History.lines h ++ [History.currentLine h])
            = History.written (Session.childOutput tr))).
Proof.
  intros Hin Hinc. repeat split.
  - rewrite onData_written. apply in_or_app. right.
    eapply replies_recognized; eassumption.
  - exact (proj1 (step_frame s (Session.PtyData now data))).
  - intros tr s0. apply run_history.
  - rewrite run_history.
    exact (proj1 (append_all_closed_form historyLimit true (Session.childOutput tr))).
  - rewrite run_history.
    exact (proj1 (proj2 (append_all_closed_form historyLimit true
                           (Session.childOutput tr)))).
  - intros Hfit. rewrite run_history.
    destruct (append_all_closed_form historyLimit true (Session.childOutput tr))
      as (Hl & Hc & _).
    cbn zeta in Hl, Hc. unfold Session.new. cbn [Session.history].
    rewrite Hl, Hc, lastn_short by assumption.
    apply lines_and_partial_roundtrip.
Qed.

End SessionFacts.

(** A session with one subscriber of [exit] whose child writes "hi" and
    exits with code 0. *)
Lemma exit_event_once_and_after_death_witness :
  let tr := [Session.On Session.exit 7; Session.PtyData 5 "hi"; Session.PtyExit 9 0%Z] in
  let s := Session.run Session.noEnv tr Session.sample in
  Session.exitCallbacks tr <= 1
  /\ List.length (Session.exitsSeenBy 7 s) <= 1
  /\ Session.exitsSeenBy 7 s
     = [Session.mkDelivery 7 (Session.ExitEvent 0%Z) false (Some 0%Z)].
Proof.
  cbn zeta.
  assert (Honce : Session.exitCallbacks
                    [Session.On Session.exit 7; Session.PtyData 5 "hi";
                     Session.PtyExit 9 0%Z] <= 1) by (cbn; lia).
  pose proof (exit_event_once_and_after_death Session.noEnv "sess-00000000" "/"
                0%Z 1 "" Session.noOptions 100 "" None _ Honce) as (_ & Hcount & _).
  split; [exact Honce|]. split; [exact (Hcount 7)|]. reflexivity.
Defined.

(** A child that asks for the cursor position: the reply goes to the PTY,
    the history holds the request alone. *)
Lemma query_replies_bypass_history_witness :
  let s' := Session.onData Session.noEnv 5 (Session.CSI "6n") Session.sample in
  In (Session.CSI "1;1R") (Session.written (Session.ptyProcess s'))
  /\ History.getAll (Session.history s') = Session.CSI "6n".
Proof.
  cbn zeta.
  assert (Hin : In (Session.CSI "6n", Session.CSI "1;1R")
                  (Session.recognizedQueries (Session.rows Session.sample)
                     (Session.cols Session.sample))) by (left; reflexivity).
  assert (Hinc : JS.includes
                   (Session.queryScanTail Session.sample ++ Session.CSI "6n")%string
                   (Session.CSI "6n") = true) by reflexivity.
  pose proof (query_replies_bypass_history Session.noEnv 5 (Session.CSI "6n")
                (Session.CSI "6n") (Session.CSI "1;1R") Session.sample Hin Hinc)
    as ((Hw & Hh) & _).
  split; [exact Hw|]. rewrite Hh. reflexivity.
Defined.

(* ================================================================== *)
(** ** Spawning: grid size and program *)
(* ================================================================== *)

(** The grid of a spawned session is what [options] gives, 80 columns and
    43 rows standing in for what it omits. *)
Lemma spawn_grid (env : Session.Env) (newId processCwd : string) (now : Z)
    (childPid : nat) (command : string) (options : Session.SpawnOptions)
    (u : Umux.t) :
  let s := snd (Umux.spawn env newId processCwd now childPid command options u) in
  let c := match Session.o_cols options with Some c => c | None => 80 end in
  let r := match Session.o_rows options with Some r => r | None => 43 end in
  Session.pcols (Session.ptyProcess s) = c
  /\ Session.prows (Session.ptyProcess s) = r
  /\ Session.ecols (Session.terminalEngine s) = c
  /\ Session.erows (Session.terminalEngine s) = r
  /\ Session.cols s = c
  /\ Session.rows s = r.
Proof. cbn. repeat split; reflexivity. Qed.

(** C3, as the code has it: a spawn call that gives neither [cols] nor
    [rows] creates the PTY and the terminal engine with 80 columns and 43
    rows. *)
Theorem spawn_default_grid (env : Session.Env) (newId processCwd : string)
    (now : Z) (childPid : nat) (command : string)
    (options : Session.SpawnOptions) (u : Umux.t) :
  Session.o_cols options = None ->
  Session.o_rows options = None ->
  let s := snd (Umux.spawn env newId processCwd now childPid command options u) in
  Session.pcols (Session.ptyProcess s) = 80
  /\ Session.prows (Session.ptyProcess s) = 43
  /\ Session.ecols (Session.terminalEngine s) = 80
  /\ Session.erows (Session.terminalEngine s) = 43.
Proof.
  intros Hc Hr.
  pose proof (spawn_grid env newId processCwd now childPid command options u)
    as (H1 & H2 & H3 & H4 & _).
  rewrite Hc, Hr in *. cbn zeta. auto.
Qed.

Lemma spawn_default_grid_witness :
  let s := snd (Umux.spawn Session.noEnv "sess-00000000" "/" 0 1 "bash"
                  Session.noOptions (Umux.new Session.noEnv Umux.noConfig)) in
  Session.pcols (Session.ptyProcess s) = 80
  /\ Session.prows (Session.ptyProcess s) = 43
  /\ Session.ecols (Session.terminalEngine s) = 80
  /\ Session.erows (Session.terminalEngine s) = 43.
Proof.
  exact (spawn_default_grid Session.noEnv "sess-00000000" "/" 0 1 "bash"
           Session.noOptions (Umux.new Session.noEnv Umux.noConfig)
           eq_refl eq_refl).
Defined.

(** C3 as stated fails: a spawn call without grid option does not give the
    PTY and the engine 24 rows. *)
Lemma spawn_default_rows_not_24 :
  let s := snd (Umux.spawn Session.noEnv "sess-00000000" "/" 0 1 "bash"
                  Session.noOptions (Umux.new Session.noEnv Umux.noConfig)) in
  ~ (Session.pcols (Session.ptyProcess s) = 80
     /\ Session.prows (Session.ptyProcess s) = 24
     /\ Session.ecols (Session.terminalEngine s) = 80
     /\ Session.erows (Session.terminalEngine s) = 24).
Proof. cbn. intros (_ & H & _). discriminate H. Qed.

(** C5 on the code: with the knob [defaultShell] set to /bin/zsh and the
    variable SHELL to /bin/bash, spawning the empty command runs /bin/bash;
    the knob is stored in the configuration and not read by [spawn]. *)
Theorem spawn_empty_command_ignores_defaultShell :
  let env := Session.mkEnv (Some "/bin/bash") None None None None in
  let u := Umux.new env (Umux.mkUmuxConfig None None (Some "/bin/zsh") None) in
  let s := snd (Umux.spawn env "sess-00000000" "/" 0 1 "" Session.noOptions u) in
  Umux.defaultShell (Umux.config u) = "/bin/zsh"
  /\ Session.file (Session.ptyProcess s) = "/bin/bash"
  /\ Session.file (Session.ptyProcess s) <> Umux.defaultShell (Umux.config u).
Proof. cbn. repeat split. discriminate. Qed.

(** The program of a spawned session does not depend on the configuration
    of the registry. *)
Lemma spawn_program_independent_of_config (env : Session.Env)
    (newId processCwd : string) (now : Z) (childPid : nat) (command : string)
    (options : Session.SpawnOptions) (u u' : Umux.t) :
  Session.file (Session.ptyProcess
     (snd (Umux.spawn env newId processCwd now childPid command options u)))
  = Session.file (Session.ptyProcess
     (snd (Umux.spawn env newId processCwd now childPid command options u'))).
Proof. reflexivity. Qed.

(* ================================================================== *)
(** ** Sending keys *)
(* ================================================================== *)

(** The key inputs that [encodeKey] rejects: a modifier symbol, alone or as
    the key of a modified key. *)
Lemma encodeKey_throws_iff (input : Keys.KeyInput) :
  (exists e, Keys.encodeKey input = JS.Throw e) <->
  (exists k, Keys.KEY_MAP k = None
             /\ (input = Keys.Special k
                 \/ exists c a sh m,
                      input = Keys.Modified (Keys.mkModified (Keys.Sym k) c a sh m))).
Proof.
  split.
  - intros (e & He). destruct input as [s|k|[[k|s] c a sh m]].
    + discriminate.
    + exists k. split; [|now left]. cbn in He.
      destruct (Keys.KEY_MAP k); [discriminate | reflexivity].
    + exists k. split; [|right; now exists c, a, sh, m].
      destruct k; try reflexivity; destruct c, a, sh, m; discriminate.
    + unfold Keys.encodeKey in He.
      destruct (Keys.ctrlLetter _) in He; [discriminate|].
      cbn [Keys.key Keys.alt Keys.ctrl Keys.meta] in He.
      destruct (a && negb c && negb m); discriminate.
  - intros (k & Hk & [->|(c & a & sh & m & ->)]).
    + cbn. rewrite Hk. eexists. reflexivity.
    + destruct k; try discriminate; destruct c, a, sh, m; eexists; reflexivity.
Qed.

(** C4, as the code has it: on a live session, a key that does not encode
    makes [sendKey] fail with the key error and nothing is written to the
    PTY; the output history, the handlers and the engine are untouched.
    With input logging off the session is unchanged; with input logging on
    the log form of the key was already appended to the input history (and
    to the JSONL log when there is one). *)
Theorem sendKey_invalid_key (now : Z)
    (key : Keys.KeyInput) (e : Keys.KeyError) (s : Session.SessionImpl) :
  Session.isAlive s = true ->
  Keys.encodeKey key = JS.Throw e ->
  let s' := fst (Session.sendKey now key s) in
  snd (Session.sendKey now key s) = JS.Throw (Session.KeyError e)
  /\ Session.ptyProcess s' = Session.ptyProcess s
  /\ Session.history s' = Session.history s
  /\ Session.terminalEngine s' = Session.terminalEngine s
  /\ Session.delivered s' = Session.delivered s
  /\ (Session.logInput s = false -> s' = s)
  /\ (Session.logInput s = true ->
      Session.inputHistory s'
        = History.append now (Session.formatKeyInputForLog key)
            (Session.inputHistory s)
      /\ Session.jsonlLogStream s'
         = option_map
             (fun l => l ++ [Session.LogInputKey now (Session.formatKeyInputForLog key)])
             (Session.jsonlLogStream s)).
Proof.
  intros Ha He. unfold Session.sendKey, Session.writeJsonlLog. rewrite He.
  destruct s as [? ? ? ? ? live ? ? ? ? ? logging log ? ? ? ? ? ? ? ?].
  cbn in Ha. subst live. cbn -[History.append Session.formatKeyInputForLog].
  destruct logging; [destruct log|];
    cbn -[History.append Session.formatKeyInputForLog];
    repeat split; intros; try discriminate; reflexivity.
Qed.

Lemma sendKey_invalid_key_witness :
  let r := Session.sendKey 5 (Keys.Special Key.Ctrl) Session.sample in
  snd r = JS.Throw (Session.KeyError (Keys.UnknownKey Key.Ctrl))
  /\ Session.ptyProcess (fst r) = Session.ptyProcess Session.sample.
Proof.
  cbn zeta.
  pose proof (sendKey_invalid_key 5 (Keys.Special Key.Ctrl)
                (Keys.UnknownKey Key.Ctrl) Session.sample eq_refl eq_refl)
    as (Hr & Hp & _).
  exact (conj Hr Hp).
Defined.

(** C4 as stated fails: sending the modifier symbol Ctrl to a live session
    that logs its input fails with the key error, writes nothing to the
    PTY, and yet leaves "<Ctrl>" in the input history. *)
Lemma sendKey_invalid_key_changes_input_history :
  let r := Session.sendKey 5 (Keys.Special Key.Ctrl) Session.sample in
  snd r = JS.Throw (Session.KeyError (Keys.UnknownKey Key.Ctrl))
  /\ Session.written (Session.ptyProcess (fst r)) = []
  /\ History.getAll (Session.inputHistory Session.sample) = ""
  /\ History.getAll (Session.inputHistory (fst r)) = "<Ctrl>"
  /\ Session.inputHistory (fst r) <> Session.inputHistory Session.sample.
Proof. cbn. repeat split. discriminate. Qed.

(* ================================================================== *)
(** ** Properties of the wait resolver *)
(* ================================================================== *)

(** In the pre-checks the pattern is tested before the "not" pattern: when
    the pattern matches the history, the wait resolves with [pattern],
    whatever the "not" pattern would find. *)
Lemma precheck_pattern_first (c : Wait.WaitCondition) (v : Wait.View)
    (regex : JS.RegExp) (m : nat * string) :
  Wait.pattern c = Some regex ->
  JS.exec regex (Wait.historyAll v) = Some m ->
  Wait.resolutions (Wait.waitFor c v)
  = [Wait.mkResult Wait.pattern_ (Some m) None (Wait.historyAll v)].
Proof.
  intros Hp Hm. unfold Wait.waitFor, Wait.checkPattern. rewrite Hp, Hm.
  reflexivity.
Qed.

(** On live output the order is the other one: a chunk that matches both
    resolves with [rejected]. *)
Lemma onOutput_not_first (c : Wait.WaitCondition) (w : Wait.State)
    (data : string) (notRegex : JS.RegExp) (m : nat * string) :
  Wait.resolved w = false ->
  Wait.not c = Some notRegex ->
  JS.exec notRegex (JS.str_last Wait.scanTailLimit (Wait.scanTail w ++ data)%string)
    = Some m ->
  Wait.resolutions (Wait.onOutput c data w)
  = Wait.resolutions w
    ++ [Wait.mkResult Wait.rejected_ (Some m) None (Wait.outputBuffer w ++ data)%string].
Proof.
  intros Hr Hn Hm. unfold Wait.onOutput. cbn zeta.
  cbn [Wait.set_buffers Wait.scanTail Wait.outputBuffer].
  rewrite Hn, Hm. unfold Wait.finish. cbn. rewrite Hr. reflexivity.
Qed.

(** C1 on the code: the child wrote "error then success"; a wait for
    "success" that must fail on "error" is then issued.  Both patterns match
    the history, and the wait resolves with [pattern], not [rejected]. *)
Theorem waitFor_precheck_pattern_beats_not :
  let s := Session.onData Session.noEnv 5 ("error then success" ++ JS.NL)%string
             Session.sample in
  let v := Wait.view s "" false in
  JS.exec (JS.literal false "error") (Wait.historyAll v) = Some (0, "error")
  /\ JS.exec (JS.literal false "success") (Wait.historyAll v) = Some (11, "success")
  /\ map Wait.reason (Wait.resolutions (Wait.waitFor Wait.successNotError v))
     = [Wait.pattern_].
Proof. cbn zeta. repeat split. Qed.

Section WaitFacts.

Variable c : Wait.WaitCondition.

(** The first call of [finish] settles the wait. *)
Lemma finish_first (r : Wait.WaitResult) (w : Wait.State) :
  Wait.resolved w = false ->
  Wait.resolutions w = [] ->
  Wait.settled (Wait.finish r w) /\ Wait.resolutions (Wait.finish r w) = [r].
Proof.
  intros Hr Hn. unfold Wait.finish. rewrite Hr. cbn. rewrite Hn.
  repeat split.
Qed.

Lemma finish_pending (r : Wait.WaitResult) (w : Wait.State) :
  Wait.pending c w -> Wait.settled (Wait.finish r w).
Proof. intros (Hr & Hn & _). now apply finish_first. Qed.

(** Closes a goal about a state that [finish] settles or that is still
    pending; buffers and the other timers do not matter. *)
Ltac settle H :=
  first [ right; exact H | left; apply finish_pending; exact H ].

Lemma checkExited_inv (v : Wait.View) (w : Wait.State) :
  Wait.pending c w ->
  Wait.settled (Wait.checkExited c v w) \/ Wait.pending c (Wait.checkExited c v w).
Proof.
  intros H. unfold Wait.checkExited.
  destruct (negb (Wait.alive v) && Wait.exit c); settle H.
Qed.

Lemma checkReady_inv (v : Wait.View) (w : Wait.State) :
  Wait.pending c w ->
  Wait.settled (Wait.checkReady c v w) \/ Wait.pending c (Wait.checkReady c v w).
Proof.
  intros H. unfold Wait.checkReady.
  destruct (Wait.ready c); [destruct (negb (Wait.foreground v))|];
    try settle H; apply checkExited_inv; exact H.
Qed.

Lemma checkScreen_inv (v : Wait.View) (w : Wait.State) :
  Wait.pending c w ->
  Wait.settled (Wait.checkScreen c v w) \/ Wait.pending c (Wait.checkScreen c v w).
Proof.
  intros H. unfold Wait.checkScreen.
  destruct (Wait.screenPattern c) as [regex|];
    [destruct (JS.exec regex (Wait.captured v))|];
    try settle H; apply checkReady_inv; exact H.
Qed.

Lemma checkNot_inv (v : Wait.View) (w : Wait.State) :
  Wait.pending c w ->
  Wait.settled (Wait.checkNot c v w) \/ Wait.pending c (Wait.checkNot c v w).
Proof.
  intros H. unfold Wait.checkNot.
  destruct (Wait.not c) as [regex|];
    [destruct (JS.exec regex (Wait.historyAll v))|];
    try settle H; apply checkScreen_inv; exact H.
Qed.

Lemma checkPattern_inv (v : Wait.View) (w : Wait.State) :
  Wait.pending c w ->
  Wait.settled (Wait.checkPattern c v w) \/ Wait.pending c (Wait.checkPattern c v w).
Proof.
  intros H. unfold Wait.checkPattern.
  destruct (Wait.pattern c) as [regex|];
    [destruct (JS.exec regex (Wait.historyAll v))|];
    try settle H; apply checkNot_inv; exact H.
Qed.

(** When the executor returns, the wait is settled or pending. *)
Lemma waitFor_inv (v : Wait.View) :
  Wait.settled (Wait.waitFor c v) \/ Wait.pending c (Wait.waitFor c v).
Proof.
  unfold Wait.waitFor. apply checkPattern_inv. repeat split.
Qed.

(** A settled wait ignores every event. *)
Lemma step_settled (w : Wait.State) (e : Wait.Event) :
  Wait.settled w -> Wait.step c w e = w.
Proof.
  intros (_ & _ & Hi & Ht & Hp & Ho & He & Hs).
  destruct e; cbn [Wait.step]; rewrite ?Hi, ?Ht, ?Hp, ?Ho, ?He, ?Hs; reflexivity.
Qed.

Lemma run_settled (evs : list Wait.Event) (w : Wait.State) :
  Wait.settled w -> Wait.run c evs w = w.
Proof.
  intros H. induction evs as [|e evs IH]; [reflexivity|].
  cbn [Wait.run fold_left]. rewrite step_settled by assumption. exact IH.
Qed.

(** An event leaves a pending wait pending or settles it. *)
Lemma step_pending (w : Wait.State) (e : Wait.Event) :
  Wait.pending c w ->
  Wait.settled (Wait.step c w e) \/ Wait.pending c (Wait.step c w e).
Proof.
  intros H. destruct e as [data|code|content| | |isAlive fg]; cbn [Wait.step].
  - destruct (Wait.onOutputSubscribed w); [|settle H].
    unfold Wait.onOutput, Wait.resetIdleTimer. cbn zeta.
    destruct (Wait.not c) as [notRegex|];
      [destruct (JS.exec notRegex _)|];
      try settle H;
      (destruct (Wait.pattern c) as [regex|];
       [destruct (JS.exec regex _)|]);
      settle H.
  - destruct (Wait.onExitSubscribed w); [|settle H].
    unfold Wait.onExit.
    destruct (Wait.exit c); [settle H|]. destruct (Wait.ready c); settle H.
  - destruct (Wait.onScreenSubscribed w); [|settle H].
    unfold Wait.onScreen.
    destruct (Wait.screenPattern c) as [regex|]; [|settle H].
    destruct (JS.exec regex content); settle H.
  - destruct (Wait.idleTimer w); settle H.
  - destruct H as (Hr & Hn & Ht).
    destruct (Wait.timeoutTimer w) eqn:Et;
      [|right; repeat split; congruence].
    left. now apply finish_first.
  - destruct (Wait.readyPollTimer w); [|settle H].
    destruct (negb isAlive); [settle H|].
    destruct (negb fg); settle H.
Qed.

(** Every state that a wait reaches is settled or pending. *)
Lemma run_inv (evs : list Wait.Event) (w : Wait.State) :
  Wait.settled w \/ Wait.pending c w ->
  Wait.settled (Wait.run c evs w) \/ Wait.pending c (Wait.run c evs w).
Proof.
  revert w. induction evs as [|e evs IH]; intros w H; [exact H|].
  cbn [Wait.run fold_left]. apply IH. destruct H as [H|H].
  - left. rewrite step_settled; assumption.
  - apply step_pending. exact H.
Qed.

End WaitFacts.

(** The part of C2 that the code keeps: for a wait whose timeout [T] is
    positive, in every state reached after any events [resolve] was called
    at most once.
    Once resolved it was called exactly once, no timer is armed, no handler
    is subscribed and further events change nothing, so the first condition
    that fired stands.  While the wait is not resolved the timeout timer
    stays armed for [T] ms, and its firing resolves the wait with [timeout]:
    the wait is resolved no later than that timer fires. *)
Theorem waitFor_resolves_once (c : Wait.WaitCondition) (v : Wait.View)
    (evs : list Wait.Event) (T : nat) :
  Wait.timeout c = Some T ->
  0 < T ->
  let w := Wait.run c evs (Wait.waitFor c v) in
  List.length (Wait.resolutions w) <= 1
  /\ (Wait.resolved w = true ->
      List.length (Wait.resolutions w) = 1
      /\ Wait.detached w
      /\ forall more, Wait.run c more w = w)
  /\ (Wait.resolved w = false ->
      Wait.resolutions w = []
      /\ Wait.timeoutTimer w = Some T
      /\ let w' := Wait.step c w Wait.TimeoutElapsed in
         Wait.resolved w' = true
         /\ map Wait.reason (Wait.resolutions w') = [Wait.timeout_]
         /\ Wait.detached w').
Proof.
  intros HT Hpos w.
  pose proof (run_inv c evs (Wait.waitFor c v) (waitFor_inv c v)) as Hinv.
  fold w in Hinv. clearbody w. destruct Hinv as [Hs|Hp].
  - pose proof Hs as (Hr & Hn & Hd). split; [lia|]. split.
    + intros _. repeat split; try apply Hd; try assumption.
      intros more. now apply run_settled.
    + congruence.
  - pose proof Hp as (Hr & Hn & Ht). split; [rewrite Hn; cbn; lia|]. split.
    + congruence.
    + intros _. rewrite HT in Ht. destruct T as [|T]; [lia|]. cbn in Ht.
      split; [assumption|]. split; [assumption|].
      cbn [Wait.step]. rewrite Ht.
      destruct (finish_first
                  (Wait.mkResult Wait.timeout_ None None
                     (Wait.outputBuffer
                        (Wait.set_timers (Wait.idleTimer w) None
                           (Wait.readyPollTimer w) w)))
                  (Wait.set_timers (Wait.idleTimer w) None
                     (Wait.readyPollTimer w) w) Hr Hn)
        as ((Hr' & _ & Hd') & Hn').
      cbn zeta. rewrite Hn'. repeat split; try apply Hd'; assumption.
Qed.

(** A wait with a timeout of 100 ms and no other condition on a silent
    session: the timer fires, the wait resolves with [timeout], and the
    chunk that arrives afterwards is dropped. *)
Lemma waitFor_resolves_once_witness :
  let c := Wait.onlyTimeout 100 in
  let v := Wait.view Session.sample "" false in
  let w := Wait.run c [Wait.Output "x"; Wait.TimeoutElapsed; Wait.Output "late"]
             (Wait.waitFor c v) in
  Wait.resolved w = true
  /\ List.length (Wait.resolutions w) = 1
  /\ Wait.detached w.
Proof.
  cbn zeta.
  pose proof (waitFor_resolves_once (Wait.onlyTimeout 100)
                (Wait.view Session.sample "" false)
                [Wait.Output "x"; Wait.TimeoutElapsed; Wait.Output "late"]
                100 eq_refl) as H.
  assert (Hpos : 0 < 100) by lia.
  destruct (H Hpos) as (_ & Hres & _).
  destruct (Hres eq_refl) as (Hone & Hdet & _).
  exact (conj eq_refl (conj Hone Hdet)).
Defined.

Lemma zero_timeout_step (w : Wait.State) (e : Wait.Event) :
  Wait.resolved w = false /\ Wait.idleTimer w = None
  /\ Wait.timeoutTimer w = None /\ Wait.readyPollTimer w = false ->
  let w' := Wait.step (Wait.onlyTimeout 0) w e in
  Wait.resolved w' = false /\ Wait.idleTimer w' = None
  /\ Wait.timeoutTimer w' = None /\ Wait.readyPollTimer w' = false.
Proof.
  intros (Hr & Hi & Ht & Hp).
  destruct w as [ob sb st it tt rp rs so se ss rl]. cbn in Hr, Hi, Ht, Hp. subst.
  destruct e; cbn -[JS.str_last];
    try match goal with
        | |- context [if ?b then _ else _] => destruct b
        end; cbn -[JS.str_last]; auto.
Qed.

(** With a timeout of 0 and no other condition no timer is armed and no
    event resolves the wait. *)
Lemma zero_timeout_dormant (evs : list Wait.Event) :
  forall w : Wait.State,
    Wait.resolved w = false /\ Wait.idleTimer w = None
    /\ Wait.timeoutTimer w = None /\ Wait.readyPollTimer w = false ->
    Wait.resolved (Wait.run (Wait.onlyTimeout 0) evs w) = false.
Proof.
  induction evs as [|e evs IH]; intros w H; [apply H|].
  cbn [Wait.run fold_left]. apply IH. now apply zero_timeout_step.
Qed.

(** C2 fails in the code: the timer is armed under [if (condition.timeout)],
    which reads a timeout of 0 as none, so a wait request whose timeout is 0,
    with no other condition, arms no timer and is never resolved, whatever
    happens afterwards. *)
Lemma waitFor_zero_timeout_never_resolves :
  ~ exists evs : list Wait.Event,
      Wait.resolved
        (Wait.run (Wait.onlyTimeout 0) evs
           (Wait.waitFor (Wait.onlyTimeout 0) (Wait.view Session.sample "" false)))
      = true.
Proof.
  intros (evs & H).
  rewrite zero_timeout_dormant in H by (repeat split). discriminate H.
Qed.

(* ================================================================== *)
(** ** Further properties of the history buffer *)
(* ================================================================== *)

(** Where the text is cut into chunks does not matter: appending [a] and
    then [b] leaves the same lines and the same partial line as appending
    [a ++ b] at once, from any state. *)
Theorem append_chunking (h : History.t) (t1 t2 t : Z) (a b : string) :
  let two := History.append t2 b (History.append t1 a h) in
  let one := History.append t (a ++ b)%string h in
  History.lines two = History.lines one
  /\ History.currentLine two = History.currentLine one
  /\ History.limit two = History.limit one.
Proof.
  cbn zeta. unfold History.append.
  cbn [History.lines History.currentLine History.limit].
  fold (History.completeLines (History.currentLine h ++ a)%string).
  fold (History.partialLine (History.currentLine h ++ a)%string).
  fold (History.completeLines
          (History.partialLine (History.currentLine h ++ a) ++ b)%string).
  fold (History.partialLine
          (History.partialLine (History.currentLine h ++ a) ++ b)%string).
  fold (History.completeLines (History.currentLine h ++ (a ++ b))%string).
  fold (History.partialLine (History.currentLine h ++ (a ++ b))%string).
  rewrite <- (string_app_assoc (History.currentLine h) a b).
  set (ca := (History.currentLine h ++ a)%string).
  rewrite (completeLines_app ca b), (partialLine_app ca b), fold_left_app.
  repeat split.
Qed.

Lemma join_snoc_empty (sep x : string) (l : list string) :
  JS.join sep ((x :: l) ++ [""]) = (JS.join sep (x :: l) ++ sep)%string.
Proof.
  unfold JS.join. revert x. induction l as [|y l IH]; intros x.
  - cbn. now rewrite string_app_nil_r.
  - change (String.concat sep ((x :: y :: l) ++ [""]))
      with (x ++ sep ++ String.concat sep ((y :: l) ++ [""]))%string.
    rewrite IH.
    change (String.concat sep (x :: y :: l))
      with (x ++ sep ++ String.concat sep (y :: l))%string.
    now rewrite !string_app_assoc.
Qed.

(** [getAll()] gives back the text appended, less one final newline: as
    long as no line was evicted, it is the text itself when the text does
    not end with a newline, and the text is [getAll()] followed by a newline
    when it does. *)
Theorem getAll_roundtrip (N : nat) (track : bool) (ds : list (Z * string)) :
  let text := History.written ds in
  let h := History.append_all ds (History.new N track) in
  List.length (History.completeLines text) <= N ->
  (History.partialLine text <> "" -> History.getAll h = text)
  /\ (History.partialLine text = "" -> text <> "" ->
      (History.getAll h ++ JS.NL)%string = text).
Proof.
  intros text h Hfit.
  destruct (append_all_closed_form N track ds) as (Hl & Hc & _).
  fold h in Hl, Hc. fold text in Hl, Hc.
  rewrite lastn_short in Hl by exact Hfit.
  pose proof (lines_and_partial_roundtrip text) as Hrt.
  unfold History.getAll, History.all. rewrite Hl, Hc. split.
  - intros Hp. destruct (History.partialLine text); [contradiction|].
    exact Hrt.
  - intros Hp Hne. rewrite Hp in *. cbn [JS.truthy].
    destruct (History.completeLines text) as [|x l].
    + cbn in Hrt. congruence.
    + rewrite join_snoc_empty in Hrt. exact Hrt.
Qed.

Lemma getAll_roundtrip_witness :
  let ds := [(1%Z, "ab"); (2%Z, ("c" ++ JS.NL ++ "d" ++ JS.NL)%string)] in
  (History.getAll (History.append_all ds (History.new 5 true)) ++ JS.NL)%string
  = History.written ds.
Proof.
  cbn zeta.
  assert (Hfit : List.length
                   (History.completeLines
                      (History.written
                         [(1%Z, "ab"); (2%Z, ("c" ++ JS.NL ++ "d" ++ JS.NL)%string)]))
                 <= 5) by (cbn; lia).
  exact (proj2 (getAll_roundtrip 5 true _ Hfit) eq_refl
           ltac:(discriminate)).
Defined.

Lemma slice_from_end {A : Type} (n : nat) (l : list A) :
  JS.slice (- Z.of_nat n) None l = if n =? 0 then l else History.lastn n l.
Proof.
  unfold JS.slice, JS.clamp_index, History.lastn.
  destruct n as [|n].
  - cbn [Z.of_nat Z.opp Z.ltb Z.compare Nat.eqb Z.to_nat Nat.min skipn].
    rewrite Nat.sub_0_r. apply firstn_all.
  - cbn [Nat.eqb].
    replace (- Z.of_nat (S n) <? 0)%Z with true by (symmetry; apply Z.ltb_lt; lia).
    replace (Z.to_nat (Z.max (Z.of_nat (List.length l) + - Z.of_nat (S n)) 0))
      with (List.length l - S n) by lia.
    rewrite <- (length_skipn (List.length l - S n) l) at 1.
    replace (List.length l - (List.length l - S n))
      with (List.length (skipn (List.length l - S n) l))
      by (rewrite length_skipn; lia).
    apply firstn_all.
Qed.

(** [tail(n)] for [n >= 0]: the last [n] of the lines and the partial line,
    except that [tail(0)] returns them all, since [slice(-0)] is
    [slice(0)]; so does a [tail(n)] that asks for at least [lineCount()]
    lines. *)
Theorem tail_last_lines (n : nat) (h : History.t) :
  History.tail (Z.of_nat n) h
  = JS.join JS.NL (if n =? 0 then History.all h else History.lastn n (History.all h))
  /\ History.tail 0 h = History.getAll h
  /\ (History.lineCount h <= n -> History.tail (Z.of_nat n) h = History.getAll h).
Proof.
  assert (Hgen : forall k, History.tail (Z.of_nat k) h
                   = JS.join JS.NL (if k =? 0 then History.all h
                                    else History.lastn k (History.all h))).
  { intros k. unfold History.tail. now rewrite slice_from_end. }
  split; [apply Hgen|]. split; [exact (Hgen 0)|].
  intros Hall. rewrite Hgen. unfold History.getAll.
  destruct (n =? 0); [reflexivity|].
  rewrite lastn_short; [reflexivity|].
  unfold History.lineCount, History.all in *.
  destruct (JS.truthy (History.currentLine h));
    rewrite ?length_app; cbn [List.length]; lia.
Qed.

(** Two histories with the same lines, partial line and capacity stay so
    under the same appends. *)
Lemma append_all_content (ds : list (Z * string)) :
  forall h1 h2 : History.t,
    History.lines h1 = History.lines h2 ->
    History.currentLine h1 = History.currentLine h2 ->
    History.limit h1 = History.limit h2 ->
    History.lines (History.append_all ds h1) = History.lines (History.append_all ds h2)
    /\ History.currentLine (History.append_all ds h1)
       = History.currentLine (History.append_all ds h2)
    /\ History.limit (History.append_all ds h1) = History.limit (History.append_all ds h2).
Proof.
  induction ds as [|d ds IH]; intros h1 h2 Hl Hc Hn; [auto|].
  cbn [History.append_all fold_left].
  apply IH; unfold History.append;
    cbn [History.lines History.currentLine History.limit];
    rewrite ?Hl, ?Hc, ?Hn; reflexivity.
Qed.

(** [clear()] drops the lines and the partial line and keeps the capacity
    and the time of the last output: the history is empty, and appends after
    it retain the last [limit] complete lines of the text appended since. *)
Theorem clear_restarts (h : History.t) (ds : list (Z * string)) :
  let h' := History.append_all ds (History.clear h) in
  History.lineCount (History.clear h) = 0
  /\ History.getAll (History.clear h) = ""
  /\ History.lastOutputAt (History.clear h) = History.lastOutputAt h
  /\ History.lines h'
     = History.lastn (History.limit h) (History.completeLines (History.written ds))
  /\ History.currentLine h' = History.partialLine (History.written ds)
  /\ List.length (History.lines h') <= History.limit h.
Proof.
  cbn zeta. do 3 (split; [reflexivity|]).
  destruct (append_all_content ds (History.clear h)
              (History.new (History.limit h) true) eq_refl eq_refl eq_refl)
    as (Hl & Hc & _).
  destruct (append_all_closed_form (History.limit h) true ds) as (Hl' & Hc' & _).
  cbn zeta in Hl', Hc'. rewrite Hl, Hc, Hl', Hc'.
  repeat split. rewrite lastn_length. lia.
Qed.

Section SearchMore.

Variable re : JS.RegExp.

Lemma search_from_non_global (fuel : nat) (rest : list string) :
  JS.global re = false ->
  JS.sticky re = false ->
  forall (pre : list string) (cursor : nat),
    exists ms,
      History.search_from (S fuel) re (pre ++ rest) (List.length pre) rest cursor
      = Some ms
      /\ map History.line ms
         = filter (History.matchesLine re (pre ++ rest))
             (seq (List.length pre) (List.length rest))
      /\ forall m, In m ms ->
           JS.exec_at re (nth (History.line m) (pre ++ rest) "") 0
           = Some (History.column m, History.text m).
Proof.
  intros Hg Hy. induction rest as [|ln rest IH]; intros pre cursor.
  - exists []. repeat split. intros m [].
  - destruct (IH (pre ++ [ln]) cursor) as (later & Hs & Hlines & Hm).
    rewrite <- app_assoc, length_app in Hs, Hlines. cbn [app List.length] in Hs, Hlines.
    rewrite Nat.add_1_r in Hs, Hlines.
    rewrite <- app_assoc in Hm. cbn [app] in Hm.
    cbn [History.search_from History.scan_line]. unfold JS.builtinExec.
    rewrite Hg, Hy. cbn [orb].
    cbn [List.length seq filter]. unfold History.matchesLine at 1.
    rewrite nth_middle.
    destruct (JS.exec_at re ln 0) as [[idx txt]|] eqn:Ex.
    + rewrite Hs. eexists. split; [reflexivity|]. cbn [app map History.line].
      split; [now rewrite Hlines|].
      intros m [<-|Hin]; [|now apply Hm].
      cbn [History.line History.column History.text].
      now rewrite nth_middle.
    + rewrite Hs. eexists. split; [reflexivity|]. cbn [app].
      split; [exact Hlines|exact Hm].
Qed.

End SearchMore.

(** With an expression that is neither global nor sticky, [search] returns
    after one turn per line, with one match for each complete line the
    expression matches and none for the others, in the order of the lines;
    the column and text of each are those of the first match in its line.
    (A sticky expression carries [lastIndex] from one line to the next and
    is not covered.) *)
Theorem search_first_match_per_line (re : JS.RegExp) (h : History.t) (fuel : nat) :
  JS.global re = false ->
  JS.sticky re = false ->
  exists ms,
    History.search (S fuel) re h = Some ms
    /\ map History.line ms
       = filter (History.matchesLine re (History.lines h))
           (seq 0 (List.length (History.lines h)))
    /\ forall m, In m ms ->
         JS.exec_at re (nth (History.line m) (History.lines h) "") 0
         = Some (History.column m, History.text m).
Proof.
  intros Hg Hy.
  exact (search_from_non_global re fuel (History.lines h) Hg Hy [] (JS.lastIndex re)).
Qed.

Lemma search_first_match_per_line_witness :
  let h := History.append 0 ("foo bar" ++ JS.NL ++ "baz qux" ++ JS.NL
                             ++ "foo baz foo" ++ JS.NL)%string
             (History.new 10 true) in
  exists ms,
    History.search 1 (JS.literal false "foo") h = Some ms
    /\ map History.line ms = [0; 2].
Proof.
  cbn zeta.
  destruct (search_first_match_per_line (JS.literal false "foo")
              (History.append 0 ("foo bar" ++ JS.NL ++ "baz qux" ++ JS.NL
                                 ++ "foo baz foo" ++ JS.NL)%string
                 (History.new 10 true)) 0 eq_refl eq_refl) as (ms & Hs & Hl & _).
  exists ms. exact (conj Hs Hl).
Defined.

(** A sticky expression is another matter: on three lines "foo" the
    expression [/foo/y] matches the first, fails on the second at the
    [lastIndex] the first match left, and matches the third. *)
Example search_sticky_skips_a_line :
  option_map (map History.line)
    (History.search 1
       {| JS.global := false; JS.sticky := true; JS.lastIndex := 0;
          JS.exec_at := JS.exec_at (JS.literal false "foo") |}
       (History.append 0 ("foo" ++ JS.NL ++ "foo" ++ JS.NL ++ "foo" ++ JS.NL)%string
          (History.new 10 true)))
  = Some [0; 2].
Proof. reflexivity. Qed.

Lemma scan_line_empty_match_diverges (re : JS.RegExp) (ls : list string)
    (i : nat) (ln : string) :
  JS.global re = true ->
  JS.exec_at re ln 0 = Some (0, "") ->
  forall fuel, History.scan_line fuel re ls i ln 0 = None.
Proof.
  intros Hg Hm. induction fuel as [|fuel IH]; [reflexivity|].
  cbn [History.scan_line]. unfold JS.builtinExec.
  rewrite Hg, Hm. cbn [orb Nat.eqb negb String.length Nat.add].
  rewrite andb_false_r, IH. reflexivity.
Qed.

(** The loop of [search] only guards expressions that are not global: a
    global expression that matches the empty text at the start of the first
    complete line keeps its cursor at 0 and finds the same match again, so
    [search] returns with no number of turns. *)
Theorem search_empty_global_match_diverges (re : JS.RegExp) (h : History.t)
    (ln : string) (rest : list string) :
  History.lines h = ln :: rest ->
  JS.global re = true ->
  JS.exec_at re ln 0 = Some (0, "") ->
  forall fuel, History.search fuel re h = None.
Proof.
  intros Hl Hg Hm fuel. unfold History.search. rewrite Hl.
  cbn [History.search_from]. rewrite Hg.
  now rewrite (scan_line_empty_match_diverges re (ln :: rest) 0 ln Hg Hm fuel).
Qed.

Lemma search_empty_global_match_diverges_witness :
  History.search 1000 JS.emptyPattern
    (History.append 0 ("abc" ++ JS.NL)%string (History.new 10 true)) = None.
Proof.
  exact (search_empty_global_match_diverges JS.emptyPattern
           (History.append 0 ("abc" ++ JS.NL)%string (History.new 10 true))
           "abc" [] eq_refl eq_refl eq_refl 1000).
Defined.

(* ================================================================== *)
(** ** Further properties of the key codec *)
(* ================================================================== *)

(** [encodeKeys] of a concatenation: the encodings side by side, and the
    error of the first key that does not encode. *)
Theorem encodeKeys_app (ks1 ks2 : list Keys.KeyInput) :
  Keys.encodeKeys (ks1 ++ ks2)
  = match Keys.encodeKeys ks1 with
    | JS.Throw e => JS.Throw e
    | JS.Return a =>
        match Keys.encodeKeys ks2 with
        | JS.Throw e => JS.Throw e
        | JS.Return b => JS.Return (a ++ b)%string
        end
    end.
Proof.
  induction ks1 as [|k ks1 IH].
  - cbn [app Keys.encodeKeys]. destruct (Keys.encodeKeys ks2); reflexivity.
  - cbn [app Keys.encodeKeys]. destruct (Keys.encodeKey k) as [a|e]; [|reflexivity].
    rewrite IH. destruct (Keys.encodeKeys ks1) as [b|e]; [|reflexivity].
    destruct (Keys.encodeKeys ks2) as [c|e]; [|reflexivity].
    now rewrite string_app_assoc.
Qed.

(** For the arrows, Home, End and Tab the encoding tells the key and the
    modifiers apart: two modified keys among them with the same encoding are
    the same key with the same modifiers. *)
Theorem modified_navigation_keys_injective (k1 k2 : Keys.SpecialKey)
    (c1 a1 s1 m1 c2 a2 s2 m2 : bool) :
  Keys.takesModifiers k1 = true ->
  Keys.takesModifiers k2 = true ->
  Keys.encodeKey (Keys.Modified (Keys.mkModified (Keys.Sym k1) c1 a1 s1 m1))
  = Keys.encodeKey (Keys.Modified (Keys.mkModified (Keys.Sym k2) c2 a2 s2 m2)) ->
  k1 = k2 /\ c1 = c2 /\ a1 = a2 /\ s1 = s2 /\ m1 = m2.
Proof.
  intros H1 H2.
  destruct k1; try discriminate H1; destruct k2; try discriminate H2;
    clear H1 H2;
    destruct c1, a1, s1, m1, c2, a2, s2, m2;
    vm_compute; intros H; first [discriminate H | repeat split].
Qed.

Lemma modified_navigation_keys_injective_witness :
  Keys.encodeKey (Keys.Modified (Keys.mkModified (Keys.Sym Key.Home) true false true false))
  = JS.Return (Keys.esc "[1;6H")
  /\ (Key.Home = Key.Home /\ true = true /\ false = false /\ true = true /\ false = false).
Proof.
  split; [reflexivity|].
  exact (modified_navigation_keys_injective Key.Home Key.Home
           true false true false true false true false eq_refl eq_refl eq_refl).
Defined.

(** Under Ctrl (without Alt and Meta) a letter is sent as one control
    byte between 1 and 26, the same for the capital and the small letter and
    with or without Shift. *)
Theorem ctrl_letter_control_byte (ch : ascii) (sh : bool) :
  Keys.isLetter ch = true ->
  let n := nat_of_ascii (JS.lower ch) - 96 in
  1 <= n <= 26
  /\ Keys.encodeKey
       (Keys.Modified (Keys.mkModified (Keys.Str (String ch "")) true false sh false))
     = JS.Return (String (ascii_of_nat n) "")
  /\ Keys.encodeKey
       (Keys.Modified (Keys.mkModified (Keys.Str (String ch "")) true false sh false))
     = Keys.encodeKey
         (Keys.Modified (Keys.ctrlKey (Keys.Str (String (JS.lower ch) "")))).
Proof.
  intros Hl.
  destruct ch as [b0 b1 b2 b3 b4 b5 b6 b7];
    destruct b0, b1, b2, b3, b4, b5, b6, b7; try discriminate Hl;
    clear Hl; vm_compute; repeat split; repeat constructor.
Qed.

Lemma ctrl_letter_control_byte_witness :
  Keys.encodeKey
    (Keys.Modified (Keys.mkModified (Keys.Str "Z") true false true false))
  = JS.Return (String "026"%char "").
Proof.
  exact (proj1 (proj2 (ctrl_letter_control_byte "Z"%char true eq_refl))).
Defined.

(** Without Alt a character key is sent as it is, whatever Ctrl, Shift and
    Meta say, unless it is a single letter under Ctrl without Meta: Ctrl+1
    sends "1". *)
Theorem character_key_passthrough (s : string) (c sh me : bool) :
  (c = true -> me = false ->
   forall ch, s = String ch "" -> Keys.isLetter ch = false) ->
  Keys.encodeKey (Keys.Modified (Keys.mkModified (Keys.Str s) c false sh me))
  = JS.Return s.
Proof.
  intros Hnot. unfold Keys.encodeKey, Keys.ctrlLetter.
  cbn [Keys.key Keys.ctrl Keys.alt Keys.meta negb andb].
  destruct s as [|ch [|ch' s']]; try reflexivity.
  destruct c; [|reflexivity]. destruct me; [reflexivity|].
  cbn [negb andb]. specialize (Hnot eq_refl eq_refl ch eq_refl).
  unfold Keys.isLetter in Hnot. cbn zeta in Hnot. rewrite Hnot. reflexivity.
Qed.

Lemma character_key_passthrough_witness :
  Keys.encodeKey (Keys.Modified (Keys.ctrlKey (Keys.Str "1"))) = JS.Return "1".
Proof.
  apply (character_key_passthrough "1" true false false).
  intros _ _ ch Hch. injection Hch as <-. reflexivity.
Defined.

(** On a named key other than the arrows, Home, End and Tab, the only
    modifier combination that changes the bytes is Alt without Ctrl and
    Meta, which puts ESC in front; Ctrl, Shift and Meta are dropped. *)
Theorem named_key_modifiers (k : Keys.SpecialKey) (e : string) (c a sh me : bool) :
  Keys.takesModifiers k = false ->
  Keys.KEY_MAP k = Some e ->
  Keys.encodeKey (Keys.Modified (Keys.mkModified (Keys.Sym k) c a sh me))
  = JS.Return (if a && negb c && negb me then Keys.esc e else e).
Proof.
  intros Ht Hk.
  destruct k; try discriminate Ht; try discriminate Hk;
    injection Hk as <-; destruct c, a, sh, me; reflexivity.
Qed.

Lemma named_key_modifiers_witness :
  Keys.encodeKey (Keys.Modified (Keys.ctrlKey (Keys.Sym Key.F5)))
  = JS.Return (Keys.esc "[15~")
  /\ Keys.encodeKey (Keys.Modified (Keys.altKey (Keys.Sym Key.Enter)))
     = JS.Return (Keys.esc (String "013"%char "")).
Proof.
  split.
  - exact (named_key_modifiers Key.F5 _ true false false false eq_refl eq_refl).
  - exact (named_key_modifiers Key.Enter _ false true false false eq_refl eq_refl).
Defined.

(* ================================================================== *)
(** ** Further properties of the session *)
(* ================================================================== *)

Section SessionMore.

Variable env : Session.Env.

Lemma sameButWritten_refl (p : Session.Pty) : Session.sameButWritten p p.
Proof. destruct p; reflexivity. Qed.

Lemma sameButWritten_trans (p q r : Session.Pty) :
  Session.sameButWritten p q -> Session.sameButWritten q r ->
  Session.sameButWritten p r.
Proof.
  unfold Session.sameButWritten. intros Hq Hr. rewrite Hr, Hq. reflexivity.
Qed.

Lemma answer_rest (now : Z) (scan : string) (reqs : list string)
    (payload note : string) (s : Session.SessionImpl) :
  Session.sameButWritten (Session.ptyProcess s)
    (Session.ptyProcess (Session.answer env now scan reqs payload note s)).
Proof.
  unfold Session.answer, Session.reply, Session.writeRaw, Session.writeJsonlLog.
  destruct (existsb (JS.includes scan) reqs); [|apply sameButWritten_refl].
  destruct (Session.logTerminalQueries env);
    [destruct (Session.jsonlLogStream s)|]; reflexivity.
Qed.

(** [respondToTerminalQueries] in closed form: the replies are added to
    the input of the PTY, the scan tail is the last 64 characters scanned,
    and only the log may change besides. *)
Lemma respond_exact (now : Z) (data : string) (s : Session.SessionImpl) :
  exists l,
    Session.respondToTerminalQueries env now data s
    = Session.withIO
        (Session.withWritten
           (Session.written (Session.ptyProcess s)
            ++ Session.replies (Session.queryScanTail s ++ data)%string
                 (Session.rows s) (Session.cols s))
           (Session.ptyProcess s))
        l (JS.str_last 64 (Session.queryScanTail s ++ data)%string) s.
Proof.
  destruct (respond_frame env now data s) as (p & l & E & W).
  exists l. rewrite E. f_equal. rewrite <- W.
  assert (R : Session.sameButWritten (Session.ptyProcess s)
                (Session.ptyProcess (Session.respondToTerminalQueries env now data s))).
  { unfold Session.respondToTerminalQueries. cbn zeta.
    repeat (eapply sameButWritten_trans; [|apply answer_rest]).
    apply sameButWritten_refl. }
  rewrite E in R. exact R.
Qed.

(** The logging loop of [sendKeys] appends the log form of each key, in
    order, to the input history. *)
Lemma log_keys_exact (now : Z) (keys : list Keys.KeyInput) (s : Session.SessionImpl) :
  fold_left
    (fun s key =>
       Session.set_inputHistory
         (History.append now (Session.formatKeyInputForLog key)
            (Session.inputHistory s)) s)
    keys s
  = Session.set_inputHistory
      (History.append_all
         (map (fun key => (now, Session.formatKeyInputForLog key)) keys)
         (Session.inputHistory s)) s.
Proof.
  revert s. induction keys as [|k keys IH]; intros s.
  - destruct s; reflexivity.
  - cbn [fold_left map History.append_all]. rewrite IH. reflexivity.
Qed.

(** Splits a goal about [step] into the eleven inputs, with the replies of
    the PTY data callback and the logging loop of [sendKeys] already in
    closed form, and takes the session apart. *)
Ltac by_input s i :=
  destruct i as [now data|now code| |now data|now key|now keys|sig|c r o|k h|k h| ];
  cbn [Session.step];
  [ unfold Session.onData; cbn zeta;
    let l := fresh "l" in
    destruct (respond_exact now data s) as (l & ->)
  | | | |
  | unfold Session.sendKeys; rewrite (log_keys_exact now keys s)
  | | | | | ];
  unfold Session.onExit, Session.onEngineFlushed, Session.send, Session.sendKey,
    Session.sendKeys, Session.kill, Session.resize, Session.on, Session.off,
    Session.dispose, Session.kill, Session.writeJsonlLog,
    Session.closeJsonlLogStream, Session.engineWrite, Session.emitEvent,
    Session.writeRaw;
  destruct s as [sid sname spid scwd screated live code0 pty eng hist ihist
                 logging log oh eh sh scols srows qtail dl em];
  cbn -[History.append History.append_all Session.formatKeyInputForLog
        JS.str_last Keys.encodeKey Keys.encodeKeys] in *.

(** Decides the tests that are left in a goal produced by [by_input]. *)
Ltac split_tests :=
  repeat match goal with
         | |- context [match ?x with _ => _ end] =>
             destruct x;
             cbn -[History.append History.append_all
                   Session.formatKeyInputForLog JS.str_last
                   Keys.encodeKey Keys.encodeKeys] in *
         end.

(** A dead session stays dead. *)
Lemma step_stays_dead (s : Session.SessionImpl) (i : Session.Input) :
  Session.isAlive s = false -> Session.isAlive (Session.step env s i) = false.
Proof.
  intros H. by_input s i; subst; split_tests; reflexivity.
Qed.

Lemma run_stays_dead (tr : list Session.Input) :
  forall s, Session.isAlive s = false ->
            Session.isAlive (Session.run env tr s) = false.
Proof.
  induction tr as [|i tr IH]; intros s H; [exact H|].
  cbn [Session.run fold_left]. apply IH. now apply step_stays_dead.
Qed.

(** Once the child has exited the session never comes back to life, and
    [send], [sendKey] and [sendKeys] throw the not-alive error without
    logging or writing anything: the session is left as it was. *)
Theorem dead_session_rejects_input (s : Session.SessionImpl) (now : Z) :
  Session.isAlive s = false ->
  (forall data, Session.send now data s
                = (s, JS.Throw (Session.NotAlive (Session.id s))))
  /\ (forall key, Session.sendKey now key s
                  = (s, JS.Throw (Session.NotAlive (Session.id s))))
  /\ (forall keys, Session.sendKeys now keys s
                   = (s, JS.Throw (Session.NotAlive (Session.id s))))
  /\ (forall tr, Session.isAlive (Session.run env tr s) = false).
Proof.
  intros H. repeat split; intros;
    unfold Session.send, Session.sendKey, Session.sendKeys;
    rewrite ?H; try reflexivity.
  now apply run_stays_dead.
Qed.




Lemma step_logging_off (s : Session.SessionImpl) (i : Session.Input) :
  Session.logInput s = false ->
  Session.logInput (Session.step env s i) = false
  /\ Session.inputHistory (Session.step env s i) = Session.inputHistory s.
Proof.
  intros H. by_input s i; subst; split_tests; split; reflexivity.
Qed.

(** With input logging disabled (UMUX_LOG_INPUT set to 0, false, no or
    off, in any case and with spaces around), nothing that is sent is
    recorded: over any run the input history of a spawned session stays
    empty. *)
Theorem input_logging_off_records_nothing
    (newId processCwd : string) (now : Z) (childPid : nat) (command : string)
    (options : Session.SpawnOptions) (historyLimit : nat) (logDir : string)
    (factory : option Session.TerminalEngineFactory)
    (tr : list Session.Input) (raw : string) :
  Session.UMUX_LOG_INPUT env = Some raw ->
  JS.member (JS.toLowerCase (JS.trim raw)) ["0"; "false"; "no"; "off"] = true ->
  Session.inputHistory
    (Session.run env tr
       (Session.new env newId processCwd now childPid command options
          historyLimit logDir factory))
  = History.new historyLimit false.
Proof.
  intros Hraw Hoff.
  assert (Hgen : forall tr s, Session.logInput s = false ->
                   Session.inputHistory (Session.run env tr s)
                   = Session.inputHistory s).
  { clear. intros tr. induction tr as [|i tr IH]; intros s H; [reflexivity|].
    cbn [Session.run fold_left].
    destruct (step_logging_off s i H) as (H' & <-). now apply IH. }
  rewrite Hgen; [reflexivity|].
  unfold Session.new. cbn [Session.logInput].
  unfold Session.shouldLogInput. rewrite Hraw, Hoff. reflexivity.
Qed.

Lemma append_untimed (now : Z) (data : string) (h : History.t) :
  Session.untimed h -> Session.untimed (History.append now data h).
Proof.
  intros (Ht & Hl). unfold Session.untimed, History.append.
  cbn [History.trackLastOutputAt History.lastOutputAt]. rewrite Ht. auto.
Qed.

Lemma append_all_untimed (ds : list (Z * string)) :
  forall h, Session.untimed h -> Session.untimed (History.append_all ds h).
Proof.
  induction ds as [|d ds IH]; intros h H; [exact H|].
  cbn [History.append_all fold_left]. apply IH. now apply append_untimed.
Qed.

Lemma step_input_untimed (s : Session.SessionImpl) (i : Session.Input) :
  Session.untimed (Session.inputHistory s) ->
  Session.untimed (Session.inputHistory (Session.step env s i)).
Proof.
  intros H. by_input s i; split_tests;
    first [ assumption
          | apply append_untimed; assumption
          | apply append_all_untimed; assumption ].
Qed.

Lemma append_all_track (ds : list (Z * string)) :
  forall h, History.trackLastOutputAt (History.append_all ds h)
            = History.trackLastOutputAt h.
Proof.
  unfold History.append_all.
  induction ds as [|d ds IH]; intros h; [reflexivity|].
  cbn [fold_left]. now rewrite IH.
Qed.

Lemma append_all_snoc (ds : list (Z * string)) (d : Z * string) (h : History.t) :
  History.append_all (ds ++ [d]) h
  = History.append (fst d) (snd d) (History.append_all ds h).
Proof. unfold History.append_all. now rewrite fold_left_app. Qed.

Lemma append_all_last_time (N : nat) (ds : list (Z * string)) :
  History.lastOutputAt (History.append_all ds (History.new N true))
  = match rev ds with [] => None | d :: _ => Some (fst d) end.
Proof.
  destruct ds as [|d0 ds0] using rev_ind; [reflexivity|].
  rewrite append_all_snoc, rev_app_distr. cbn [rev app].
  unfold History.append. cbn [History.lastOutputAt].
  now rewrite append_all_track.
Qed.

(** The output history of a session carries the time of the last chunk the
    child wrote (none before the first chunk), whatever else happened since;
    the input history never carries a time. *)
Theorem last_output_time
    (newId processCwd : string) (now : Z) (childPid : nat) (command : string)
    (options : Session.SpawnOptions) (historyLimit : nat) (logDir : string)
    (factory : option Session.TerminalEngineFactory)
    (tr : list Session.Input) :
  let s := Session.run env tr
             (Session.new env newId processCwd now childPid command options
                historyLimit logDir factory) in
  History.lastOutputAt (Session.history s) = Session.lastChunkTime tr
  /\ History.lastOutputAt (Session.inputHistory s) = None.
Proof.
  cbn zeta. split.
  - rewrite run_history. unfold Session.new. cbn [Session.history].
    exact (append_all_last_time historyLimit (Session.childOutput tr)).
  - assert (Hgen : forall tr s, Session.untimed (Session.inputHistory s) ->
                     Session.untimed (Session.inputHistory (Session.run env tr s))).
    { clear. intros tr. induction tr as [|i tr IH]; intros s H; [exact H|].
      cbn [Session.run fold_left]. apply IH. now apply step_input_untimed. }
    apply Hgen. split; reflexivity.
Qed.

Lemma step_unsubscribed (s : Session.SessionImpl) (i : Session.Input) :
  Session.subscribes i = false ->
  Session.outputHandlers s = [] /\ Session.exitHandlers s = []
  /\ Session.screenHandlers s = [] ->
  (Session.outputHandlers (Session.step env s i) = []
   /\ Session.exitHandlers (Session.step env s i) = []
   /\ Session.screenHandlers (Session.step env s i) = [])
  /\ Session.delivered (Session.step env s i) = Session.delivered s.
Proof.
  intros Hi (Ho & He & Hs).
  by_input s i; try discriminate Hi; subst; split_tests;
    rewrite ?app_nil_r; repeat split.
Qed.

(** After [dispose()], as long as nobody subscribes again, no handler is
    called any more: the callbacks of the PTY and of the engine that still
    arrive find no subscriber. *)
Theorem disposed_session_is_silent (s : Session.SessionImpl)
    (tr : list Session.Input) :
  forallb (fun i => negb (Session.subscribes i)) tr = true ->
  let s' := Session.run env tr (Session.dispose s) in
  Session.delivered s' = Session.delivered s
  /\ Session.outputHandlers s' = [] /\ Session.exitHandlers s' = []
  /\ Session.screenHandlers s' = [].
Proof.
  intros Htr.
  assert (Hgen : forall tr s0,
            forallb (fun i => negb (Session.subscribes i)) tr = true ->
            Session.outputHandlers s0 = [] /\ Session.exitHandlers s0 = []
            /\ Session.screenHandlers s0 = [] ->
            Session.delivered (Session.run env tr s0) = Session.delivered s0
            /\ Session.outputHandlers (Session.run env tr s0) = []
            /\ Session.exitHandlers (Session.run env tr s0) = []
            /\ Session.screenHandlers (Session.run env tr s0) = []).
  { clear. intros tr. induction tr as [|i tr IH]; intros s0 Htr H0.
    - cbn. tauto.
    - cbn [forallb] in Htr. apply andb_prop in Htr. destruct Htr as (Hi & Htr).
      apply negb_true_iff in Hi.
      destruct (step_unsubscribed s0 i Hi H0) as (H1 & Hd).
      cbn [Session.run fold_left]. rewrite <- Hd. now apply IH. }
  cbn zeta.
  assert (Hd : Session.delivered (Session.dispose s) = Session.delivered s).
  { unfold Session.dispose, Session.kill, Session.closeJsonlLogStream.
    destruct s as [? ? ? ? ? live ? ? ? ? ? ? log ? ? ? ? ? ? ? ?].
    destruct live, log; reflexivity. }
  rewrite <- Hd. apply Hgen; [exact Htr|].
  unfold Session.dispose. cbn. tauto.
Qed.

End SessionMore.


Lemma dead_session_rejects_input_witness :
  Session.send 10%Z "ls" (Session.onExit 9 3%Z Session.sample)
  = (Session.onExit 9 3%Z Session.sample,
     JS.Throw (Session.NotAlive (Session.id (Session.onExit 9 3%Z Session.sample)))).
Proof.
  exact (proj1 (dead_session_rejects_input Session.noEnv
                  (Session.onExit 9 3%Z Session.sample) 10%Z eq_refl) "ls").
Defined.

Lemma input_logging_off_records_nothing_witness :
  Session.inputHistory
    (Session.run (Session.mkEnv None None (Some " OFF ") None None)
       [Session.Send 1%Z "ls"; Session.SendKey 2%Z (Keys.Text "x")]
       (Session.new (Session.mkEnv None None (Some " OFF ") None None)
          "s1" "/" 0%Z 7 "sh" Session.noOptions 100 "" None))
  = History.new 100 false.
Proof.
  exact (input_logging_off_records_nothing
           (Session.mkEnv None None (Some " OFF ") None None)
           "s1" "/" 0%Z 7 "sh" Session.noOptions 100 "" None
           [Session.Send 1%Z "ls"; Session.SendKey 2%Z (Keys.Text "x")]
           " OFF " eq_refl eq_refl).
Defined.

Lemma disposed_session_is_silent_witness :
  let s := Session.on Session.output 7 (Session.on Session.exit 7 Session.sample) in
  Session.delivered
    (Session.run Session.noEnv [Session.PtyData 5 "late"; Session.PtyExit 6 0%Z]
       (Session.dispose s))
  = [].
Proof.
  cbn zeta.
  exact (proj1 (disposed_session_is_silent Session.noEnv
                  (Session.on Session.output 7 (Session.on Session.exit 7 Session.sample))
                  [Session.PtyData 5 "late"; Session.PtyExit 6 0%Z] eq_refl)).
Defined.

(* ================================================================== *)
(** ** sendKeys against sendKey *)
(* ================================================================== *)

Lemma join_empty_snoc (l : list string) (x : string) :
  JS.join "" (l ++ [x]) = (JS.join "" l ++ x)%string.
Proof.
  unfold JS.join. induction l as [|y l IH]; [reflexivity|].
  destruct l as [|z l].
  - reflexivity.
  - change (String.concat "" ((y :: z :: l) ++ [x]))
      with (y ++ String.concat "" ((z :: l) ++ [x]))%string.
    rewrite IH.
    change (String.concat "" (y :: z :: l))
      with (y ++ String.concat "" (z :: l))%string.
    now rewrite string_app_assoc.
Qed.

(** One [sendKey] of a key that encodes, on a live session. *)
Lemma sendKey_encoded (now : Z) (key : Keys.KeyInput) (bytes : string)
    (s : Session.SessionImpl) :
  Session.isAlive s = true ->
  Keys.encodeKey key = JS.Return bytes ->
  let s' := fst (Session.sendKey now key s) in
  Session.isAlive s' = true
  /\ Session.logInput s' = Session.logInput s
  /\ Session.inputHistory s'
     = (if Session.logInput s
        then History.append now (Session.formatKeyInputForLog key)
               (Session.inputHistory s)
        else Session.inputHistory s)
  /\ Session.written (Session.ptyProcess s')
     = Session.written (Session.ptyProcess s) ++ [bytes].
Proof.
  intros Ha He. unfold Session.sendKey, Session.writeJsonlLog, Session.writeRaw.
  rewrite He.
  destruct s as [? ? ? ? ? live ? ? ? ? ? logging log ? ? ? ? ? ? ? ?].
  cbn in Ha. subst live.
  destruct logging; [destruct log|]; cbn -[History.append]; repeat split.
Qed.

Lemma sendEach_encoded (now : Z) (keys : list Keys.KeyInput) :
  forall (bytes : string) (s : Session.SessionImpl),
    Session.isAlive s = true ->
    Keys.encodeKeys keys = JS.Return bytes ->
    Session.inputHistory (Session.sendEach now keys s)
    = (if Session.logInput s
       then History.append_all
              (map (fun key => (now, Session.formatKeyInputForLog key)) keys)
              (Session.inputHistory s)
       else Session.inputHistory s)
    /\ JS.join "" (Session.written (Session.ptyProcess (Session.sendEach now keys s)))
       = (JS.join "" (Session.written (Session.ptyProcess s)) ++ bytes)%string.
Proof.
  induction keys as [|k keys IH]; intros bytes s Ha He.
  - cbn in He. injection He as <-. cbn [Session.sendEach fold_left map].
    rewrite string_app_nil_r. destruct (Session.logInput s); split; reflexivity.
  - cbn [Keys.encodeKeys] in He.
    destruct (Keys.encodeKey k) as [b|] eqn:Ek; [|discriminate].
    destruct (Keys.encodeKeys keys) as [bs|] eqn:Eks; [|discriminate].
    injection He as <-.
    destruct (sendKey_encoded now k b s Ha Ek) as (Ha' & Hlog & Hin & Hw).
    unfold Session.sendEach. cbn [fold_left].
    fold (Session.sendEach now keys (fst (Session.sendKey now k s))).
    destruct (IH bs _ Ha' eq_refl) as (Hin' & Hw').
    rewrite Hin', Hw', Hlog, Hin, Hw, join_empty_snoc, string_app_assoc.
    destruct (Session.logInput s); split; reflexivity.
Qed.

(** [sendKeys] writes nothing unless every key encodes: if one key of the
    list is rejected, the call throws its error and the PTY receives none of
    the keys, not even those before it (their log forms were all recorded
    when input logging is on). *)
Theorem sendKeys_all_or_nothing (now : Z) (keys : list Keys.KeyInput)
    (e : Keys.KeyError) (s : Session.SessionImpl) :
  Session.isAlive s = true ->
  Keys.encodeKeys keys = JS.Throw e ->
  snd (Session.sendKeys now keys s) = JS.Throw (Session.KeyError e)
  /\ Session.ptyProcess (fst (Session.sendKeys now keys s)) = Session.ptyProcess s
  /\ Session.inputHistory (fst (Session.sendKeys now keys s))
     = (if Session.logInput s
        then History.append_all
               (map (fun key => (now, Session.formatKeyInputForLog key)) keys)
               (Session.inputHistory s)
        else Session.inputHistory s).
Proof.
  intros Ha He. unfold Session.sendKeys. rewrite He, log_keys_exact.
  unfold Session.writeJsonlLog.
  destruct s as [? ? ? ? ? live ? ? ? ? ? logging log ? ? ? ? ? ? ? ?].
  cbn in Ha. subst live.
  destruct logging; [destruct log|]; cbn -[History.append_all]; repeat split.
Qed.

Lemma sendKeys_all_or_nothing_witness :
  let r := Session.sendKeys 5 [Keys.Text "ls"; Keys.Special Key.Shift] Session.sample in
  snd r = JS.Throw (Session.KeyError (Keys.UnknownKey Key.Shift))
  /\ Session.written (Session.ptyProcess (fst r)) = []
  /\ Session.written
       (Session.ptyProcess
          (Session.sendEach 5 [Keys.Text "ls"; Keys.Special Key.Shift] Session.sample))
     = ["ls"].
Proof.
  cbn zeta.
  destruct (sendKeys_all_or_nothing 5 [Keys.Text "ls"; Keys.Special Key.Shift]
              (Keys.UnknownKey Key.Shift) Session.sample eq_refl eq_refl)
    as (Hr & Hp & _).
  split; [exact Hr|]. split; [now rewrite Hp|]. reflexivity.
Defined.

(** When every key encodes, [sendKeys] on a live session writes the
    encodings to the PTY as one chunk, the same bytes that [sendKey] writes
    key by key, and both leave the same input history. *)
Theorem sendKeys_agrees_with_sendKey (now : Z) (keys : list Keys.KeyInput)
    (bytes : string) (s : Session.SessionImpl) :
  Session.isAlive s = true ->
  Keys.encodeKeys keys = JS.Return bytes ->
  let one := fst (Session.sendKeys now keys s) in
  let each := Session.sendEach now keys s in
  snd (Session.sendKeys now keys s) = JS.Return tt
  /\ Session.written (Session.ptyProcess one)
     = Session.written (Session.ptyProcess s) ++ [bytes]
  /\ JS.join "" (Session.written (Session.ptyProcess each))
     = JS.join "" (Session.written (Session.ptyProcess one))
  /\ Session.inputHistory one = Session.inputHistory each.
Proof.
  intros Ha He.
  destruct (sendEach_encoded now keys bytes s Ha He) as (Hin & Hw).
  cbn zeta. rewrite Hin, Hw.
  unfold Session.sendKeys. rewrite He, log_keys_exact.
  unfold Session.writeJsonlLog, Session.writeRaw.
  destruct s as [? ? ? ? ? live ? pty ? ? ? logging log ? ? ? ? ? ? ? ?].
  cbn in Ha. subst live.
  destruct logging; [destruct log|]; cbn -[History.append_all JS.join];
    rewrite join_empty_snoc; repeat split.
Qed.

Lemma sendKeys_agrees_with_sendKey_witness :
  let keys := [Keys.Special Key.Escape; Keys.Text ":wq"; Keys.Special Key.Enter] in
  Session.written (Session.ptyProcess (fst (Session.sendKeys 5 keys Session.sample)))
  = [Keys.esc (":wq" ++ String "013"%char "")]
  /\ Session.inputHistory (fst (Session.sendKeys 5 keys Session.sample))
     = Session.inputHistory (Session.sendEach 5 keys Session.sample).
Proof.
  cbn zeta.
  destruct (sendKeys_agrees_with_sendKey 5
              [Keys.Special Key.Escape; Keys.Text ":wq"; Keys.Special Key.Enter]
              (Keys.esc (":wq" ++ String "013"%char "")) Session.sample
              eq_refl eq_refl) as (_ & Hw & _ & Hin).
  exact (conj Hw Hin).
Defined.

(* ================================================================== *)
(** ** Text scanned across chunk boundaries *)
(* ================================================================== *)

Section ScanFacts.

Lemma string_length_app (a b : string) :
  String.length (a ++ b)%string = String.length a + String.length b.
Proof. induction a as [|x a IH]; cbn; [reflexivity | now rewrite IH]. Qed.

Lemma substring_prefix (q y : string) :
  substring 0 (String.length q) (q ++ y)%string = q.
Proof.
  induction q as [|c q IH]; cbn.
  - destruct y; reflexivity.
  - now rewrite IH.
Qed.

Lemma substring_middle (x q y : string) :
  substring (String.length x) (String.length q) (x ++ q ++ y)%string = q.
Proof.
  induction x as [|c x IH]; cbn [String.length String.append substring].
  - apply substring_prefix.
  - exact IH.
Qed.

(** A text includes whatever occurs in it. *)
Lemma includes_occurrence (x q y : string) :
  JS.includes (x ++ q ++ y)%string q = true.
Proof.
  unfold JS.includes.
  destruct (index 0 q (x ++ q ++ y)%string) eqn:E; [reflexivity|].
  destruct q as [|c q]; [reflexivity|].
  exfalso.
  apply (index_correct3 0 (String.length x) _ _ E); [discriminate | lia |].
  apply substring_middle.
Qed.

(** The first occurrence of a text that occurs. *)
Lemma literal_finds_occurrence (x q y : string) :
  q <> "" ->
  exists k, JS.exec (JS.literal false q) (x ++ q ++ y)%string = Some (k, q).
Proof.
  intros Hq. unfold JS.exec, JS.literal. cbn [JS.exec_at].
  destruct (index 0 q (x ++ q ++ y)%string) as [k|] eqn:E.
  - exists k. reflexivity.
  - exfalso.
    apply (index_correct3 0 (String.length x) _ _ E); [assumption | lia |].
    apply substring_middle.
Qed.

Lemma substring_to_end (s : string) :
  forall k n, String.length s <= k + n ->
    exists pre, s = (pre ++ substring k n s)%string
                /\ String.length pre = Nat.min k (String.length s).
Proof.
  induction s as [|c s IH]; intros k n Hlen.
  - exists "". destruct k, n; split; reflexivity.
  - destruct k as [|k].
    + exists "". split; [|reflexivity]. cbn [String.append].
      destruct n as [|n]; [cbn in Hlen; lia|].
      cbn [substring]. f_equal.
      destruct (IH 0 n) as (pre & Hs & Hp); [cbn in Hlen |- *; lia|].
      destruct pre; [|cbn in Hp; discriminate]. exact Hs.
    + cbn [substring]. destruct (IH k n) as (pre & Hs & Hp); [cbn in Hlen; lia|].
      exists (String c pre). cbn [String.append String.length].
      split; [now rewrite <- Hs | now rewrite Hp].
Qed.

Lemma app_split_prefix (pre : string) :
  forall r z a, (pre ++ r)%string = (z ++ a)%string ->
    String.length pre <= String.length z ->
    exists z', z = (pre ++ z')%string /\ r = (z' ++ a)%string.
Proof.
  induction pre as [|c pre IH]; intros r z a Heq Hlen.
  - exists z. split; [reflexivity | exact Heq].
  - destruct z as [|d z]; [cbn in Hlen; lia|].
    cbn in Heq. injection Heq as -> Heq.
    destruct (IH r z a Heq) as (z' & -> & ->); [cbn in Hlen; lia|].
    exists z'. split; reflexivity.
Qed.

(** The last [n] characters of a text keep any ending of at most [n]
    characters whole. *)
Lemma str_last_keeps_ending (n : nat) (z a : string) :
  String.length a <= n ->
  exists z', JS.str_last n (z ++ a)%string = (z' ++ a)%string.
Proof.
  intros Ha. unfold JS.str_last.
  destruct (substring_to_end (z ++ a)%string
              (String.length (z ++ a)%string - n) n) as (pre & Hs & Hp); [lia|].
  rewrite !string_length_app in Hp.
  destruct (app_split_prefix pre _ z a (eq_sym Hs)) as (z' & _ & Hr).
  - rewrite Hp. lia.
  - exists z'. exact Hr.
Qed.

End ScanFacts.

Section QueryScan.

Variable env : Session.Env.

Lemma onData_scan_state (now : Z) (data : string) (s : Session.SessionImpl) :
  Session.queryScanTail (Session.onData env now data s)
  = JS.str_last 64 (Session.queryScanTail s ++ data)%string
  /\ Session.rows (Session.onData env now data s) = Session.rows s
  /\ Session.cols (Session.onData env now data s) = Session.cols s.
Proof.
  unfold Session.onData. cbn zeta.
  destruct (respond_exact env now data s) as (l & ->).
  unfold Session.writeJsonlLog, Session.engineWrite, Session.emitEvent.
  cbn [Session.jsonlLogStream Session.withIO].
  destruct l; cbn -[JS.str_last];
    destruct (Session.syncFlush (Session.terminalEngine s)); repeat split.
Qed.

Lemma recognized_query_short (q r : string) (rows cols : nat) :
  In (q, r) (Session.recognizedQueries rows cols) -> String.length q <= 64.
Proof.
  intros Hin. unfold Session.recognizedQueries in Hin. cbn [In] in Hin.
  repeat (destruct Hin as [Hin|Hin];
          [apply (f_equal fst) in Hin; cbn [fst] in Hin; subst q; cbn; lia|]).
  destruct Hin.
Qed.

(** The scan for terminal queries runs over the last 64 characters seen
    before the chunk followed by the chunk, so a recognized query is answered
    wherever the chunk boundary falls in it: when one chunk ends with the
    beginning of the query and the next starts with the rest, the reply is
    written as the second chunk arrives.  With the empty rest this also says
    that a query that ended the first chunk is answered once more on the
    next chunk. *)
Theorem query_across_chunks (now1 now2 : Z) (pre a b post r : string)
    (s : Session.SessionImpl) :
  In ((a ++ b)%string, r)
     (Session.recognizedQueries (Session.rows s) (Session.cols s)) ->
  let s1 := Session.onData env now1 (pre ++ a)%string s in
  let s2 := Session.onData env now2 (b ++ post)%string s1 in
  exists w,
    Session.written (Session.ptyProcess s2)
    = Session.written (Session.ptyProcess s1) ++ w
    /\ In r w.
Proof.
  intros Hin s1 s2.
  destruct (onData_scan_state now1 (pre ++ a)%string s) as (Ht & Hr & Hc).
  fold s1 in Ht, Hr, Hc.
  exists (Session.replies (Session.queryScanTail s1 ++ (b ++ post))%string
            (Session.rows s1) (Session.cols s1)).
  split; [apply onData_written|].
  apply (replies_recognized _ (a ++ b)%string); [now rewrite Hr, Hc|].
  rewrite Ht, <- (string_app_assoc (Session.queryScanTail s) pre a).
  destruct (str_last_keeps_ending 64 (Session.queryScanTail s ++ pre)%string a)
    as (z & ->).
  - pose proof (recognized_query_short _ _ _ _ Hin) as Hq.
    rewrite string_length_app in Hq. lia.
  - rewrite (string_app_assoc z a), <- (string_app_assoc a b post).
    apply includes_occurrence.
Qed.

End QueryScan.

Lemma query_across_chunks_witness :
  let s1 := Session.onData Session.noEnv 1 ("prompt" ++ String JS.ESC "[") Session.sample in
  let s2 := Session.onData Session.noEnv 2 "6n" s1 in
  exists w,
    Session.written (Session.ptyProcess s2)
    = Session.written (Session.ptyProcess s1) ++ w
    /\ In (Session.CSI "1;1R") w.
Proof.
  cbn zeta.
  apply (query_across_chunks Session.noEnv 1 2 "prompt" (String JS.ESC "[") "6n" ""
           (Session.CSI "1;1R") Session.sample).
  left. reflexivity.
Defined.

(* ================================================================== *)
(** ** Further properties of the wait resolver *)
(* ================================================================== *)



Section WaitMore.

Variable c : Wait.WaitCondition.

(** An event that leaves the wait unresolved found it unresolved, keeps the
    output handler subscribed and adds its chunk, if it is one, to the
    output buffer. *)
Lemma step_unresolved (w : Wait.State) (e : Wait.Event) :
  Wait.onOutputSubscribed w = true ->
  Wait.resolved (Wait.step c w e) = false ->
  Wait.resolved w = false
  /\ Wait.onOutputSubscribed (Wait.step c w e) = true
  /\ Wait.outputBuffer (Wait.step c w e)
     = (Wait.outputBuffer w ++ Wait.chunkOf e)%string.
Proof.
  intros Hsub Hres.
  destruct w as [ob sb st it tt rp rs so se ss rl]. cbn in Hsub. subst so.
  destruct rs.
  - exfalso. revert Hres.
    destruct e; cbn -[JS.str_last]; unfold Wait.onOutput, Wait.onExit,
      Wait.onScreen, Wait.finish, Wait.resetIdleTimer; cbn -[JS.str_last];
      repeat match goal with
             | |- context [match ?x with _ => _ end] =>
                 destruct x; cbn -[JS.str_last]
             end; discriminate.
  - revert Hres.
    destruct e; cbn -[JS.str_last]; unfold Wait.onOutput, Wait.onExit,
      Wait.onScreen, Wait.finish, Wait.resetIdleTimer; cbn -[JS.str_last];
      repeat match goal with
             | |- context [match ?x with _ => _ end] =>
                 destruct x; cbn -[JS.str_last]
             end;
      intros Hres; try discriminate Hres;
      rewrite ?string_app_nil_r; repeat split.
Qed.

Lemma step_keeps_resolved (w : Wait.State) (e : Wait.Event) :
  Wait.resolved w = true -> Wait.resolved (Wait.step c w e) = true.
Proof.
  intros Hr. destruct w as [ob sb st it tt rp rs so se ss rl]. cbn in Hr. subst rs.
  destruct e; cbn -[JS.str_last]; unfold Wait.onOutput, Wait.onExit,
    Wait.onScreen, Wait.finish, Wait.resetIdleTimer; cbn -[JS.str_last];
    repeat match goal with
           | |- context [match ?x with _ => _ end] =>
               destruct x; cbn -[JS.str_last]
           end; reflexivity.
Qed.

Lemma run_keeps_resolved (evs : list Wait.Event) :
  forall w, Wait.resolved w = true -> Wait.resolved (Wait.run c evs w) = true.
Proof.
  induction evs as [|e evs IH]; intros w Hr; [exact Hr|].
  cbn [Wait.run fold_left]. apply IH. now apply step_keeps_resolved.
Qed.

Lemma run_unresolved (evs : list Wait.Event) :
  forall w,
    Wait.onOutputSubscribed w = true ->
    Wait.resolved (Wait.run c evs w) = false ->
    Wait.outputBuffer (Wait.run c evs w)
    = (Wait.outputBuffer w ++ Wait.chunks evs)%string.
Proof.
  induction evs as [|e evs IH]; intros w Hsub Hres.
  - cbn. now rewrite string_app_nil_r.
  - cbn [Wait.run fold_left] in *. fold (Wait.run c evs (Wait.step c w e)) in *.
    assert (Hstep : Wait.resolved (Wait.step c w e) = false).
    { destruct (Wait.resolved (Wait.step c w e)) eqn:E; [|reflexivity].
      rewrite (run_keeps_resolved evs _ E) in Hres. discriminate. }
    destruct (step_unresolved w e Hsub Hstep) as (_ & Hsub' & Hbuf).
    rewrite (IH _ Hsub' Hres), Hbuf, string_app_assoc. reflexivity.
Qed.

Lemma waitFor_unresolved (v : Wait.View) :
  Wait.resolved (Wait.waitFor c v) = false ->
  Wait.onOutputSubscribed (Wait.waitFor c v) = true
  /\ Wait.outputBuffer (Wait.waitFor c v) = Wait.bufferAtStart c v.
Proof.
  unfold Wait.waitFor, Wait.checkPattern, Wait.checkNot, Wait.checkScreen,
    Wait.checkReady, Wait.checkExited, Wait.bufferAtStart.
  repeat match goal with
         | |- context [match ?x with _ => _ end] => destruct x eqn:?
         end;
    cbn; intros H; try discriminate H; split; reflexivity.
Qed.

(** As long as a wait is unresolved its output buffer holds, in order, the
    chunks that arrived since it was issued, after the history as [getAll()]
    gave it when a pattern or a "not" pattern was given (nothing otherwise);
    this is the [output] of the result when the timeout then fires. *)
Theorem unresolved_wait_output (v : Wait.View) (evs : list Wait.Event) (T : nat) :
  Wait.timeout c = Some (S T) ->
  let w := Wait.run c evs (Wait.waitFor c v) in
  Wait.resolved w = false ->
  Wait.outputBuffer w = (Wait.bufferAtStart c v ++ Wait.chunks evs)%string
  /\ Wait.resolutions (Wait.step c w Wait.TimeoutElapsed)
     = [Wait.mkResult Wait.timeout_ None None
          (Wait.bufferAtStart c v ++ Wait.chunks evs)%string].
Proof.
  intros HT w Hres.
  assert (Hstart : Wait.resolved (Wait.waitFor c v) = false).
  { destruct (Wait.resolved (Wait.waitFor c v)) eqn:E; [|reflexivity].
    unfold w in Hres. rewrite (run_keeps_resolved evs _ E) in Hres. discriminate. }
  destruct (waitFor_unresolved v Hstart) as (Hsub & Hbase).
  assert (Hbuf : Wait.outputBuffer w
                 = (Wait.bufferAtStart c v ++ Wait.chunks evs)%string).
  { unfold w. rewrite (run_unresolved evs _ Hsub Hres), Hbase. reflexivity. }
  split; [exact Hbuf|].
  destruct (run_inv c evs (Wait.waitFor c v) (waitFor_inv c v)) as [Hs|Hp].
  - destruct Hs as (Hr & _). fold w in Hr. congruence.
  - fold w in Hp. destruct Hp as (Hr & Hn & Ht).
    rewrite HT in Ht. cbn [Wait.positive] in Ht.
    cbn [Wait.step]. rewrite Ht.
    destruct (finish_first
                (Wait.mkResult Wait.timeout_ None None
                   (Wait.outputBuffer
                      (Wait.set_timers (Wait.idleTimer w) None
                         (Wait.readyPollTimer w) w)))
                (Wait.set_timers (Wait.idleTimer w) None
                   (Wait.readyPollTimer w) w) Hr Hn) as (_ & ->).
    cbn [Wait.outputBuffer Wait.set_timers]. now rewrite Hbuf.
Qed.

End WaitMore.

Lemma unresolved_wait_output_witness :
  let c := Wait.onlyTimeout 100 in
  let v := Wait.view Session.sample "" false in
  let w := Wait.run c [Wait.Output "ab"; Wait.Screen "ab"; Wait.Output "cd"]
             (Wait.waitFor c v) in
  map Wait.output (Wait.resolutions (Wait.step c w Wait.TimeoutElapsed)) = ["abcd"].
Proof.
  cbn zeta.
  destruct (unresolved_wait_output (Wait.onlyTimeout 100)
              (Wait.view Session.sample "" false)
              [Wait.Output "ab"; Wait.Screen "ab"; Wait.Output "cd"] 99
              eq_refl eq_refl) as (_ & ->).
  reflexivity.
Defined.

(** One chunk on a wait that has only a pattern: it resolves with the
    match found in the scan window, or keeps waiting with the window as its
    new tail. *)
Lemma onOutput_pattern_only (c : Wait.WaitCondition) (w : Wait.State)
    (data : string) (re : JS.RegExp) :
  Wait.pattern c = Some re ->
  Wait.not c = None ->
  Wait.resolved w = false ->
  Wait.resolutions w = [] ->
  let scan := JS.str_last Wait.scanTailLimit (Wait.scanTail w ++ data)%string in
  let w' := Wait.onOutput c data w in
  match JS.exec re scan with
  | Some m =>
      Wait.resolutions w'
      = [Wait.mkResult Wait.pattern_ (Some m) None (Wait.outputBuffer w ++ data)%string]
      /\ Wait.onOutputSubscribed w' = false
  | None =>
      Wait.resolved w' = false /\ Wait.resolutions w' = []
      /\ Wait.scanTail w' = scan
      /\ Wait.onOutputSubscribed w' = Wait.onOutputSubscribed w
  end.
Proof.
  intros Hp Hn Hr Hres.
  destruct w as [ob sb st it tt rp rs so se ss rl].
  cbn in Hr, Hres. subst rs rl.
  unfold Wait.onOutput. cbn zeta. rewrite Hp, Hn.
  cbn [Wait.set_buffers Wait.scanTail Wait.outputBuffer Wait.screenBuffer].
  destruct (JS.exec re (JS.str_last Wait.scanTailLimit (st ++ data))).
  - unfold Wait.finish. cbn -[JS.str_last Wait.scanTailLimit]. split; reflexivity.
  - unfold Wait.resetIdleTimer, Wait.set_timers.
    cbn -[JS.str_last Wait.scanTailLimit]. repeat split.
Qed.

(** Cross-chunk matching: with a literal pattern and no "not" pattern, a
    wait that is listening resolves with [pattern] when the pattern text is
    split between two chunks, provided the text from the match to the end of
    the second chunk fits in the scan window of 8192 characters (only the
    last 8192 characters of the rolling tail and the chunk are scanned). *)
Theorem pattern_across_chunks (c : Wait.WaitCondition) (w : Wait.State)
    (pre a b post : string) :
  Wait.pattern c = Some (JS.literal false (a ++ b)%string) ->
  Wait.not c = None ->
  (a ++ b)%string <> "" ->
  String.length ((a ++ b) ++ post)%string <= Wait.scanTailLimit ->
  Wait.resolved w = false ->
  Wait.resolutions w = [] ->
  Wait.onOutputSubscribed w = true ->
  map Wait.reason
      (Wait.resolutions
         (Wait.run c [Wait.Output (pre ++ a)%string; Wait.Output (b ++ post)%string] w))
  = [Wait.pattern_].
Proof.
  intros Hp Hn Hq Hfit Hr Hres Hsub.
  change (Wait.run c [Wait.Output (pre ++ a)%string; Wait.Output (b ++ post)%string] w)
    with (Wait.step c
            (if Wait.onOutputSubscribed w then Wait.onOutput c (pre ++ a)%string w else w)
            (Wait.Output (b ++ post)%string)).
  rewrite Hsub.
  pose proof (onOutput_pattern_only c w (pre ++ a)%string _ Hp Hn Hr Hres) as H1.
  cbn zeta in H1.
  set (w1 := Wait.onOutput c (pre ++ a)%string w) in *.
  destruct (JS.exec (JS.literal false (a ++ b))
              (JS.str_last Wait.scanTailLimit (Wait.scanTail w ++ pre ++ a)%string))
    as [m|].
  - destruct H1 as (Hres1 & Hsub1). cbn [Wait.step]. rewrite Hsub1, Hres1.
    reflexivity.
  - destruct H1 as (Hr1 & Hres1 & Htail1 & Hsub1).
    cbn [Wait.step]. rewrite Hsub1, Hsub.
    pose proof (onOutput_pattern_only c w1 (b ++ post)%string _ Hp Hn Hr1 Hres1) as H2.
    cbn zeta in H2. rewrite Htail1 in H2.
    rewrite <- (string_app_assoc (Wait.scanTail w) pre a) in H2.
    destruct (str_last_keeps_ending Wait.scanTailLimit
                (Wait.scanTail w ++ pre)%string a) as (z & Ez).
    { rewrite !string_length_app in Hfit. lia. }
    rewrite Ez in H2.
    rewrite (string_app_assoc z a), <- (string_app_assoc a b post) in H2.
    destruct (str_last_keeps_ending Wait.scanTailLimit z
                ((a ++ b) ++ post)%string Hfit) as (z' & Ez').
    rewrite Ez' in H2.
    destruct (literal_finds_occurrence z' (a ++ b)%string post Hq) as (k & Ek).
    rewrite Ek in H2. destruct H2 as (-> & _). reflexivity.
Qed.

Lemma pattern_across_chunks_witness :
  let c := Wait.mkCondition (Some (JS.literal false "READY")) None None false false
             (Some 5000) None in
  map Wait.reason
      (Wait.resolutions
         (Wait.run c [Wait.Output "boot RE"; Wait.Output ("ADY" ++ JS.NL)]
            (Wait.waitFor c (Wait.view Session.sample "" false))))
  = [Wait.pattern_].
Proof.
  cbn zeta.
  apply (pattern_across_chunks
           (Wait.mkCondition (Some (JS.literal false "READY")) None None false false
              (Some 5000) None)
           _ "boot " "RE" "ADY" JS.NL);
    try reflexivity; [discriminate | cbn; lia].
Defined.

(* ================================================================== *)
(** ** Properties of the session registry and the ready poller *)
(* ================================================================== *)

Section MapFacts.

Context {V : Type}.

Lemma map_get_set_same (k : string) (v : V) (m : list (string * V)) :
  JSMap.map_get k (JSMap.map_set k v m) = Some v.
Proof.
  induction m as [|[k' v'] m IH]; cbn.
  - now rewrite String.eqb_refl.
  - destruct (String.eqb k k') eqn:E; cbn.
    + now rewrite String.eqb_refl.
    + now rewrite E.
Qed.

Lemma map_get_set_other (k k' : string) (v : V) (m : list (string * V)) :
  k <> k' -> JSMap.map_get k (JSMap.map_set k' v m) = JSMap.map_get k m.
Proof.
  intros Hne. apply String.eqb_neq in Hne.
  induction m as [|[k2 v2] m IH]; cbn.
  - now rewrite Hne.
  - destruct (String.eqb k' k2) eqn:E; cbn.
    + apply String.eqb_eq in E. subst k2. now rewrite Hne.
    + now rewrite IH.
Qed.

Lemma map_get_delete_same (k : string) (m : list (string * V)) :
  JSMap.map_get k (JSMap.map_delete k m) = None.
Proof.
  unfold JSMap.map_delete.
  induction m as [|[k' v'] m IH]; cbn; [reflexivity|].
  destruct (String.eqb k k') eqn:E; cbn; [assumption|].
  now rewrite E.
Qed.

Lemma map_get_delete_other (k k' : string) (m : list (string * V)) :
  k <> k' -> JSMap.map_get k (JSMap.map_delete k' m) = JSMap.map_get k m.
Proof.
  intros Hne. apply String.eqb_neq in Hne. unfold JSMap.map_delete.
  induction m as [|[k2 v2] m IH]; cbn; [reflexivity|].
  destruct (String.eqb k' k2) eqn:E; cbn.
  - apply String.eqb_eq in E. subst k2. now rewrite Hne.
  - now rewrite IH.
Qed.

Lemma map_delete_absent (k : string) (m : list (string * V)) :
  JSMap.map_get k m = None -> JSMap.map_delete k m = m.
Proof.
  unfold JSMap.map_delete.
  induction m as [|[k' v'] m IH]; cbn; [reflexivity|].
  destruct (String.eqb k k') eqn:E; [discriminate|].
  intros H. cbn. now rewrite (IH H).
Qed.

End MapFacts.

(** After [destroySession(id)] the registry no longer knows the session:
    [getSession] finds nothing, [send], [sendKey], [sendKeys] and [kill]
    throw "Session not found" and change nothing, and a second
    [destroySession] does nothing.  The event [session:destroy] is emitted
    exactly when the session was registered. *)
Theorem destroyed_session_not_found (u : Registry.t) (sessionId data : string)
    (now : Z) (key : Keys.KeyInput) (keys : list Keys.KeyInput)
    (signal : option string) :
  let u' := fst (Registry.destroySession sessionId u) in
  Registry.getSession sessionId u' = None
  /\ Registry.send now sessionId data u'
     = (u', JS.Throw (Registry.SessionNotFound sessionId))
  /\ Registry.sendKey now sessionId key u'
     = (u', JS.Throw (Registry.SessionNotFound sessionId))
  /\ Registry.sendKeys now sessionId keys u'
     = (u', JS.Throw (Registry.SessionNotFound sessionId))
  /\ Registry.kill sessionId signal u'
     = (u', JS.Throw (Registry.SessionNotFound sessionId))
  /\ Registry.destroySession sessionId u' = (u', None)
  /\ Registry.emitted u'
     = Registry.emitted u
       ++ match Registry.getSession sessionId u with
          | Some _ => [Registry.session_destroy sessionId]
          | None => []
          end.
Proof.
  intros u'.
  assert (Hnone : Registry.getSession sessionId u' = None).
  { unfold u', Registry.destroySession, Registry.getSession.
    destruct (JSMap.map_get sessionId (Umux.sessions (Registry.umux u))) eqn:E;
      cbn; [apply map_get_delete_same | exact E]. }
  split; [exact Hnone|].
  unfold Registry.send, Registry.sendKey, Registry.sendKeys, Registry.kill.
  rewrite Hnone. repeat (split; [reflexivity|]).
  split.
  - unfold Registry.destroySession. unfold Registry.getSession in Hnone.
    now rewrite Hnone.
  - unfold u', Registry.destroySession, Registry.getSession.
    destruct (JSMap.map_get sessionId (Umux.sessions (Registry.umux u)));
      cbn; [reflexivity | now rewrite app_nil_r].
Qed.

Section PollerFacts.

Variable env : Session.Env.
Variable sessionId : string.

Lemma pollSession_edge (probe : Session.SessionImpl -> bool)
    (session : Session.SessionImpl) (u : Registry.t) :
  Registry.edge sessionId u -> Registry.edge sessionId (Registry.pollSession probe u session).
Proof.
  unfold Registry.edge, Registry.rememberedBusy, Registry.pollSession, Registry.readyCount,
    Registry.busyCount.
  intros H.
  destruct (String.eqb sessionId (Session.id session)) eqn:Ek.
  - apply String.eqb_eq in Ek. rewrite <- Ek.
    destruct (Session.isAlive session); cbn.
    2:{ rewrite map_get_delete_same. lia. }
    destruct (JSMap.map_get sessionId (Registry.readyState u)) as [[|]|] eqn:Eg;
      destruct (probe session); cbn;
      rewrite ?map_get_set_same, ?filter_app, ?length_app; cbn;
      rewrite ?String.eqb_refl; cbn; lia.
  - assert (Hne : sessionId <> Session.id session)
      by (now apply String.eqb_neq).
    destruct (Session.isAlive session); cbn.
    2:{ rewrite (map_get_delete_other _ _ _ Hne). exact H. }
    destruct (JSMap.map_get (Session.id session) (Registry.readyState u))
      as [[|]|]; destruct (probe session); cbn;
      rewrite ?(map_get_set_other _ _ _ _ Hne), ?filter_app, ?length_app; cbn;
      rewrite ?Ek; cbn; lia.
Qed.

Lemma poll_edge (probe : Session.SessionImpl -> bool) (u : Registry.t) :
  Registry.edge sessionId u -> Registry.edge sessionId (Registry.poll probe u).
Proof.
  unfold Registry.poll. destruct (Registry.readyPollTimer u); [|trivial].
  generalize (Registry.listSessions u). intros l. revert u.
  induction l as [|s l IH]; intros u H; cbn; [exact H|].
  apply IH, pollSession_edge, H.
Qed.

Lemma map_get_delete_true (k : string) (m : list (string * bool)) :
  match JSMap.map_get sessionId (JSMap.map_delete k m) with
  | Some true => 1
  | _ => 0
  end
  <= match JSMap.map_get sessionId m with Some true => 1 | _ => 0 end.
Proof.
  destruct (String.eqb sessionId k) eqn:E.
  - apply String.eqb_eq in E. subst k. rewrite map_get_delete_same. lia.
  - apply String.eqb_neq in E. rewrite (map_get_delete_other _ _ _ E). lia.
Qed.

Lemma step_edge (o : Registry.Op) (u : Registry.t) :
  Registry.edge sessionId u -> Registry.edge sessionId (Registry.step env u o).
Proof.
  intros H. destruct o; cbn [Registry.step].
  - unfold Registry.spawn.
    destruct (Umux.spawn env newId processCwd now childPid command options
                (Registry.umux u)) as [um session].
    unfold Registry.edge, Registry.rememberedBusy, Registry.readyCount, Registry.busyCount in *.
    cbn. rewrite filter_app, length_app. cbn. lia.
  - destruct (Registry.getSession sessionId0 u); exact H.
  - unfold Registry.destroySession.
    destruct (JSMap.map_get sessionId0 (Umux.sessions (Registry.umux u)));
      [|exact H].
    unfold Registry.edge, Registry.rememberedBusy, Registry.readyCount, Registry.busyCount in *.
    cbn. rewrite filter_app, length_app. cbn.
    pose proof (map_get_delete_true sessionId0 (Registry.readyState u)) as Hd.
    unfold JSMap.map_delete in Hd. lia.
  - apply poll_edge, H.
  - unfold Registry.edge, Registry.rememberedBusy, Registry.readyCount, Registry.busyCount in *.
    cbn. lia.
Qed.

Lemma run_edge (ops : list Registry.Op) (u : Registry.t) :
  Registry.edge sessionId u -> Registry.edge sessionId (Registry.run env ops u).
Proof.
  revert u. induction ops as [|o ops IH]; intros u H; cbn; [exact H|].
  apply IH, step_edge, H.
Qed.

(** Once the timer is cleared it stays cleared, and nothing is polled. *)
Lemma step_stopped (o : Registry.Op) (u : Registry.t) :
  Registry.readyPollTimer u = false ->
  Registry.readyPollTimer (Registry.step env u o) = false
  /\ Registry.readyCount sessionId (Registry.step env u o)
     = Registry.readyCount sessionId u
  /\ Registry.probes (Registry.step env u o) = Registry.probes u.
Proof.
  intros H. destruct o; cbn [Registry.step].
  - unfold Registry.spawn.
    destruct (Umux.spawn env newId processCwd now childPid command options
                (Registry.umux u)) as [um session].
    unfold Registry.readyCount. cbn. rewrite filter_app, length_app. cbn.
    repeat split; [exact H | lia].
  - destruct (Registry.getSession sessionId0 u); cbn; repeat split; exact H.
  - unfold Registry.destroySession.
    destruct (JSMap.map_get sessionId0 (Umux.sessions (Registry.umux u)));
      cbn; [|repeat split; exact H].
    unfold Registry.readyCount. cbn. rewrite filter_app, length_app. cbn.
    repeat split; [exact H | lia].
  - unfold Registry.poll. rewrite H. repeat split; exact H.
  - cbn. repeat split.
Qed.

End PollerFacts.

(** The event [ready] is edge-triggered: however the object is used, it
    has emitted [ready] for a session at most as often as its poller found
    that session busy.  A session that is idle whenever it is polled is
    never reported ready. *)
Theorem ready_needs_busy_observation (env : Session.Env)
    (cfg : Umux.UmuxConfig) (ops : list Registry.Op) (sessionId : string) :
  Registry.readyCount sessionId (Registry.run env ops (Registry.new env cfg))
  <= Registry.busyCount sessionId (Registry.run env ops (Registry.new env cfg)).
Proof.
  assert (H : Registry.edge sessionId (Registry.run env ops (Registry.new env cfg))).
  { apply run_edge. unfold Registry.edge, Registry.rememberedBusy. cbn. lia. }
  unfold Registry.edge in H. lia.
Qed.

(** [destroy()] stops the poller for good: whatever is done with the object
    afterwards, sessions spawned on it included, no session is polled and
    no [ready] is emitted any more. *)
Theorem no_ready_after_destroy (env : Session.Env) (u : Registry.t)
    (ops : list Registry.Op) (sessionId : string) :
  let u' := Registry.run env ops (fst (Registry.destroy u)) in
  Registry.readyCount sessionId u' = Registry.readyCount sessionId u
  /\ Registry.probes u' = Registry.probes u.
Proof.
  cbn zeta.
  assert (H0 : Registry.readyPollTimer (fst (Registry.destroy u)) = false)
    by reflexivity.
  change (Registry.readyCount sessionId u)
    with (Registry.readyCount sessionId (fst (Registry.destroy u))).
  change (Registry.probes u) with (Registry.probes (fst (Registry.destroy u))).
  generalize dependent (fst (Registry.destroy u)). intros v. revert v.
  induction ops as [|o ops IH]; intros v Hv; cbn; [split; reflexivity|].
  destruct (step_stopped env sessionId o v Hv) as (Ht & Hc & Hp).
  destruct (IH _ Ht) as (IH1 & IH2).
  unfold Registry.run in IH1, IH2. rewrite IH1, IH2, Hc, Hp. split; reflexivity.
Qed.

(** The poller at work: a session seen busy and then idle is reported ready
    once. *)
Example ready_after_busy_then_idle :
  let u := Registry.run Session.noEnv
             [Registry.Spawn "s1" "/" 0%Z 7 "sh" Session.noOptions;
              Registry.Poll (fun _ => true);
              Registry.Poll (fun _ => false);
              Registry.Poll (fun _ => false)]
             (Registry.new Session.noEnv Umux.noConfig) in
  Registry.readyCount "s1" u = 1 /\ Registry.busyCount "s1" u = 1.
Proof. vm_compute. split; reflexivity. Qed.

(* ================================================================== *)
(** ** Properties of watch *)
(* ================================================================== *)

Section EntryFacts.

Context {V : Type}.

Lemma entries_delete_same (n : string) (m : list (string * V)) :
  JSMap.entries n (JSMap.map_delete n m) = 0.
Proof.
  unfold JSMap.entries, JSMap.map_delete.
  induction m as [|[k v] m IH]; cbn; [reflexivity|].
  destruct (String.eqb n k) eqn:E; cbn; [assumption|].
  now rewrite E.
Qed.

Lemma entries_delete_other (n k : string) (m : list (string * V)) :
  String.eqb n k = false ->
  JSMap.entries n (JSMap.map_delete k m) = JSMap.entries n m.
Proof.
  intros Hne. unfold JSMap.entries, JSMap.map_delete.
  induction m as [|[k' v] m IH]; cbn; [reflexivity|].
  destruct (String.eqb k k') eqn:E; cbn.
  - apply String.eqb_eq in E. subst k'. now rewrite Hne.
  - destruct (String.eqb n k'); cbn; now rewrite IH.
Qed.

Lemma entries_delete_le (n k : string) (m : list (string * V)) :
  JSMap.entries n (JSMap.map_delete k m) <= JSMap.entries n m.
Proof.
  destruct (String.eqb n k) eqn:E.
  - apply String.eqb_eq in E. subst k. rewrite entries_delete_same. lia.
  - rewrite (entries_delete_other _ _ _ E). lia.
Qed.

Lemma entries_set_other (n k : string) (v : V) (m : list (string * V)) :
  String.eqb n k = false ->
  JSMap.entries n (JSMap.map_set k v m) = JSMap.entries n m.
Proof.
  intros Hne. unfold JSMap.entries.
  induction m as [|[k' v'] m IH]; cbn.
  - now rewrite Hne.
  - destruct (String.eqb k k') eqn:E; cbn.
    + apply String.eqb_eq in E. subst k'. now rewrite Hne.
    + destruct (String.eqb n k'); cbn; now rewrite IH.
Qed.

Lemma entries_set_same (n : string) (v : V) (m : list (string * V)) :
  JSMap.entries n (JSMap.map_set n v m)
  = match JSMap.entries n m with 0 => 1 | S e => S e end.
Proof.
  unfold JSMap.entries.
  induction m as [|[k' v'] m IH]; cbn.
  - now rewrite String.eqb_refl.
  - destruct (String.eqb n k') eqn:E; cbn.
    + now rewrite String.eqb_refl.
    + rewrite E. exact IH.
Qed.

Lemma Forall_map_delete (P : string * V -> Prop) (k : string)
    (m : list (string * V)) :
  Forall P m -> Forall P (JSMap.map_delete k m).
Proof.
  unfold JSMap.map_delete. rewrite !Forall_forall.
  intros H x Hx. apply filter_In in Hx. apply H, Hx.
Qed.

Lemma Forall_map_set (P : string * V -> Prop) (k : string) (v : V)
    (m : list (string * V)) :
  P (k, v) -> Forall P m -> Forall P (JSMap.map_set k v m).
Proof.
  intros Hv. induction 1 as [|[k' v'] m Hx Hm IH]; cbn.
  - constructor; [exact Hv | constructor].
  - destruct (String.eqb k k'); constructor; assumption.
Qed.

End EntryFacts.

Section WatchFacts.

Variable options : Watch.WatchOptions.
Variable n : string.

Lemma patternCount_emit (e : Watch.UmuxEvent) (st : Watch.State) :
  Watch.patternCount n (Watch.emit e st)
  = Watch.patternCount n st + (if Watch.isPattern n e then 1 else 0).
Proof.
  unfold Watch.patternCount, Watch.emit. cbn.
  rewrite filter_app, length_app. cbn.
  destruct (Watch.isPattern n e); reflexivity.
Qed.

(** The loop of [onOutput] over the entries [l] still to visit. *)
Lemma checkWatcher_spent (data : string) (l : list (string * Watch.PatternWatcher))
    (b : nat) (st : Watch.State) :
  Watch.patternCount n st + JSMap.entries n l <= b ->
  Forall (Watch.onceEntry n) l ->
  Watch.spent n b st ->
  Watch.spent n b (fold_left (Watch.checkWatcher data) l st).
Proof.
  revert st. induction l as [|[k w] l IH]; intros st Hl Hon Hsp;
    cbn [fold_left]; [exact Hsp|].
  inversion Hon as [|x l' Hw Hon']; subst.
  destruct Hsp as (Hb & H1 & Hall).
  unfold JSMap.entries in Hl. cbn [filter fst] in Hl.
  fold (JSMap.entries n l) in Hl.
  apply IH; [|exact Hon'|]; unfold Watch.checkWatcher;
    destruct (JS.exec (Watch.pattern w) data) as [m|].
  - destruct (String.eqb n k) eqn:Ek; cbn [List.length] in Hl;
      destruct (Watch.once w); cbn; rewrite ?patternCount_emit;
      unfold Watch.patternCount in *; cbn; rewrite ?filter_app, ?length_app;
      cbn; rewrite ?Ek; cbn; unfold JSMap.entries in *; lia.
  - destruct (String.eqb n k); cbn [List.length] in Hl;
      unfold JSMap.entries in *; lia.
  - destruct (String.eqb n k) eqn:Ek.
    + specialize (Hw Ek). cbn in Hw. rewrite Hw.
      apply String.eqb_eq in Ek. subst k.
      cbn [List.length] in Hl.
      unfold Watch.spent, Watch.patternCount in *.
      cbn -[JSMap.map_delete JSMap.entries].
      rewrite filter_app, length_app, entries_delete_same. cbn.
      rewrite String.eqb_refl. cbn.
      repeat split; [lia | lia | apply Forall_map_delete, Hall].
    + unfold Watch.spent, Watch.patternCount in *.
      destruct (Watch.once w); cbn -[JSMap.map_delete JSMap.entries];
        rewrite filter_app, length_app, ?(entries_delete_other _ _ _ Ek); cbn;
        rewrite Ek; cbn;
        repeat split; try lia; try apply Forall_map_delete; exact Hall.
  - repeat split; assumption.
Qed.

Lemma onOutput_spent (data : string) (b : nat) (st : Watch.State) :
  Watch.spent n b st -> Watch.spent n b (Watch.onOutput options data st).
Proof.
  intros Hsp. unfold Watch.onOutput.
  assert (H : Watch.spent n b
                (fold_left (Watch.checkWatcher data) (Watch.patterns st) st)).
  { destruct Hsp as (Hb & H1 & Hall).
    apply checkWatcher_spent; [exact Hb | exact Hall | repeat split; assumption]. }
  exact H.
Qed.

Lemma step_spent (o : Watch.Op) (b : nat) (st : Watch.State) :
  Watch.onceOnly n (Watch.added [o]) = true ->
  Watch.spent n b st ->
  Watch.spent n (b + Watch.named n (Watch.added [o])) (Watch.step options st o).
Proof.
  intros Hadd Hsp. destruct o; cbn [Watch.step Watch.added flat_map app];
    unfold Watch.named; cbn [filter List.length].
  - rewrite Nat.add_0_r.
    destruct (Watch.onOutputSubscribed st); [apply onOutput_spent|]; exact Hsp.
  - rewrite Nat.add_0_r. destruct (Watch.idleTimer st); [|exact Hsp].
    destruct Hsp as (Hb & H1 & Hall).
    unfold Watch.spent. rewrite patternCount_emit.
    cbn -[JSMap.entries].
    unfold Watch.patternCount in *. cbn -[JSMap.entries].
    repeat split; try lia; exact Hall.
  - destruct Hsp as (Hb & H1 & Hall).
    unfold Watch.onceOnly in Hadd. cbn in Hadd. rewrite andb_true_r in Hadd.
    unfold Watch.addPattern, Watch.spent, Watch.patternCount in *.
    cbn -[JSMap.entries JSMap.map_set].
    destruct (String.eqb n (Watch.name watcher)) eqn:Ek.
    + apply String.eqb_eq in Ek. rewrite <- Ek. rewrite entries_set_same.
      cbn in Hadd. cbn [List.length].
      repeat split.
      * destruct (JSMap.entries n (Watch.patterns st)); lia.
      * destruct (JSMap.entries n (Watch.patterns st)); lia.
      * apply Forall_map_set; [|exact Hall]. intros _. exact Hadd.
    + rewrite (entries_set_other _ _ _ _ Ek). cbn [List.length].
      repeat split; try lia.
      apply Forall_map_set; [|exact Hall].
      intros Hk. cbn in Hk. rewrite Hk in Ek. discriminate.
  - rewrite Nat.add_0_r. destruct Hsp as (Hb & H1 & Hall).
    unfold Watch.removePattern, Watch.spent, Watch.patternCount in *.
    cbn -[JSMap.entries JSMap.map_delete].
    pose proof (entries_delete_le n name (Watch.patterns st)).
    repeat split; try lia. apply Forall_map_delete, Hall.
  - rewrite Nat.add_0_r. exact Hsp.
Qed.

Lemma onceOnly_app (xs ys : list Watch.PatternWatcher) :
  Watch.onceOnly n (xs ++ ys) = Watch.onceOnly n xs && Watch.onceOnly n ys.
Proof. apply forallb_app. Qed.

Lemma run_spent (ops : list Watch.Op) (b : nat) (st : Watch.State) :
  Watch.onceOnly n (Watch.added ops) = true ->
  Watch.spent n b st ->
  Watch.spent n (b + Watch.named n (Watch.added ops)) (Watch.run options ops st).
Proof.
  revert b st. induction ops as [|o ops IH]; intros b st Hadd Hsp.
  - cbn. rewrite Nat.add_0_r. exact Hsp.
  - assert (Hcons : Watch.added (o :: ops) = Watch.added [o] ++ Watch.added ops).
    { unfold Watch.added. cbn [flat_map]. now rewrite app_nil_r. }
    rewrite Hcons in *. clear Hcons.
    rewrite onceOnly_app in Hadd. apply andb_true_iff in Hadd.
    destruct Hadd as (Ho & Hops).
    unfold Watch.named. rewrite filter_app, length_app.
    fold (Watch.named n (Watch.added [o])). fold (Watch.named n (Watch.added ops)).
    rewrite Nat.add_assoc. cbn [Watch.run fold_left].
    apply (IH _ _ Hops). apply step_spent; assumption.
Qed.

(** The map [watch] builds from the patterns it is given. *)
Lemma given_spent (ws : list Watch.PatternWatcher)
    (m : list (string * Watch.PatternWatcher)) :
  Watch.onceOnly n ws = true ->
  JSMap.entries n m <= 1 ->
  Forall (Watch.onceEntry n) m ->
  let m' := fold_left (fun m p => JSMap.map_set (Watch.name p) p m) ws m in
  JSMap.entries n m' <= 1
  /\ Forall (Watch.onceEntry n) m'
  /\ JSMap.entries n m' <= JSMap.entries n m + Watch.named n ws.
Proof.
  revert m. induction ws as [|w ws IH]; intros m Hon H1 Hall; cbn zeta.
  - cbn -[JSMap.entries]. repeat split; [exact H1 | exact Hall | lia].
  - cbn in Hon. apply andb_true_iff in Hon. destruct Hon as (Hw & Hws).
    cbn [fold_left].
    assert (Hstep : JSMap.entries n (JSMap.map_set (Watch.name w) w m) <= 1
                    /\ JSMap.entries n (JSMap.map_set (Watch.name w) w m)
                       <= JSMap.entries n m
                          + (if String.eqb n (Watch.name w) then 1 else 0)).
    { destruct (String.eqb n (Watch.name w)) eqn:Ek.
      - apply String.eqb_eq in Ek. rewrite <- Ek, entries_set_same.
        destruct (JSMap.entries n m); lia.
      - rewrite (entries_set_other _ _ _ _ Ek). lia. }
    destruct Hstep as (Hs1 & Hs2).
    destruct (IH (JSMap.map_set (Watch.name w) w m) Hws Hs1) as (A & B & C).
    { apply Forall_map_set; [|exact Hall].
      intros Hk. cbn in Hk |- *. rewrite Hk in Hw. exact Hw. }
    repeat split; [exact A | exact B |].
    unfold Watch.named in *. cbn [filter].
    destruct (String.eqb n (Watch.name w)); cbn [List.length]; lia.
Qed.

Lemma step_quiet (o : Watch.Op) (k : nat) (st : Watch.State) :
  Watch.quiet k st ->
  Watch.quiet (k + Watch.outputs [o]) (Watch.step options st o).
Proof.
  unfold Watch.quiet, Watch.outputs, Watch.idleCount. intros H.
  destruct o; cbn [Watch.step filter List.length]; rewrite ?Nat.add_0_r.
  - destruct (Watch.onOutputSubscribed st).
    + unfold Watch.onOutput, Watch.resetIdleTimer. cbn.
      assert (He : forall l st0,
                 filter Watch.isIdle
                   (Watch.emitted (fold_left (Watch.checkWatcher data) l st0))
                 = filter Watch.isIdle (Watch.emitted st0)).
      { induction l as [|[k0 w] l IH]; intros st0; cbn; [reflexivity|].
        rewrite IH. unfold Watch.checkWatcher.
        destruct (JS.exec (Watch.pattern w) data); [|reflexivity].
        destruct (Watch.once w); cbn; rewrite filter_app; cbn;
          now rewrite app_nil_r. }
      rewrite He.
      destruct (Wait.positive (Watch.o_idleThreshold options));
        [destruct (negb _)|];
        destruct (Watch.idleTimer st); lia.
    + destruct (Watch.idleTimer st); lia.
  - destruct (Watch.idleTimer st) eqn:E; cbn; rewrite ?E; [|lia].
    rewrite filter_app, length_app. cbn. lia.
  - cbn. exact H.
  - cbn. exact H.
  - cbn. destruct (Watch.idleTimer st); lia.
Qed.

Lemma run_quiet (ops : list Watch.Op) (k : nat) (st : Watch.State) :
  Watch.quiet k st ->
  Watch.quiet (k + Watch.outputs ops) (Watch.run options ops st).
Proof.
  revert k st. induction ops as [|o ops IH]; intros k st H.
  - cbn. unfold Watch.outputs. cbn. rewrite Nat.add_0_r. exact H.
  - cbn [Watch.run fold_left].
    replace (k + Watch.outputs (o :: ops))
      with ((k + Watch.outputs [o]) + Watch.outputs ops).
    + apply IH, step_quiet, H.
    + unfold Watch.outputs. cbn [filter].
      destruct o; cbn [List.length]; lia.
Qed.

Lemma step_stop_silent (o : Watch.Op) (st : Watch.State) :
  Watch.idleTimer st = None ->
  Watch.onOutputSubscribed st = false ->
  Watch.idleTimer (Watch.step options st o) = None
  /\ Watch.onOutputSubscribed (Watch.step options st o) = false
  /\ Watch.emitted (Watch.step options st o) = Watch.emitted st.
Proof.
  intros Ht Hs. destruct o; cbn [Watch.step]; rewrite ?Ht, ?Hs; cbn;
    repeat split; assumption.
Qed.

End WatchFacts.

(** A watcher that fires once only reports at most once for every time it
    was handed over: when every watcher of a name, given to [watch] or added
    later, has [once] set, the number of [pattern] events of that name is at
    most 1 if the name was given to [watch] (however often), plus the number
    of [addPattern] calls of the name. *)
Theorem once_watcher_reports_once (options : Watch.WatchOptions)
    (ops : list Watch.Op) (n : string) :
  Watch.onceOnly n (Watch.given options) = true ->
  Watch.onceOnly n (Watch.added ops) = true ->
  Watch.patternCount n (Watch.run options ops (Watch.watch options))
  <= Nat.min 1 (Watch.named n (Watch.given options))
     + Watch.named n (Watch.added ops).
Proof.
  intros Hgiven Hadded.
  destruct (given_spent n (Watch.given options) [] Hgiven) as (A & B & C);
    [cbn; lia | constructor |].
  assert (Hsp : Watch.spent n (Nat.min 1 (Watch.named n (Watch.given options)))
                  (Watch.watch options)).
  { unfold Watch.spent, Watch.watch, Watch.resetIdleTimer, Watch.patternCount.
    cbn -[JSMap.entries Nat.min]. fold (Watch.given options).
    cbn -[JSMap.entries] in A, B, C.
    change (JSMap.entries n (@nil (string * Watch.PatternWatcher))) with 0 in C.
    repeat split; [lia | exact A | exact B]. }
  destruct (run_spent options n ops _ _ Hadded Hsp) as (H & _). lia.
Qed.

(** The event [idle] is reported at most once per silence: its count is at
    most one more than the number of chunks of output.  After [stop()]
    nothing is emitted any more. *)
Theorem idle_once_per_silence (options : Watch.WatchOptions)
    (ops ops' : list Watch.Op) :
  let st := Watch.run options ops (Watch.watch options) in
  Watch.idleCount st <= 1 + Watch.outputs ops
  /\ Watch.emitted (Watch.run options ops' (Watch.stop st)) = Watch.emitted st.
Proof.
  cbn zeta. split.
  - assert (H : Watch.quiet (0 + Watch.outputs ops)
                  (Watch.run options ops (Watch.watch options))).
    { apply run_quiet. unfold Watch.quiet, Watch.watch, Watch.resetIdleTimer,
        Watch.idleCount. cbn.
      destruct (Wait.positive (Watch.o_idleThreshold options)); lia. }
    unfold Watch.quiet in H. lia.
  - generalize (Watch.run options ops (Watch.watch options)). intros st.
    change (Watch.emitted st) with (Watch.emitted (Watch.stop st)).
    assert (Ht : Watch.idleTimer (Watch.stop st) = None) by reflexivity.
    assert (Hs : Watch.onOutputSubscribed (Watch.stop st) = false) by reflexivity.
    generalize dependent (Watch.stop st). intros v. revert v.
    induction ops' as [|o ops' IH]; intros v Ht Hs; cbn; [reflexivity|].
    destruct (step_stop_silent options o v Ht Hs) as (Ht' & Hs' & He).
    unfold Watch.run in IH. rewrite (IH _ Ht' Hs'), He. reflexivity.
Qed.

Lemma once_watcher_reports_once_witness :
  Watch.patternCount "done"
    (Watch.run
       (Watch.mkOptions
          (Some [Watch.mkWatcher "done" (JS.literal false "done") true]) (Some 500))
       [Watch.Output "done"; Watch.Output "done again"]
       (Watch.watch
          (Watch.mkOptions
             (Some [Watch.mkWatcher "done" (JS.literal false "done") true])
             (Some 500))))
  <= 1.
Proof.
  exact (once_watcher_reports_once
           (Watch.mkOptions
              (Some [Watch.mkWatcher "done" (JS.literal false "done") true])
              (Some 500))
           [Watch.Output "done"; Watch.Output "done again"] "done"
           eq_refl eq_refl).
Defined.

(* ================================================================== *)
(** ** Properties of the event emitter *)
(* ================================================================== *)

Section EmitterFacts.

Import EventEmitter.

Context {Data : Type}.

Variable event : string.
Variable h : nat.

Lemma Fn_eqb_eq (a b : Fn) : Fn_eqb a b = true -> a = b.
Proof.
  destruct a, b; cbn; try discriminate.
  - intros H. apply Nat.eqb_eq in H. now subst.
  - intros H. apply andb_true_iff in H. destruct H as (H & H3).
    apply andb_true_iff in H. destruct H as (H1 & H2).
    apply Nat.eqb_eq in H1, H3. apply String.eqb_eq in H2. now subst.
Qed.

Lemma Fn_eqb_refl (a : Fn) : Fn_eqb a a = true.
Proof.
  destruct a; cbn; rewrite ?Nat.eqb_refl, ?String.eqb_refl; reflexivity.
Qed.

Lemma map_set_same {V : Type} (k : string) (v : V) (m : list (string * V)) :
  JSMap.map_get k m = Some v -> JSMap.map_set k v m = m.
Proof.
  induction m as [|[k' v'] m IH]; cbn; [discriminate|].
  destruct (String.eqb k k') eqn:E.
  - intros H. injection H as ->. apply String.eqb_eq in E. now subst.
  - intros H. now rewrite (IH H).
Qed.

Lemma listeners_on (f : Fn) (e : t Data) :
  listeners event (on event f e) = set_add f (listeners event e).
Proof.
  unfold listeners, on.
  destruct (JSMap.map_get event (handlers e)) eqn:E; cbn;
    now rewrite ?map_get_set_same.
Qed.

Lemma listeners_off (event' : string) (f : Fn) (e : t Data) :
  listeners event (off event' f e)
  = if String.eqb event event' then set_delete f (listeners event e)
    else listeners event e.
Proof.
  unfold listeners, off.
  destruct (String.eqb event event') eqn:Ee.
  - apply String.eqb_eq in Ee. subst event'.
    destruct (JSMap.map_get event (handlers e)) eqn:E; cbn.
    + now rewrite map_get_set_same.
    + now rewrite E.
  - apply String.eqb_neq in Ee.
    destruct (JSMap.map_get event' (handlers e)) eqn:E; cbn; [|reflexivity].
    now rewrite (map_get_set_other _ _ _ _ Ee).
Qed.

Lemma callCount_off (event' : string) (f : Fn) (e : t Data) :
  callCount h (off event' f e) = callCount h e.
Proof.
  unfold callCount, off.
  destruct (JSMap.map_get event' (handlers e)); reflexivity.
Qed.

Lemma filter_about_delete (x : Fn) (s : list Fn) :
  about h x = false ->
  filter (about h) (set_delete x s) = filter (about h) s.
Proof.
  intros Hx. unfold set_delete.
  induction s as [|y s IH]; cbn; [reflexivity|].
  destruct (Fn_eqb x y) eqn:E; cbn.
  - apply Fn_eqb_eq in E. subst y. now rewrite Hx.
  - destruct (about h y); now rewrite IH.
Qed.

Lemma call_other (x : Fn) (d : Data) (e : t Data) :
  about h x = false ->
  callCount h (call x d e) = callCount h e
  /\ filter (about h) (listeners event (call x d e))
     = filter (about h) (listeners event e).
Proof.
  intros Hx. destruct x as [h'|n ev h']; cbn in Hx.
  - unfold call, callCount, listeners. cbn.
    rewrite filter_app, length_app. cbn. rewrite Hx. cbn. split; [lia|reflexivity].
  - unfold call.
    change (listeners event
              (mk (handlers (off ev (Wrapper n ev h') e))
                 (wrappers (off ev (Wrapper n ev h') e))
                 (calls (off ev (Wrapper n ev h') e) ++ [(h', d)])))
      with (listeners event (off ev (Wrapper n ev h') e)).
    split.
    + rewrite <- (callCount_off ev (Wrapper n ev h') e).
      unfold callCount. cbn. rewrite filter_app, length_app. cbn.
      rewrite Hx. cbn. lia.
    + rewrite listeners_off. destruct (String.eqb event ev); [|reflexivity].
      apply filter_about_delete. exact Hx.
Qed.

Lemma visit_other (x : Fn) (d : Data) (e : t Data) :
  about h x = false ->
  callCount h (visit event d e x) = callCount h e
  /\ filter (about h) (listeners event (visit event d e x))
     = filter (about h) (listeners event e).
Proof.
  intros Hx. unfold visit.
  destruct (existsb (Fn_eqb x) (listeners event e));
    [apply call_other, Hx | split; reflexivity].
Qed.

Lemma visit_others (l : list Fn) (d : Data) (e : t Data) :
  Forall (fun x => about h x = false) l ->
  callCount h (fold_left (visit event d) l e) = callCount h e
  /\ filter (about h) (listeners event (fold_left (visit event d) l e))
     = filter (about h) (listeners event e).
Proof.
  intros Hl. revert e. induction Hl as [|x l Hx Hl IH]; intros e; cbn [fold_left];
    [split; reflexivity|].
  destruct (IH (visit event d e x)) as (A & B).
  destruct (visit_other x d e Hx) as (A' & B').
  rewrite A, B, A', B'. split; reflexivity.
Qed.

Lemma emit_unfold (d : Data) (e : t Data) :
  emit event d e = fold_left (visit event d) (listeners event e) e.
Proof.
  unfold emit, listeners.
  destruct (JSMap.map_get event (handlers e)); reflexivity.
Qed.

Lemma filter_nil_Forall (s : list Fn) :
  filter (about h) s = [] -> Forall (fun x => about h x = false) s.
Proof.
  induction s as [|x s IH]; cbn; [constructor|].
  destruct (about h x) eqn:E; [discriminate|].
  intros H. constructor; [exact E | apply IH, H].
Qed.

Lemma Forall_filter_nil (s : list Fn) :
  Forall (fun x => about h x = false) s -> filter (about h) s = [].
Proof.
  induction 1 as [|x s Hx Hs IH]; cbn; [reflexivity|]. now rewrite Hx.
Qed.

Lemma delete_only (W : Fn) (s : list Fn) :
  filter (about h) s = [W] -> filter (about h) (set_delete W s) = [].
Proof.
  unfold set_delete. induction s as [|y s IH]; cbn [filter]; [reflexivity|].
  destruct (about h y) eqn:Ey.
  - intros Hs. injection Hs as -> Hs. rewrite Fn_eqb_refl. cbn [negb].
    apply Forall_filter_nil.
    assert (Hs' := filter_nil_Forall _ Hs).
    rewrite Forall_forall in *. intros x Hx. apply filter_In in Hx.
    apply Hs', Hx.
  - intros Hs. destruct (Fn_eqb W y); cbn [negb filter]; rewrite ?Ey;
      apply IH, Hs.
Qed.

(** Once no handler about [h] is subscribed, emitting never calls [h]. *)
Lemma emitAll_quiet (ds : list Data) (e : t Data) :
  filter (about h) (listeners event e) = [] ->
  callCount h (emitAll event ds e) = callCount h e.
Proof.
  revert e. induction ds as [|d ds IH]; intros e He; cbn; [reflexivity|].
  destruct (visit_others (listeners event e) d e (filter_nil_Forall _ He))
    as (A & B).
  rewrite <- emit_unfold in A, B.
  unfold emitAll in IH. rewrite IH; [exact A | now rewrite B].
Qed.

(** A wrapper of [h] subscribed last, behind handlers that are not about
    [h], makes [h] run at the next event and at no later one. *)
Lemma wrapper_last (n : nat) (l : list Fn) (d : Data) (ds : list Data)
    (e : t Data) :
  listeners event e = l ++ [Wrapper n event h] ->
  Forall (fun x => about h x = false) l ->
  callCount h (emitAll event (d :: ds) e) = callCount h e + 1.
Proof.
  intros Hl Hall. set (W := Wrapper n event h) in *.
  cbn [emitAll fold_left]. fold (emitAll event ds (emit event d e)).
  rewrite emit_unfold, Hl, fold_left_app. cbn [fold_left].
  destruct (visit_others l d e Hall) as (A & B).
  set (e' := fold_left (visit event d) l e) in *.
  assert (Hf : filter (about h) (listeners event e') = [W]).
  { rewrite B, Hl, filter_app, (Forall_filter_nil l Hall). cbn.
    now rewrite Nat.eqb_refl. }
  assert (Hin : existsb (Fn_eqb W) (listeners event e') = true).
  { apply existsb_exists. exists W. split; [|apply Fn_eqb_refl].
    assert (Hw : In W (filter (about h) (listeners event e')))
      by (rewrite Hf; now left).
    apply filter_In in Hw. apply Hw. }
  unfold visit at 1. rewrite Hin. unfold call, W at 1. fold W.
  set (e2 := mk (handlers (off event W e')) (wrappers (off event W e'))
               (calls (off event W e') ++ [(h, d)])).
  assert (Hq : filter (about h) (listeners event e2) = []).
  { change (listeners event e2) with (listeners event (off event W e')).
    rewrite listeners_off, String.eqb_refl.
    apply delete_only, Hf. }
  rewrite (emitAll_quiet ds e2 Hq).
  unfold e2, callCount. cbn [calls]. rewrite filter_app, length_app. cbn.
  rewrite Nat.eqb_refl. cbn.
  pose proof (callCount_off event W e') as Hc. unfold callCount in Hc, A.
  rewrite Hc, A. reflexivity.
Qed.

Lemma set_add_fresh (f : Fn) (s : list Fn) :
  existsb (Fn_eqb f) s = false -> set_add f s = s ++ [f].
Proof. intros H. unfold set_add. now rewrite H. Qed.

Lemma wrapper_fresh (n : nat) (s : list Fn) :
  existsb (wraps h) s = false ->
  existsb (Fn_eqb (Wrapper n event h)) s = false.
Proof.
  induction s as [|y s IH]; cbn [existsb]; [reflexivity|].
  intros H. apply orb_false_iff in H. destruct H as (Hy & Hs).
  rewrite (IH Hs), orb_false_r.
  destruct (Fn_eqb (Wrapper n event h) y) eqn:E; [|reflexivity].
  apply Fn_eqb_eq in E. subst y. cbn in Hy. now rewrite Nat.eqb_refl in Hy.
Qed.

Lemma listeners_once (e : t Data) :
  existsb (wraps h) (listeners event e) = false ->
  listeners event (once event h e)
  = listeners event e ++ [Wrapper (wrappers e) event h].
Proof.
  intros H. unfold once. rewrite listeners_on.
  change (listeners event (mk (handlers e) (S (wrappers e)) (calls e)))
    with (listeners event e).
  apply set_add_fresh, wrapper_fresh, H.
Qed.

Lemma callCount_once (e : t Data) :
  callCount h (once event h e) = callCount h e.
Proof.
  unfold once, on, callCount. cbn.
  destruct (JSMap.map_get event (handlers e)); reflexivity.
Qed.

End EmitterFacts.

(** A handler subscribed with [once] runs at the next event and at no
    later one: when no handler about the function is subscribed to the
    event beforehand, the function has been called exactly once more after
    any number of events, one or more. *)
Theorem once_handler_runs_once {Data : Type} (e : EventEmitter.t Data)
    (event : string) (h : nat) (d : Data) (ds : list Data) :
  existsb (EventEmitter.about h) (EventEmitter.listeners event e) = false ->
  EventEmitter.callCount h
    (EventEmitter.emitAll event (d :: ds) (EventEmitter.once event h e))
  = EventEmitter.callCount h e + 1.
Proof.
  intros Hfree.
  assert (Hall : Forall (fun x => EventEmitter.about h x = false)
                   (EventEmitter.listeners event e)).
  { rewrite Forall_forall. intros x Hx.
    destruct (EventEmitter.about h x) eqn:E; [|reflexivity].
    assert (Hex : existsb (EventEmitter.about h) (EventEmitter.listeners event e)
                  = true)
      by (apply existsb_exists; exists x; split; assumption).
    rewrite Hex in Hfree. discriminate. }
  assert (Hw : existsb (EventEmitter.wraps h) (EventEmitter.listeners event e)
               = false).
  { destruct (existsb (EventEmitter.wraps h) (EventEmitter.listeners event e))
      eqn:E; [|reflexivity].
    apply existsb_exists in E. destruct E as (x & Hx & Hwx).
    rewrite Forall_forall in Hall. specialize (Hall x Hx).
    destruct x; cbn in *; congruence. }
  rewrite (wrapper_last event h (EventEmitter.wrappers e)
             (EventEmitter.listeners event e) d ds _
             (listeners_once event h e Hw) Hall).
  now rewrite callCount_once.
Qed.

(** [off] with the function itself does not cancel [once]: the emitter
    holds the wrapper, not the function.  When no wrapper of the function
    is subscribed beforehand, [once] followed by [off] of the function
    leaves it to be called at the next event, once, whether the function
    was subscribed with [on] before or not. *)
Theorem off_does_not_cancel_once {Data : Type} (e : EventEmitter.t Data)
    (event : string) (h : nat) (d : Data) (ds : list Data) :
  existsb (EventEmitter.wraps h) (EventEmitter.listeners event e) = false ->
  EventEmitter.callCount h
    (EventEmitter.emitAll event (d :: ds)
       (EventEmitter.off event (EventEmitter.Plain h)
          (EventEmitter.once event h e)))
  = EventEmitter.callCount h e + 1.
Proof.
  intros Hw.
  set (W := EventEmitter.Wrapper (EventEmitter.wrappers e) event h).
  set (e1 := EventEmitter.once event h e).
  assert (Hl : EventEmitter.listeners event
                 (EventEmitter.off event (EventEmitter.Plain h) e1)
               = EventEmitter.set_delete (EventEmitter.Plain h)
                   (EventEmitter.listeners event e) ++ [W]).
  { rewrite listeners_off, String.eqb_refl. unfold e1.
    rewrite (listeners_once event h e Hw).
    unfold EventEmitter.set_delete. rewrite filter_app. reflexivity. }
  assert (Hall : Forall (fun x => EventEmitter.about h x = false)
                   (EventEmitter.set_delete (EventEmitter.Plain h)
                      (EventEmitter.listeners event e))).
  { rewrite Forall_forall. intros x Hx.
    unfold EventEmitter.set_delete in Hx. apply filter_In in Hx.
    destruct Hx as (Hx & Hne).
    destruct x as [h'|n ev h']; cbn in Hne |- *.
    - now apply negb_true_iff in Hne.
    - destruct (Nat.eqb h h') eqn:E; [|reflexivity].
      assert (Hex : existsb (EventEmitter.wraps h)
                      (EventEmitter.listeners event e) = true)
        by (apply existsb_exists; eexists; split; [exact Hx | exact E]).
      rewrite Hex in Hw. discriminate. }
  rewrite (wrapper_last event h _ _ d ds _ Hl Hall).
  rewrite callCount_off. unfold e1. now rewrite callCount_once.
Qed.

Lemma once_handler_runs_once_witness :
  EventEmitter.callCount 7
    (EventEmitter.emitAll "exit" ["a"; "b"]
       (EventEmitter.once "exit" 7 (EventEmitter.mk [] 0 [])))
  = 1.
Proof.
  exact (once_handler_runs_once (EventEmitter.mk [] 0 (@nil (nat * string)))
           "exit" 7 "a" ["b"] eq_refl).
Defined.

Lemma off_does_not_cancel_once_witness :
  EventEmitter.callCount 7
    (EventEmitter.emitAll "exit" ["a"; "b"]
       (EventEmitter.off "exit" (EventEmitter.Plain 7)
          (EventEmitter.once "exit" 7
             (EventEmitter.on "exit" (EventEmitter.Plain 7)
                (EventEmitter.mk [] 0 [])))))
  = 1.
Proof.
  exact (off_does_not_cancel_once
           (EventEmitter.on "exit" (EventEmitter.Plain 7)
              (EventEmitter.mk [] 0 (@nil (nat * string))))
           "exit" 7 "a" ["b"] eq_refl).
Defined.
